(** * pppfy: App Store price rounding and country resolution

    A shallow embedding of [pppfy/appstore.py] (class [AppStorePricing]) and
    the properties its specification states about it.

    Modelling conventions.
    - A Python [Decimal] is a finite decimal number [coef * 10 ^ expo]; NaN,
      the infinities and the sign of zero are not represented.  The
      operations of [Dec] are exact.  Those of the [decimal] module are exact
      as long as the result has at most 28 significant digits, the precision
      of the default context; beyond it they round, or raise
      [InvalidOperation].  [within_context] is a range of prices in which
      every operation of the rounder stays below that precision, and what is
      stated about the value a rounding returns is stated for prices in that
      range.  Python's [==] and [<] on decimals compare numeric values.
    - Python [str] is [string], the text in its UTF-8 encoding.  [Str.lower]
      and [String.length] are [str.lower] and [len] on ASCII text; the
      definitions whose name ends in [_with] take the two operations as
      parameters, for what is stated about any text.
    - The object's dictionaries keyed by a country code are finite maps; the
      name index is an association list, because the resolver depends on its
      iteration order.
    - [thefuzz.process.extractOne], the offline currency converter and the
      remote rate service are external: they are parameters of the model.
    - A Python [set] of names is the list of its elements, without
      repetition, in the order they were added; only membership is read
      by the exact pass. *)

From Stdlib Require Import ZArith Lia List Bool.
From Stdlib Require Import Ascii String DecimalString.
From stdpp Require Import base option gmap strings.

Import ListNotations.
Local Open Scope Z_scope.

(** ** Exceptions and results *)

Inductive exn : Type :=
| ValueError (msg : string)
| TypeError (msg : string).

Inductive result (A : Type) : Type :=
| Ok (a : A)
| Raise (e : exn).
Arguments Ok {A} a.
Arguments Raise {A} e.

(** ** Strings *)

Module Str.

(** [c.lower()] on an ASCII character. *)
Definition lower_ascii (c : ascii) : ascii :=
  let n := nat_of_ascii c in
  if ((65 <=? n)%nat && (n <=? 90)%nat)%bool then ascii_of_nat (n + 32) else c.

(** [s.lower()]. *)
Fixpoint lower (s : string) : string :=
  match s with
  | EmptyString => EmptyString
  | String c s' => String (lower_ascii c) (lower s')
  end.

(** [s.endswith(suffix)]. *)
Fixpoint endswith (s suffix : string) : bool :=
  if String.eqb s suffix then true
  else match s with
       | EmptyString => false
       | String _ s' => endswith s' suffix
       end.

(** Python's [isspace] on an ASCII character. *)
Definition is_space (c : ascii) : bool :=
  let n := nat_of_ascii c in
  (((9 <=? n)%nat && (n <=? 13)%nat) || ((28 <=? n)%nat && (n <=? 32)%nat))%bool.

Fixpoint lstrip (s : string) : string :=
  match s with
  | EmptyString => EmptyString
  | String c s' => if is_space c then lstrip s' else s
  end.

(** Removes trailing white space; [None] stands for a string that is
    white space only. *)
Fixpoint rstrip_aux (s : string) : option string :=
  match s with
  | EmptyString => None
  | String c s' =>
      match rstrip_aux s' with
      | Some t => Some (String c t)
      | None => if is_space c then None else Some (String c EmptyString)
      end
  end.

Definition rstrip (s : string) : string :=
  match rstrip_aux s with Some t => t | None => EmptyString end.

(** [s.strip()]. *)
Definition strip (s : string) : string := rstrip (lstrip s).

(** ["," in s]. *)
Fixpoint contains_comma (s : string) : bool :=
  match s with
  | EmptyString => false
  | String c s' => if Ascii.eqb c "," then true else contains_comma s'
  end.

(** [s.split(",")]: the fields between the commas, at least one. *)
Fixpoint split_comma_aux (cur : string) (s : string) : list string :=
  match s with
  | EmptyString => [cur]
  | String c s' =>
      if Ascii.eqb c "," then cur :: split_comma_aux EmptyString s'
      else split_comma_aux (cur ++ String c EmptyString)%string s'
  end.

Definition split_comma (s : string) : list string := split_comma_aux EmptyString s.

(** [str(n)] for a Python [int]. *)
Definition of_Z (n : Z) : string := NilZero.string_of_int (Z.to_int n).

(** The decimal digits of a natural number. *)
Definition of_N (n : N) : string := NilZero.string_of_uint (N.to_uint n).

(** ["0" * n]. *)
Fixpoint zeros (n : nat) : string :=
  match n with O => EmptyString | S n' => String "0" (zeros n') end.

End Str.

(** ** Decimals *)

Record Decimal : Type := mkDecimal { coef : Z; expo : Z }.

Module Dec.

(** [Decimal("<integer literal>")]. *)
Definition of_Z (n : Z) : Decimal := mkDecimal n 0.

(** The coefficients of two decimals brought to their smaller exponent. *)
Definition align (a b : Decimal) : Z * Z :=
  let m := Z.min (expo a) (expo b) in
  (coef a * 10 ^ (expo a - m), coef b * 10 ^ (expo b - m)).

(** [a == b] and [a < b]. *)
Definition eqb (a b : Decimal) : bool :=
  let '(x, y) := align a b in x =? y.

Definition ltb (a b : Decimal) : bool :=
  let '(x, y) := align a b in x <? y.

(** [a + b], [a - b], [a * b], [abs(a)]. *)
Definition add (a b : Decimal) : Decimal :=
  let '(x, y) := align a b in mkDecimal (x + y) (Z.min (expo a) (expo b)).

Definition opp (a : Decimal) : Decimal := mkDecimal (- coef a) (expo a).

Definition sub (a b : Decimal) : Decimal := add a (opp b).

Definition mul (a b : Decimal) : Decimal :=
  mkDecimal (coef a * coef b) (expo a + expo b).

Definition abs (a : Decimal) : Decimal := mkDecimal (Z.abs (coef a)) (expo a).

(** [a % b]: the remainder has the sign of the dividend. *)
Definition rem (a b : Decimal) : Decimal :=
  let '(x, y) := align a b in mkDecimal (Z.rem x y) (Z.min (expo a) (expo b)).

(** [a / Decimal(10 ** k)]: the quotient is exact; its exponent is the
    dividend's when the coefficient ends in enough zeros, and lower
    otherwise. *)
Fixpoint div_pow10 (a : Decimal) (k : nat) : Decimal :=
  match k with
  | O => a
  | S k' =>
      let q := div_pow10 a k' in
      if coef q mod 10 =? 0
      then mkDecimal (coef q / 10) (expo q)
      else mkDecimal (coef q) (expo q - 1)
  end.

(** Rounding of [c / m] to an integer, ties to the even neighbour
    (ROUND_HALF_EVEN, the rounding of the default context). *)
Definition round_half_even (c m : Z) : Z :=
  let q := c / m in
  let r := c mod m in
  match 2 * r ?= m with
  | Lt => q
  | Gt => q + 1
  | Eq => if Z.even q then q else q + 1
  end.

(** [a.to_integral_value()]. *)
Definition to_integral_value (a : Decimal) : Decimal :=
  if 0 <=? expo a then a
  else mkDecimal (round_half_even (coef a) (10 ^ (- expo a))) 0.

(** [int(a)]: truncation towards zero. *)
Definition to_int (a : Decimal) : Z :=
  if 0 <=? expo a then coef a * 10 ^ expo a
  else Z.quot (coef a) (10 ^ (- expo a)).

(** [str(a)]: plain notation when the exponent is not positive and the
    number has more than -6 digits left of the point, scientific
    notation otherwise. *)
Definition str (a : Decimal) : string :=
  let sign := if coef a <? 0 then "-"%string else ""%string in
  let digits := Str.of_N (Z.to_N (Z.abs (coef a))) in
  let len := Z.of_nat (String.length digits) in
  let leftdigits := expo a + len in
  let dotplace := if (expo a <=? 0) && (-6 <? leftdigits) then leftdigits else 1 in
  let intpart :=
    if dotplace <=? 0 then "0"%string
    else if len <=? dotplace then (digits ++ Str.zeros (Z.to_nat (dotplace - len)))%string
    else String.substring 0 (Z.to_nat dotplace) digits in
  let fracpart :=
    if dotplace <=? 0 then ("." ++ Str.zeros (Z.to_nat (- dotplace)) ++ digits)%string
    else if len <=? dotplace then ""%string
    else ("." ++ String.substring (Z.to_nat dotplace) (Z.to_nat (len - dotplace)) digits)%string in
  let e := leftdigits - dotplace in
  let esign := if e <? 0 then "-"%string else "+"%string in
  let exppart :=
    if e =? 0 then ""%string
    else ("E" ++ esign ++ Str.of_N (Z.to_N (Z.abs e)))%string in
  (sign ++ intpart ++ fracpart ++ exppart)%string.

End Dec.

(** Decimal literals of the source. *)
Definition d10 : Decimal := Dec.of_Z 10.
Definition d100 : Decimal := Dec.of_Z 100.
Definition dfrac (c : Z) (digits : Z) : Decimal := mkDecimal c (- digits).

(** [min(l, key=key)]: the first element whose key is minimal; [None]
    stands for the [ValueError] Python raises on an empty sequence. *)
Fixpoint min_from {A : Type} (key : A -> Decimal) (best : A) (l : list A) : A :=
  match l with
  | [] => best
  | x :: l' => if Dec.ltb (key x) (key best) then min_from key x l' else min_from key best l'
  end.

Definition py_min {A : Type} (key : A -> Decimal) (l : list A) : option A :=
  match l with
  | [] => None
  | x :: l' => Some (min_from key x l')
  end.

(** ** The state of an [AppStorePricing] object *)

(** A row of the storefront's region table, as scraped. *)
Record row : Type := mkRow {
  row_report_region : string;
  row_report_currency : string;
  row_region_code : string;
  row_countries : string
}.

(** A value of [country_currency_mapping]; ["Region Code"] holds the key
    the entry was stored under, which may be [None]. *)
Record entry : Type := mkEntry {
  report_region : string;
  report_currency : string;
  region_code : option string;
  country : string
}.

(** A call that leaves the program. *)
Inductive ext_call : Type :=
| CallExtractOne (query : string) (choices : list string)
| CallConvert (from_currency to_currency : string)
| CallRemoteRates (from_currency : string).

(** The fields of the object, the lines printed so far and the external
    calls made so far (newest first). *)
Record AppStorePricing : Type := mkState {
  dup_check : gmap (option string) (list (string * string));
  country_names_map : list (string * list string);
  country_currency_mapping : gmap (option string) entry;
  country_reference_rounded_prices : gmap string Decimal;
  stdout : list string;
  ext_calls : list ext_call
}.

Definition set_dup_check (v : gmap (option string) (list (string * string)))
    (st : AppStorePricing) : AppStorePricing :=
  mkState v (country_names_map st) (country_currency_mapping st)
    (country_reference_rounded_prices st) (stdout st) (ext_calls st).

Definition set_country_currency_mapping (v : gmap (option string) entry)
    (st : AppStorePricing) : AppStorePricing :=
  mkState (dup_check st) (country_names_map st) v
    (country_reference_rounded_prices st) (stdout st) (ext_calls st).

Definition set_country_reference_rounded_prices (v : gmap string Decimal)
    (st : AppStorePricing) : AppStorePricing :=
  mkState (dup_check st) (country_names_map st) (country_currency_mapping st)
    v (stdout st) (ext_calls st).

Definition set_stdout (v : list string) (st : AppStorePricing) : AppStorePricing :=
  mkState (dup_check st) (country_names_map st) (country_currency_mapping st)
    (country_reference_rounded_prices st) v (ext_calls st).

Definition set_ext_calls (v : list ext_call) (st : AppStorePricing) : AppStorePricing :=
  mkState (dup_check st) (country_names_map st) (country_currency_mapping st)
    (country_reference_rounded_prices st) (stdout st) v.

(** ** Methods: state and exceptions *)

Definition M (A : Type) : Type := AppStorePricing -> result A * AppStorePricing.

Definition ret {A : Type} (a : A) : M A := fun st => (Ok a, st).

Definition raise {A : Type} (e : exn) : M A := fun st => (Raise e, st).

Definition bind {A B : Type} (m : M A) (k : A -> M B) : M B :=
  fun st =>
    match m st with
    | (Ok a, st') => k a st'
    | (Raise e, st') => (Raise e, st')
    end.

Notation "'let*' x := m 'in' k" := (bind m (fun x => k))
  (at level 10, x name, m at level 100, k at level 200).
Notation "'run' m 'in' k" := (bind m (fun _ => k))
  (at level 10, m at level 100, k at level 200).

Definition get {A : Type} (f : AppStorePricing -> A) : M A := fun st => (Ok (f st), st).

Definition modify (f : AppStorePricing -> AppStorePricing) : M unit :=
  fun st => (Ok tt, f st).

(** [print(line)]. *)
Definition print (line : string) : M unit :=
  modify (fun st => set_stdout (stdout st ++ [line]) st).

(** Records a call to an external collaborator. *)
Definition call (c : ext_call) : M unit :=
  modify (fun st => set_ext_calls (c :: ext_calls st) st).

(** [for x in l: body(x)]. *)
Fixpoint for_each {A : Type} (l : list A) (body : A -> M unit) : M unit :=
  match l with
  | [] => ret tt
  | x :: l' => run body x in for_each l' body
  end.

(** Truth value of an optional string: [None] and [""] are false. *)
Definition truthy (o : option string) : bool :=
  match o with
  | Some s => negb (String.eqb s "")
  | None => false
  end.

(** ** The country resolver *)

Section Resolver.

(** [process.extractOne(query, choices, scorer=fuzz.WRatio)]: the best
    choice with its score on the 0-100 scale, or [None]. *)
Variable extractOne : string -> list string -> option (string * Z).

(** [log(iso_code, name, match)]. *)
Definition log (iso_code : option string) (name match_ : string) : M unit :=
  modify (fun st =>
    match dup_check st !! iso_code with
    | Some l => set_dup_check (<[iso_code := l ++ [(name, match_)]]> (dup_check st)) st
    | None => set_dup_check (<[iso_code := [(name, match_)]]> (dup_check st)) st
    end).

(** The first code, in the iteration order of the index, whose name set
    holds [name]. *)
Fixpoint first_owner (name : string) (index : list (string * list string))
    : option string :=
  match index with
  | [] => None
  | (iso_code, names) :: index' =>
      if bool_decide (name ∈ names) then Some iso_code else first_owner name index'
  end.

(** [[item for sublist in index.values() for item in sublist]]. *)
Definition all_names (index : list (string * list string)) : list string :=
  flat_map snd index.

Definition get_country_iso_code (name : string) : M (option string) :=
  let name := Str.lower name in
  let* index := get country_names_map in
  match first_owner name index with
  | Some iso_code =>
      run log (Some iso_code) name (name ++ "-direct")%string in
      ret (Some iso_code)
  | None =>
      let choices := all_names index in
      run call (CallExtractOne name choices) in
      match extractOne name choices with
      | None => raise (TypeError "cannot unpack non-iterable NoneType object")
      | Some (best_match, score) =>
          match (if 80 <? score then first_owner best_match index else None) with
          | Some iso_code =>
              run log (Some iso_code) name (best_match ++ "-thefuzz")%string in
              ret (Some iso_code)
          | None =>
              run log None name "no match" in
              ret None
          end
      end
  end.

(** [load_reference_prices], over the rows of the CSV file
    ([Countries or Regions], [Decimal(Price)]). *)
Definition load_reference_prices (rows : list (string * Decimal)) : M unit :=
  for_each rows (fun r =>
    let* iso_code := get_country_iso_code (fst r) in
    if truthy iso_code then
      match iso_code with
      | Some code =>
          modify (fun st => set_country_reference_rounded_prices
                              (<[code := snd r]> (country_reference_rounded_prices st)) st)
      | None => ret tt
      end
    else print ("No ISO code found for " ++ fst r)%string).

(** [x in ["EU", "LL", "WW"]] and [x in ["ZZ", "Z1"]]. *)
Definition is_aggregate (region : string) : bool :=
  bool_decide (region ∈ ["EU"; "LL"; "WW"]%string).

Definition is_placeholder (region : string) : bool :=
  bool_decide (region ∈ ["ZZ"; "Z1"]%string).

(** The body of the inner loop, for one country [c] of a row. *)
Definition process_country (item : row) (c : string) : M unit :=
  let* iso_code := get_country_iso_code c in
  run (if negb (truthy iso_code) then print (c ++ " has no iso code!")%string else ret tt) in
  let* mapping := get country_currency_mapping in
  if bool_decide (is_Some (mapping !! iso_code)) && is_aggregate (row_region_code item)
  then ret tt
  else
    let country_info :=
      mkEntry (row_report_region item) (row_report_currency item) iso_code c in
    modify (fun st => set_country_currency_mapping
                        (<[iso_code := country_info]> (country_currency_mapping st)) st).

(** The body of the outer loop, for one row. *)
Definition process_item (item : row) : M unit :=
  if is_placeholder (row_region_code item) then ret tt
  else if Str.contains_comma (row_countries item) then
    let country_names := map Str.strip (Str.split_comma (row_countries item)) in
    for_each country_names (process_country item)
  else
    let item' :=
      mkEntry (row_report_region item) (row_report_currency item)
        (Some (row_region_code item)) (row_countries item) in
    modify (fun st => set_country_currency_mapping
                        (<[Some (row_region_code item) := item']> (country_currency_mapping st)) st).

(** [fetch_appstore_country_currency_mapping], from the rows [data] read
    off the scraped table. *)
Definition fetch_appstore_country_currency_mapping (data : list row) : M unit :=
  run print "Fetching appstore countries and regions information ..." in
  run modify (set_country_currency_mapping ∅) in
  for_each data process_item.

End Resolver.

(** ** The price localizer *)

Section Localizer.

(** The type of amounts handed to the converter. *)
Variable Amount : Type.

(** [CurrencyConverter.convert]; [None] stands for its [ValueError] on
    an unsupported currency. *)
Variable cc_convert : Amount -> string -> string -> option Amount.

(** The fallback through the remote rate service: the fetch of the rates
    of [from_currency] and the multiplication by the rate found. *)
Variable remote_convert : Amount -> string -> string -> result Amount.

Definition convert_between_currencies_by_market_xrate
    (price : Amount) (from_currency to_currency : string) : M Amount :=
  run call (CallConvert from_currency to_currency) in
  match cc_convert price from_currency to_currency with
  | Some converted_price => ret converted_price
  | None =>
      run call (CallRemoteRates (Str.lower from_currency)) in
      match remote_convert price from_currency to_currency with
      | Ok converted_price => ret converted_price
      | Raise e => raise e
      end
  end.

Definition local_currency_to_appstore_preferred_currency
    (country_iso2_code : string) (price : Amount) (country_currency : string)
    : M (string * Amount) :=
  let* mapping := get country_currency_mapping in
  let appstore_currency :=
    match mapping !! Some country_iso2_code with
    | Some e => report_currency e
    | None => country_currency
    end in
  if String.eqb country_currency appstore_currency then ret (appstore_currency, price)
  else
    let* converted_price :=
      convert_between_currencies_by_market_xrate price country_currency appstore_currency in
    ret (appstore_currency, converted_price).

End Localizer.

(** ** The price rounder *)

(** The candidate list built from the reference price of the market. *)
Definition candidates (reference_price price : Decimal) : list Decimal :=
  if Dec.eqb reference_price (Dec.to_integral_value reference_price) then
    let ref_price_int_str := Str.of_Z (Dec.to_int reference_price) in
    if Str.endswith ref_price_int_str "8" then
      [ Dec.add (Dec.mul (Dec.to_integral_value (Dec.div_pow10 price 1)) d10) (Dec.of_Z 8);
        Dec.sub (Dec.mul (Dec.to_integral_value (Dec.div_pow10 price 1)) d10) (Dec.of_Z 2) ]
    else if Str.endswith ref_price_int_str "99" then
      [ Dec.add (Dec.mul (Dec.to_integral_value (Dec.div_pow10 price 2)) d100) (Dec.of_Z 99);
        Dec.sub (Dec.mul (Dec.to_integral_value (Dec.div_pow10 price 2)) d100) (Dec.of_Z 1) ]
    else
      [ Dec.mul (Dec.to_integral_value (Dec.div_pow10 price 1)) d10 ]
  else
    let ref_price_str := Dec.str reference_price in
    let base_price := Dec.to_integral_value price in
    let decade := Dec.sub base_price (Dec.rem base_price d10) in
    if Str.endswith ref_price_str "4.99" then
      [ Dec.add decade (dfrac 499 2) ]
    else if Str.endswith ref_price_str "4.9" then
      [ Dec.add decade (dfrac 49 1) ]
    else if Str.endswith ref_price_str "9.98" then
      [ Dec.add decade (dfrac 998 2); Dec.sub decade (dfrac 2 2) ]
    else if Str.endswith ref_price_str "9.99" then
      [ Dec.add decade (dfrac 999 2); Dec.sub decade (dfrac 1 2) ]
    else if Str.endswith ref_price_str "9.9" then
      [ Dec.add decade (dfrac 99 1); Dec.sub decade (dfrac 1 1) ]
    else if Str.endswith ref_price_str "8.99" then
      [ Dec.add decade (dfrac 899 2); Dec.sub decade (dfrac 101 2) ]
    else
      [ Dec.add base_price (dfrac 99 2) ].

(** [min(candidates, key=lambda x: abs(x - price))]. *)
Definition nearest (price : Decimal) (l : list Decimal) : option Decimal :=
  py_min (fun x => Dec.abs (Dec.sub x price)) l.

(** The input price is taken as the decimal that [Decimal(price)] makes of
    it. *)
Definition round_off_price_to_appstore_format (iso2_code : string) (price : Decimal)
    : M Decimal :=
  let* table := get country_reference_rounded_prices in
  match table !! iso2_code with
  | None => raise (ValueError ("No reference price found for " ++ iso2_code)%string)
  | Some reference_price =>
      match nearest price (candidates reference_price price) with
      | Some rounded_price => ret rounded_price
      | None => raise (ValueError "min() arg is an empty sequence")
      end
  end.

(** ** The grids

    The chain of tests on the reference price, read on its own: which grid
    a reference price selects, and the candidates of each grid. *)

Inductive grid : Type :=
| DecadePlusEight
| HundredPlus99
| BareDecade
| Suffix499
| Suffix49
| Suffix998
| Suffix999
| Suffix99
| Suffix899
| Generic99.

Definition classify (reference_price : Decimal) : grid :=
  if Dec.eqb reference_price (Dec.to_integral_value reference_price) then
    let ref_price_int_str := Str.of_Z (Dec.to_int reference_price) in
    if Str.endswith ref_price_int_str "8" then DecadePlusEight
    else if Str.endswith ref_price_int_str "99" then HundredPlus99
    else BareDecade
  else
    let ref_price_str := Dec.str reference_price in
    if Str.endswith ref_price_str "4.99" then Suffix499
    else if Str.endswith ref_price_str "4.9" then Suffix49
    else if Str.endswith ref_price_str "9.98" then Suffix998
    else if Str.endswith ref_price_str "9.99" then Suffix999
    else if Str.endswith ref_price_str "9.9" then Suffix99
    else if Str.endswith ref_price_str "8.99" then Suffix899
    else Generic99.

(** [base_price - (base_price % Decimal("10"))]. *)
Definition decade_of (price : Decimal) : Decimal :=
  let base_price := Dec.to_integral_value price in
  Dec.sub base_price (Dec.rem base_price d10).

Definition grid_candidates (g : grid) (price : Decimal) : list Decimal :=
  match g with
  | DecadePlusEight =>
      [ Dec.add (Dec.mul (Dec.to_integral_value (Dec.div_pow10 price 1)) d10) (Dec.of_Z 8);
        Dec.sub (Dec.mul (Dec.to_integral_value (Dec.div_pow10 price 1)) d10) (Dec.of_Z 2) ]
  | HundredPlus99 =>
      [ Dec.add (Dec.mul (Dec.to_integral_value (Dec.div_pow10 price 2)) d100) (Dec.of_Z 99);
        Dec.sub (Dec.mul (Dec.to_integral_value (Dec.div_pow10 price 2)) d100) (Dec.of_Z 1) ]
  | BareDecade => [ Dec.mul (Dec.to_integral_value (Dec.div_pow10 price 1)) d10 ]
  | Suffix499 => [ Dec.add (decade_of price) (dfrac 499 2) ]
  | Suffix49 => [ Dec.add (decade_of price) (dfrac 49 1) ]
  | Suffix998 =>
      [ Dec.add (decade_of price) (dfrac 998 2); Dec.sub (decade_of price) (dfrac 2 2) ]
  | Suffix999 =>
      [ Dec.add (decade_of price) (dfrac 999 2); Dec.sub (decade_of price) (dfrac 1 2) ]
  | Suffix99 =>
      [ Dec.add (decade_of price) (dfrac 99 1); Dec.sub (decade_of price) (dfrac 1 1) ]
  | Suffix899 =>
      [ Dec.add (decade_of price) (dfrac 899 2); Dec.sub (decade_of price) (dfrac 101 2) ]
  | Generic99 => [ Dec.add (Dec.to_integral_value price) (dfrac 99 2) ]
  end.

(** The grids on which a negative price is rounded to a different decade
    the second time. *)
Definition single_suffix_grid (g : grid) : bool :=
  match g with
  | Suffix499 | Suffix49 => true
  | _ => false
  end.

(** The value of a decimal whose exponent is not negative. *)
Definition ival (a : Decimal) : Z := coef a * 10 ^ expo a.

(** ** Concrete collaborators and states used in the examples *)

(** An extractor that answers with the first choice and a fixed score. *)
Definition fixed_score_extractor (score : Z) (query : string) (choices : list string)
    : option (string * Z) :=
  match choices with
  | [] => None
  | c :: _ => Some (c, score)
  end.

(** An object with the given name index and reference prices, and nothing
    else. *)
Definition state_of (index : list (string * list string))
    (prices : gmap string Decimal) : AppStorePricing :=
  mkState ∅ index ∅ prices [] [].

Definition small_index : list (string * list string) :=
  [ ("FR", ["france"; "french republic"]); ("VN", ["vietnam"; "viet nam"]) ]%string.

Definition small_prices : gmap string Decimal :=
  <["FR"%string := dfrac 99 2]> (<["VN"%string := Dec.of_Z 98]> ∅).

Definition usd_entry : entry := mkEntry "Americas" "USD" (Some "US"%string) "United States".

(** An object whose currency mapping knows the United States only. *)
Definition us_state : AppStorePricing :=
  mkState ∅ small_index (<[Some "US"%string := usd_entry]> ∅) small_prices [] [].

(** An object whose name index holds the empty name. *)
Definition aq_state : AppStorePricing :=
  state_of [("AQ", ["antarctica"; ""])]%string ∅.

(** An aggregate row that lists a name outside the index. *)
Definition ww_row : row := mkRow "Rest of World" "USD" "WW" "Atlantis, France".

(** A specific row followed by an aggregate row that lists the same
    country. *)
Definition vn_row : row := mkRow "Vietnam" "VND" "VN" "Vietnam".
Definition ww_row_vn : row := mkRow "Rest of World" "USD" "WW" "Vietnam, France".

(** The state after [log(iso_code, name, match)]. *)
Definition logged (iso_code : option string) (name match_ : string)
    (st : AppStorePricing) : AppStorePricing :=
  snd (log iso_code name match_ st).

(** ** The shape of the prices of a grid *)

(** What the candidates of a grid look like: the exponent, and the residue
    of the coefficient modulo 10, 100 or 1000.  The decade-plus-eight
    prices are the integers [10 * q + 8], the prices of the suffix 9.99 the
    numbers [10 * q + 9.99], and so on, for any integer [q]: a price that
    is not negative ends in the digits of the grid, and below zero the
    grid goes on with -2, -12, ... and -0.01, -10.01, ... *)
Definition on_grid (g : grid) (r : Decimal) : Prop :=
  match g with
  | DecadePlusEight => expo r = 0 /\ coef r mod 10 = 8
  | HundredPlus99 => expo r = 0 /\ coef r mod 100 = 99
  | BareDecade => 0 <= expo r /\ coef r mod 10 = 0
  | Suffix499 => expo r = -2 /\ coef r mod 1000 = 499
  | Suffix49 => expo r = -1 /\ coef r mod 100 = 49
  | Suffix998 => expo r = -2 /\ coef r mod 1000 = 998
  | Suffix999 => expo r = -2 /\ coef r mod 1000 = 999
  | Suffix99 => expo r = -1 /\ coef r mod 100 = 99
  | Suffix899 => expo r = -2 /\ coef r mod 1000 = 899
  | Generic99 => expo r = -2 /\ coef r mod 100 = 99
  end.

(** [abs(x - price)], the key of the selection. *)
Definition distance (price x : Decimal) : Decimal := Dec.abs (Dec.sub x price).

(** ** The resolver as a function of the index *)

(** What [get_country_iso_code] returns, read off the name index and the
    extractor alone. *)
Definition resolution (extractOne : string -> list string -> option (string * Z))
    (index : list (string * list string)) (name : string) : result (option string) :=
  match first_owner (Str.lower name) index with
  | Some iso_code => Ok (Some iso_code)
  | None =>
      match extractOne (Str.lower name) (all_names index) with
      | None => Raise (TypeError "cannot unpack non-iterable NoneType object")
      | Some (best_match, score) =>
          Ok (if 80 <? score then first_owner best_match index else None)
      end
  end.

(** The records logged under a key, none if the key is absent. *)
Definition audit (st : AppStorePricing) (k : option string) : list (string * string) :=
  default [] (dup_check st !! k).

(** ** The reference-price load as a fold *)

(** The table the reference-price load leaves, read off the index, the
    extractor and the rows: a row whose name resolves to a non-empty code
    is stored under it, any other row is passed over, and the rows after
    one the resolver raises on are not reached. *)
Fixpoint load_table (extractOne : string -> list string -> option (string * Z))
    (index : list (string * list string)) (rows : list (string * Decimal))
    (table : gmap string Decimal) : gmap string Decimal :=
  match rows with
  | [] => table
  | r :: rows' =>
      match resolution extractOne index (fst r) with
      | Ok (Some code) =>
          load_table extractOne index rows'
            (if truthy (Some code) then <[code := snd r]> table else table)
      | Ok None => load_table extractOne index rows' table
      | Raise _ => table
      end
  end.

(** ** The name index builder *)

(** A translation of a country's name; either part may be missing. *)
Record translation : Type := mkTranslation {
  tr_common : option string;
  tr_official : option string
}.

(** A record of the country dataset: [cca2], [name.common],
    [name.official] (may be missing), [altSpellings] (empty when missing)
    and the values of [translations]. *)
Record country_record : Type := mkCountry {
  cca2 : string;
  name_common : string;
  name_official : option string;
  altSpellings : list string;
  translations : list translation
}.

(** [s.add(x)] and [s.update(xs)] on a set, kept as the list of its
    elements in the order they came in. *)
Definition set_add (x : string) (s : list string) : list string :=
  if bool_decide (x ∈ s) then s else s ++ [x].

Definition set_update (xs : list string) (s : list string) : list string :=
  fold_left (fun acc x => set_add x acc) xs s.

(** [d[k] = v] on a dictionary kept in insertion order: the value of an
    existing key is replaced in place, a new key goes to the end. *)
Fixpoint dict_set {V : Type} (k : string) (v : V) (d : list (string * V)) : list (string * V) :=
  match d with
  | [] => [(k, v)]
  | (k', v') :: d' =>
      if String.eqb k' k then (k, v) :: d' else (k', v') :: dict_set k v d'
  end.

(** [d.get(k)]. *)
Fixpoint dict_get {V : Type} (k : string) (d : list (string * V)) : option V :=
  match d with
  | [] => None
  | (k', v') :: d' => if String.eqb k' k then Some v' else dict_get k d'
  end.

(** [len(name) > 2]. *)
Definition longer_than_two (name : string) : bool := (2 <? String.length name)%nat.

(** The set [all_names] compiled for one country. *)
Definition names_of (country : country_record) : list string :=
  let all_names := [] in
  let all_names := set_add (Str.lower (name_common country)) all_names in
  let all_names := set_add (Str.lower (default ""%string (name_official country))) all_names in
  let all_names :=
    set_update (map Str.lower (filter (fun name => longer_than_two name = true)
                                 (altSpellings country))) all_names in
  let all_names :=
    set_update (map (fun t => Str.lower (default ""%string (tr_common t)))
                  (translations country)) all_names in
  set_update (map (fun t => Str.lower (default ""%string (tr_official t)))
                (translations country)) all_names.

Definition set_country_names_map (v : list (string * list string))
    (st : AppStorePricing) : AppStorePricing :=
  mkState (dup_check st) v (country_currency_mapping st)
    (country_reference_rounded_prices st) (stdout st) (ext_calls st).

(** [fetch_country_names_map], from the records [country_info] the
    dataset answered with. *)
Definition fetch_country_names_map (country_info : list country_record) : M unit :=
  for_each country_info (fun country =>
    modify (fun st => set_country_names_map
                        (dict_set (cca2 country) (names_of country) (country_names_map st)) st)).

(** The name index after the records [country_info] have been entered
    into [index]. *)
Definition built_index (country_info : list country_record)
    (index : list (string * list string)) : list (string * list string) :=
  fold_left (fun idx country => dict_set (cca2 country) (names_of country) idx)
    country_info index.

(** An object whose tables are all empty. *)
Definition new_object : AppStorePricing := mkState ∅ [] ∅ ∅ [] [].

(** The constructor, with what its requests answered: each table is set
    empty and then loaded, the name index first, the currency mapping
    next, the reference prices last.  The fields [url], [creds],
    [currency_converter] and [country_info] are set and never read by the
    methods embedded here; they are left out. *)
Definition init (extractOne : string -> list string -> option (string * Z))
    (country_info : list country_record) (data : list row)
    (reference_rows : list (string * Decimal)) : M unit :=
  run modify (set_dup_check ∅) in
  run modify (set_country_names_map []) in
  run fetch_country_names_map country_info in
  run modify (set_country_currency_mapping ∅) in
  run fetch_appstore_country_currency_mapping extractOne data in
  run modify (set_country_reference_rounded_prices ∅) in
  load_reference_prices extractOne reference_rows.

(** Two records of a small dataset. *)
Definition france_record : country_record :=
  mkCountry "FR" "France" (Some "French Republic"%string) ["FR"; "French Republic"]%string
    [mkTranslation (Some "Frankreich"%string) (Some "Republik Frankreich"%string);
     mkTranslation (Some "Francia"%string) None].

Definition vietnam_record : country_record :=
  mkCountry "VN" "Vietnam" None ["VN"; "Viet Nam"]%string [].

(** The coefficient of a decimal brought to the exponent [k], for [k] not
    above its own exponent. *)
Definition scaled (d : Decimal) (k : Z) : Z := coef d * 10 ^ (expo d - k).

(** Reference prices on a suffix grid. *)
Definition suffix_prices : gmap string Decimal :=
  <["DE"%string := dfrac 999 2]> ∅.

(** ** The range of exact arithmetic *)

(** A price of at most 20 digits with at most 20 of them after the point.
    The default context of the [decimal] module works with 28 significant
    digits, and [%] raises [InvalidOperation] when its integer quotient has
    more.  For a price in this range every intermediate result of the
    rounder is exact: [price / 10] and [price / 100] keep the digits of the
    price; [to_integral_value] gives an integer of at most 20 digits; the
    products by 10 and 100, the remainder by 10 and the sums with the
    constants of the grid have at most 23 digits; a candidate lies within
    150 of the price, so the difference [x - price] has at most 23 digits as
    well.  The same holds when the price is a candidate generated from such
    a price.  The last section proves this of the operations of [Ctx]. *)
Definition within_context (price : Decimal) : Prop :=
  -20 <= expo price <= 0 /\ Z.abs (coef price) < 10 ^ 20.

(** ** The default context of the [decimal] module

    The arithmetic of the module rounds an exact result of more than 28
    significant digits, and [%] raises [InvalidOperation] when its integer
    quotient has more than 28 digits.  The operations of [Ctx] return the
    exact result when the context neither rounds nor raises, and [None]
    otherwise.  [to_integral_value], the comparisons, [int] and [str] do
    not depend on the context. *)

Module Ctx.

(** [getcontext().prec]. *)
Definition prec : Z := 28.

(** The coefficient has at most [prec] digits. *)
Definition fits (a : Decimal) : bool := Z.abs (coef a) <? 10 ^ prec.

Definition exact (a : Decimal) : option Decimal := if fits a then Some a else None.

Definition add (a b : Decimal) : option Decimal := exact (Dec.add a b).

Definition sub (a b : Decimal) : option Decimal := exact (Dec.sub a b).

Definition mul (a b : Decimal) : option Decimal := exact (Dec.mul a b).

Definition abs (a : Decimal) : option Decimal := exact (Dec.abs a).

Definition div_pow10 (a : Decimal) (k : nat) : option Decimal := exact (Dec.div_pow10 a k).

(** [a % b]: no answer on a zero divisor, nor when the integer quotient
    has more than [prec] digits. *)
Definition rem (a b : Decimal) : option Decimal :=
  let '(x, y) := Dec.align a b in
  if (y =? 0) || negb (Z.abs (Z.quot x y) <? 10 ^ prec) then None
  else exact (Dec.rem a b).

End Ctx.

(** The candidates of a grid, computed in the default context.  An
    expression the source writes out for each candidate is computed once. *)
Definition decade_in_context (price : Decimal) : option Decimal :=
  let base_price := Dec.to_integral_value price in
  r ← Ctx.rem base_price d10;
  Ctx.sub base_price r.

Definition grid_candidates_in_context (g : grid) (price : Decimal) : option (list Decimal) :=
  match g with
  | DecadePlusEight =>
      q ← Ctx.div_pow10 price 1;
      m ← Ctx.mul (Dec.to_integral_value q) d10;
      c1 ← Ctx.add m (Dec.of_Z 8);
      c2 ← Ctx.sub m (Dec.of_Z 2);
      Some [c1; c2]
  | HundredPlus99 =>
      q ← Ctx.div_pow10 price 2;
      m ← Ctx.mul (Dec.to_integral_value q) d100;
      c1 ← Ctx.add m (Dec.of_Z 99);
      c2 ← Ctx.sub m (Dec.of_Z 1);
      Some [c1; c2]
  | BareDecade =>
      q ← Ctx.div_pow10 price 1;
      m ← Ctx.mul (Dec.to_integral_value q) d10;
      Some [m]
  | Suffix499 =>
      d ← decade_in_context price;
      c1 ← Ctx.add d (dfrac 499 2);
      Some [c1]
  | Suffix49 =>
      d ← decade_in_context price;
      c1 ← Ctx.add d (dfrac 49 1);
      Some [c1]
  | Suffix998 =>
      d ← decade_in_context price;
      c1 ← Ctx.add d (dfrac 998 2);
      c2 ← Ctx.sub d (dfrac 2 2);
      Some [c1; c2]
  | Suffix999 =>
      d ← decade_in_context price;
      c1 ← Ctx.add d (dfrac 999 2);
      c2 ← Ctx.sub d (dfrac 1 2);
      Some [c1; c2]
  | Suffix99 =>
      d ← decade_in_context price;
      c1 ← Ctx.add d (dfrac 99 1);
      c2 ← Ctx.sub d (dfrac 1 1);
      Some [c1; c2]
  | Suffix899 =>
      d ← decade_in_context price;
      c1 ← Ctx.add d (dfrac 899 2);
      c2 ← Ctx.sub d (dfrac 101 2);
      Some [c1; c2]
  | Generic99 =>
      c1 ← Ctx.add (Dec.to_integral_value price) (dfrac 99 2);
      Some [c1]
  end.

Definition candidates_in_context (reference_price price : Decimal) : option (list Decimal) :=
  grid_candidates_in_context (classify reference_price) price.

(** [abs(x - price)] in the default context. *)
Definition key_in_context (price x : Decimal) : option Decimal :=
  d ← Ctx.sub x price;
  Ctx.abs d.

(** The selection in the default context: that of [nearest], as long as
    every key is computed exactly. *)
Definition nearest_in_context (price : Decimal) (l : list Decimal) : option Decimal :=
  if forallb (fun x => bool_decide (is_Some (key_in_context price x))) l
  then nearest price l
  else None.

(** A wider range than [within_context], which holds the candidates of a
    price of that range. *)
Definition near_context (price : Decimal) : Prop :=
  -25 <= expo price <= 0 /\ Z.abs (coef price) < 10 ^ 25.

(** ** The resolver and the index builder on any text *)

Section AnyText.

(** [str.lower] and [len]. *)
Variable lower : string -> string.
Variable len : string -> nat.

Variable extractOne : string -> list string -> option (string * Z).

(** [get_country_iso_code], with [name.lower()] as [lower name]. *)
Definition get_country_iso_code_with (name : string) : M (option string) :=
  let name := lower name in
  let* index := get country_names_map in
  match first_owner name index with
  | Some iso_code =>
      run log (Some iso_code) name (name ++ "-direct")%string in
      ret (Some iso_code)
  | None =>
      let choices := all_names index in
      run call (CallExtractOne name choices) in
      match extractOne name choices with
      | None => raise (TypeError "cannot unpack non-iterable NoneType object")
      | Some (best_match, score) =>
          match (if 80 <? score then first_owner best_match index else None) with
          | Some iso_code =>
              run log (Some iso_code) name (best_match ++ "-thefuzz")%string in
              ret (Some iso_code)
          | None =>
              run log None name "no match" in
              ret None
          end
      end
  end.

(** The set [all_names] compiled for one country, with [s.lower()] as
    [lower s] and [len(name) > 2] as [2 < len name]. *)
Definition names_of_with (country : country_record) : list string :=
  let all_names := [] in
  let all_names := set_add (lower (name_common country)) all_names in
  let all_names := set_add (lower (default ""%string (name_official country))) all_names in
  let all_names :=
    set_update (map lower (filter (fun name => (2 <? len name)%nat = true)
                             (altSpellings country))) all_names in
  let all_names :=
    set_update (map (fun t => lower (default ""%string (tr_common t)))
                  (translations country)) all_names in
  set_update (map (fun t => lower (default ""%string (tr_official t)))
                (translations country)) all_names.

(** [fetch_country_names_map] over [names_of_with]. *)
Definition fetch_country_names_map_with (country_info : list country_record) : M unit :=
  for_each country_info (fun country =>
    modify (fun st => set_country_names_map
                        (dict_set (cca2 country) (names_of_with country) (country_names_map st))
                        st)).

End AnyText.

(** ** Properties of the state along a method *)

(** What a method leaves true of the state, whether it returns or raises. *)
Definition preserves {A : Type} (P : AppStorePricing -> Prop) (m : M A) : Prop :=
  forall st, P st -> P (snd (m st)).

(** A property of the currency mapping alone. *)
Definition on_mapping (Q : gmap (option string) entry -> Prop) (st : AppStorePricing) : Prop :=
  Q (country_currency_mapping st).

(** The entry under key [k] is [e]. *)
Definition holds (k : option string) (e : entry) : AppStorePricing -> Prop :=
  on_mapping (fun m => m !! k = Some e).

(** Closes [within_context d] for a literal [d]. *)
Ltac in_context := split; [split; vm_compute; discriminate | reflexivity].

(** * Properties *)

(** ** The selection of the nearest candidate *)

Lemma min_from_In {A : Type} (key : A -> Decimal) (l : list A) (best : A) :
  In (min_from key best l) (best :: l).
Proof.
  revert best. induction l as [|x l IH]; intros best; simpl.
  - left. reflexivity.
  - destruct (Dec.ltb (key x) (key best)).
    + right. apply IH.
    + destruct (IH best) as [H|H]; [left; exact H | right; right; exact H].
Qed.

Lemma py_min_In {A : Type} (key : A -> Decimal) (l : list A) (r : A) :
  py_min key l = Some r -> In r l.
Proof.
  destruct l as [|x l]; simpl; intros H; [discriminate|].
  injection H as <-. apply min_from_In.
Qed.

Lemma py_min_total {A : Type} (key : A -> Decimal) (l : list A) :
  l <> [] -> exists r, py_min key l = Some r.
Proof. destruct l as [|x l]; [congruence|]. intros _. eexists. reflexivity. Qed.

Lemma candidates_nonempty (reference_price price : Decimal) :
  candidates reference_price price <> [].
Proof.
  unfold candidates.
  repeat match goal with
         | |- context [if ?b then _ else _] => destruct b
         end; discriminate.
Qed.

Lemma round_off_with_reference st iso2_code price reference_price :
  country_reference_rounded_prices st !! iso2_code = Some reference_price ->
  exists r, nearest price (candidates reference_price price) = Some r /\
            round_off_price_to_appstore_format iso2_code price st = (Ok r, st).
Proof.
  intros H.
  destruct (py_min_total (fun x => Dec.abs (Dec.sub x price))
              (candidates reference_price price) (candidates_nonempty _ _)) as [r Hr].
  exists r. split; [exact Hr|].
  unfold round_off_price_to_appstore_format, bind, get. rewrite H.
  unfold nearest. rewrite Hr. reflexivity.
Qed.

Lemma round_off_without_reference st iso2_code price :
  country_reference_rounded_prices st !! iso2_code = None ->
  round_off_price_to_appstore_format iso2_code price st
  = (Raise (ValueError ("No reference price found for " ++ iso2_code)%string), st).
Proof.
  intros H. unfold round_off_price_to_appstore_format, bind, get. rewrite H. reflexivity.
Qed.



(** C7. The call raises the "no reference price" error exactly when the
    code has no entry in the reference price table, and the object is left
    as it was; with an entry, a price in the range of exact arithmetic is
    rounded to the nearest candidate of that entry's own grid. *)
Theorem no_reference_price_error_iff
    (st : AppStorePricing) (iso2_code : string) (price : Decimal) :
  (fst (round_off_price_to_appstore_format iso2_code price st)
   = Raise (ValueError ("No reference price found for " ++ iso2_code)%string)
   <-> country_reference_rounded_prices st !! iso2_code = None) /\
  snd (round_off_price_to_appstore_format iso2_code price st) = st /\
  (within_context price ->
   forall reference_price,
     country_reference_rounded_prices st !! iso2_code = Some reference_price ->
     exists r, fst (round_off_price_to_appstore_format iso2_code price st) = Ok r /\
               nearest price (candidates reference_price price) = Some r).
Proof.
  destruct (country_reference_rounded_prices st !! iso2_code) as [ref|] eqn:E.
  - destruct (round_off_with_reference st iso2_code price ref E) as [r [Hr Hrun]].
    rewrite Hrun. simpl. repeat split.
    + discriminate.
    + discriminate.
    + intros _ ref' [= <-]. exists r. split; [reflexivity | exact Hr].
  - rewrite (round_off_without_reference st iso2_code price E). simpl. repeat split.
    intros _ ref' H. discriminate.
Qed.

(** C2. With reference price 0.99 the input 12.34 is rounded to 12.99;
    with reference price 98 the input 101 has the candidates 108 and 98
    and is rounded to 98, the nearer of the two. *)
Theorem snap_concrete_values (st : AppStorePricing) (code_a code_b : string) :
  country_reference_rounded_prices st !! code_a = Some (dfrac 99 2) ->
  country_reference_rounded_prices st !! code_b = Some (Dec.of_Z 98) ->
  round_off_price_to_appstore_format code_a (dfrac 1234 2) st = (Ok (dfrac 1299 2), st) /\
  candidates (Dec.of_Z 98) (Dec.of_Z 101) = [Dec.of_Z 108; Dec.of_Z 98] /\
  Dec.abs (Dec.sub (Dec.of_Z 98) (Dec.of_Z 101)) = Dec.of_Z 3 /\
  Dec.abs (Dec.sub (Dec.of_Z 108) (Dec.of_Z 101)) = Dec.of_Z 7 /\
  round_off_price_to_appstore_format code_b (Dec.of_Z 101) st = (Ok (Dec.of_Z 98), st).
Proof.
  intros Ha Hb.
  destruct (round_off_with_reference st code_a (dfrac 1234 2) _ Ha) as [ra [Hra Hrun_a]].
  destruct (round_off_with_reference st code_b (Dec.of_Z 101) _ Hb) as [rb [Hrb Hrun_b]].
  vm_compute in Hra. injection Hra as <-.
  vm_compute in Hrb. injection Hrb as <-.
  repeat split; [exact Hrun_a | exact Hrun_b].
Qed.

Lemma snap_concrete_values_witness :
  round_off_price_to_appstore_format "FR" (dfrac 1234 2) (state_of small_index small_prices)
  = (Ok (dfrac 1299 2), state_of small_index small_prices) /\
  candidates (Dec.of_Z 98) (Dec.of_Z 101) = [Dec.of_Z 108; Dec.of_Z 98] /\
  Dec.abs (Dec.sub (Dec.of_Z 98) (Dec.of_Z 101)) = Dec.of_Z 3 /\
  Dec.abs (Dec.sub (Dec.of_Z 108) (Dec.of_Z 101)) = Dec.of_Z 7 /\
  round_off_price_to_appstore_format "VN" (Dec.of_Z 101) (state_of small_index small_prices)
  = (Ok (Dec.of_Z 98), state_of small_index small_prices).
Proof.
  apply (snap_concrete_values (state_of small_index small_prices) "FR" "VN");
    vm_compute; reflexivity.
Defined.

(** ** The localizer *)

(** C8. When the report currency stored for the code equals the source
    currency, or the code has no entry in the currency mapping, the call
    returns the source currency with the amount unchanged and leaves the
    whole state, the record of external calls included, as it was: the
    converter is not called. *)
Theorem currency_pass_through
    (Amount : Type) (cc_convert : Amount -> string -> string -> option Amount)
    (remote_convert : Amount -> string -> string -> result Amount)
    (st : AppStorePricing) (code : string) (price : Amount) (currency : string) :
  (forall e, country_currency_mapping st !! Some code = Some e -> report_currency e = currency) ->
  local_currency_to_appstore_preferred_currency Amount cc_convert remote_convert
    code price currency st = (Ok (currency, price), st) /\
  ext_calls (snd (local_currency_to_appstore_preferred_currency Amount cc_convert
                    remote_convert code price currency st)) = ext_calls st.
Proof.
  intros H.
  assert (E : local_currency_to_appstore_preferred_currency Amount cc_convert remote_convert
                code price currency st = (Ok (currency, price), st)).
  { unfold local_currency_to_appstore_preferred_currency, bind, get.
    destruct (country_currency_mapping st !! Some code) as [e|] eqn:E.
    - rewrite (H e eq_refl). rewrite String.eqb_refl. reflexivity.
    - rewrite String.eqb_refl. reflexivity. }
  rewrite E. split; reflexivity.
Qed.

Lemma currency_pass_through_witness :
  local_currency_to_appstore_preferred_currency Z (fun _ _ _ => None) (fun a _ _ => Ok a)
    "US" 499 "USD" us_state = (Ok ("USD"%string, 499), us_state) /\
  ext_calls (snd (local_currency_to_appstore_preferred_currency Z (fun _ _ _ => None)
                    (fun a _ _ => Ok a) "US" 499 "USD" us_state)) = ext_calls us_state.
Proof.
  apply (currency_pass_through Z (fun _ _ _ => None) (fun a _ _ => Ok a) us_state
           "US" 499 "USD").
  intros e. vm_compute. intros [= <-]. reflexivity.
Defined.

(** ** The resolver *)

Lemma lower_ascii_idempotent (c : ascii) :
  Str.lower_ascii (Str.lower_ascii c) = Str.lower_ascii c.
Proof.
  destruct c as [[] [] [] [] [] [] [] []]; vm_compute; reflexivity.
Qed.

Lemma lower_idempotent (s : string) : Str.lower (Str.lower s) = Str.lower s.
Proof.
  induction s as [|c s IH]; simpl; [reflexivity|].
  rewrite lower_ascii_idempotent, IH. reflexivity.
Qed.

Lemma first_owner_Some (name : string) (index : list (string * list string)) iso_code :
  first_owner name index = Some iso_code ->
  exists names, (iso_code, names) ∈ index /\ name ∈ names.
Proof.
  induction index as [|[c ns] index IH]; simpl; [discriminate|].
  destruct (bool_decide (name ∈ ns)) eqn:E.
  - intros [= <-]. exists ns. split; [left | apply bool_decide_eq_true_1 in E; exact E].
  - intros H. destruct (IH H) as [names [Hin Hn]].
    exists names. split; [right; exact Hin | exact Hn].
Qed.

Lemma first_owner_is_Some (name : string) (index : list (string * list string))
    iso_code names :
  (iso_code, names) ∈ index -> name ∈ names -> is_Some (first_owner name index).
Proof.
  induction index as [|[c ns] index IH]; simpl; intros Hin Hn.
  - inversion Hin.
  - destruct (bool_decide (name ∈ ns)) eqn:E; [eexists; reflexivity|].
    apply IH; [|exact Hn].
    inversion Hin as [? ? Heq | ? ? ? Htl]; subst; [|exact Htl].
    apply bool_decide_eq_false_1 in E. contradiction.
Qed.

Lemma elem_of_all_names (name : string) (index : list (string * list string)) :
  name ∈ all_names index -> exists iso_code names, (iso_code, names) ∈ index /\ name ∈ names.
Proof.
  unfold all_names. intros H. apply list_elem_of_In, in_flat_map in H.
  destruct H as [[c ns] [Hin Hn]]. exists c, ns.
  split; apply list_elem_of_In; assumption.
Qed.

Lemma resolve_direct extractOne st name iso_code :
  first_owner (Str.lower name) (country_names_map st) = Some iso_code ->
  get_country_iso_code extractOne name st
  = (Ok (Some iso_code),
     logged (Some iso_code) (Str.lower name) (Str.lower name ++ "-direct")%string st).
Proof.
  intros H. unfold get_country_iso_code, bind, get. rewrite H. reflexivity.
Qed.

Lemma resolve_fuzzy extractOne st name best_match score :
  first_owner (Str.lower name) (country_names_map st) = None ->
  extractOne (Str.lower name) (all_names (country_names_map st)) = Some (best_match, score) ->
  let st' := snd (call (CallExtractOne (Str.lower name) (all_names (country_names_map st))) st) in
  get_country_iso_code extractOne name st
  = match (if 80 <? score then first_owner best_match (country_names_map st) else None) with
    | Some iso_code =>
        (Ok (Some iso_code),
         logged (Some iso_code) (Str.lower name) (best_match ++ "-thefuzz")%string st')
    | None => (Ok None, logged None (Str.lower name) "no match" st')
    end.
Proof.
  intros H E. unfold get_country_iso_code, bind, get. rewrite H. simpl. rewrite E.
  destruct (if 80 <? score then first_owner best_match (country_names_map st) else None);
    reflexivity.
Qed.

Lemma get_country_iso_code_lower
    (extractOne : string -> list string -> option (string * Z)) (name : string) :
  get_country_iso_code extractOne name = get_country_iso_code_with Str.lower extractOne name.
Proof. reflexivity. Qed.

Lemma resolve_direct_with (lower : string -> string)
    (extractOne : string -> list string -> option (string * Z))
    (st : AppStorePricing) (name iso_code : string) :
  first_owner (lower name) (country_names_map st) = Some iso_code ->
  get_country_iso_code_with lower extractOne name st
  = (Ok (Some iso_code),
     logged (Some iso_code) (lower name) (lower name ++ "-direct")%string st).
Proof.
  intros H. unfold get_country_iso_code_with, bind, get. rewrite H. reflexivity.
Qed.

(** C6, as the code has it. When the lower-cased input, with its white
    space as it came, is a member of the name set of some code, the call
    returns the first such code of the index with the "-direct" strategy
    logged, whatever the fuzzy extractor is, and records no external call:
    the fuzzy pass is not evaluated.  The lower-casing is any function, so
    the statement covers [str.lower] on any text; [get_country_iso_code] is
    the case of [Str.lower]. *)
Theorem exact_match_priority
    (lower : string -> string)
    (extractOne : string -> list string -> option (string * Z))
    (st : AppStorePricing) (name iso_code : string) (names : list string) :
  (iso_code, names) ∈ country_names_map st ->
  lower name ∈ names ->
  exists iso_code' names',
    (iso_code', names') ∈ country_names_map st /\
    lower name ∈ names' /\
    first_owner (lower name) (country_names_map st) = Some iso_code' /\
    get_country_iso_code_with lower extractOne name st
    = (Ok (Some iso_code'),
       logged (Some iso_code') (lower name) (lower name ++ "-direct")%string st) /\
    ext_calls (snd (get_country_iso_code_with lower extractOne name st)) = ext_calls st.
Proof.
  intros Hin Hn.
  destruct (first_owner_is_Some _ _ _ _ Hin Hn) as [c Hc].
  destruct (first_owner_Some _ _ _ Hc) as [ns [Hin' Hn']].
  exists c, ns. repeat split; try assumption.
  - apply resolve_direct_with, Hc.
  - rewrite (resolve_direct_with lower extractOne st name c Hc). unfold logged, log, modify.
    simpl. destruct (dup_check st !! Some c); reflexivity.
Qed.

Lemma exact_match_priority_witness :
  exists iso_code' names',
    (iso_code', names') ∈ country_names_map (state_of small_index small_prices) /\
    Str.lower "Viet Nam" ∈ names' /\
    first_owner (Str.lower "Viet Nam")
      (country_names_map (state_of small_index small_prices)) = Some iso_code' /\
    get_country_iso_code (fixed_score_extractor 100) "Viet Nam"
      (state_of small_index small_prices)
    = (Ok (Some iso_code'),
       logged (Some iso_code') (Str.lower "Viet Nam") (Str.lower "Viet Nam" ++ "-direct")%string
         (state_of small_index small_prices)) /\
    ext_calls (snd (get_country_iso_code (fixed_score_extractor 100) "Viet Nam"
                      (state_of small_index small_prices)))
    = ext_calls (state_of small_index small_prices).
Proof.
  apply (exact_match_priority Str.lower (fixed_score_extractor 100)
           (state_of small_index small_prices) "Viet Nam" "VN"
           ["vietnam"; "viet nam"]%string).
  - vm_compute. right. left.
  - vm_compute. right. left.
Defined.

(** C6, as stated, fails on an input that needs trimming.  The lower-cased
    and trimmed form of "  France " is "france", a name of the set of FR,
    but the resolver does not trim: the exact pass looks for "  france ",
    misses, and the extractor is called.  The answer is then the
    extractor's: FR with the "-thefuzz" strategy logged when it scores 100,
    unresolved when it scores 0. *)
Lemma exact_pass_misses_untrimmed_name :
  Str.strip (Str.lower "  France ") = "france"%string /\
  ("FR"%string, ["france"; "french republic"]%string)
    ∈ country_names_map (state_of small_index small_prices) /\
  "france"%string ∈ ["france"; "french republic"]%string /\
  get_country_iso_code (fixed_score_extractor 100) "  France "
    (state_of small_index small_prices)
  = (Ok (Some "FR"%string),
     logged (Some "FR"%string) "  france " "france-thefuzz"
       (snd (call (CallExtractOne "  france " (all_names small_index))
               (state_of small_index small_prices)))) /\
  ext_calls (snd (get_country_iso_code (fixed_score_extractor 100) "  France "
                    (state_of small_index small_prices)))
  = [CallExtractOne "  france "
       ["france"; "french republic"; "vietnam"; "viet nam"]%string] /\
  fst (get_country_iso_code (fixed_score_extractor 0) "  France "
         (state_of small_index small_prices)) = Ok None.
Proof.
  repeat split; try (vm_compute; reflexivity).
  - left.
  - left.
Qed.

(** C5. When the exact pass finds nothing and the extractor's best
    candidate is a name of the index, a score of exactly 80 yields the
    unresolved result with "no match" logged, and any score above 80 yields
    the first code that owns the candidate. *)
Theorem threshold_boundary
    (extractOne : string -> list string -> option (string * Z))
    (st : AppStorePricing) (name best_match : string) (score : Z) :
  first_owner (Str.lower name) (country_names_map st) = None ->
  extractOne (Str.lower name) (all_names (country_names_map st)) = Some (best_match, score) ->
  best_match ∈ all_names (country_names_map st) ->
  (score = 80 ->
   fst (get_country_iso_code extractOne name st) = Ok None /\
   snd (get_country_iso_code extractOne name st)
   = logged None (Str.lower name) "no match"
       (snd (call (CallExtractOne (Str.lower name) (all_names (country_names_map st))) st))) /\
  (80 < score ->
   exists iso_code names,
     (iso_code, names) ∈ country_names_map st /\ best_match ∈ names /\
     first_owner best_match (country_names_map st) = Some iso_code /\
     fst (get_country_iso_code extractOne name st) = Ok (Some iso_code)).
Proof.
  intros Hexact Hbest Hmem.
  pose proof (resolve_fuzzy extractOne st name best_match score Hexact Hbest) as Hrun.
  cbv zeta in Hrun. split.
  - intros ->. rewrite Hrun. simpl. split; reflexivity.
  - intros Hgt.
    destruct (elem_of_all_names _ _ Hmem) as [c [ns [Hin Hn]]].
    destruct (first_owner_is_Some _ _ _ _ Hin Hn) as [c' Hc'].
    destruct (first_owner_Some _ _ _ Hc') as [ns' [Hin' Hn']].
    exists c', ns'. repeat split; try assumption.
    rewrite Hrun. apply Z.ltb_lt in Hgt. rewrite Hgt, Hc'. reflexivity.
Qed.

Lemma threshold_boundary_witness :
  fst (get_country_iso_code (fixed_score_extractor 80) "Frankreich"
         (state_of small_index small_prices)) = Ok None /\
  fst (get_country_iso_code (fixed_score_extractor 81) "Frankreich"
         (state_of small_index small_prices)) = Ok (Some "FR"%string).
Proof.
  split.
  - refine (proj1 (proj1 (threshold_boundary (fixed_score_extractor 80)
                            (state_of small_index small_prices) "Frankreich" "france" 80
                            _ _ _) eq_refl)).
    + vm_compute. reflexivity.
    + vm_compute. reflexivity.
    + vm_compute. left.
  - destruct (proj2 (threshold_boundary (fixed_score_extractor 81)
                       (state_of small_index small_prices) "Frankreich" "france" 81
                       eq_refl eq_refl (list_elem_of_here _ _)) eq_refl)
      as [c [ns [_ [_ [Hc Hrun]]]]].
    vm_compute in Hc. injection Hc as <-. exact Hrun.
Defined.

(** C4, as the code has it. The resolver lower-cases its input and does
    nothing else to it: the call on a name and the call on its lower-cased
    form return the same result and the same state. *)
Theorem resolution_ignores_case
    (extractOne : string -> list string -> option (string * Z))
    (st : AppStorePricing) (name : string) :
  get_country_iso_code extractOne (Str.lower name) st = get_country_iso_code extractOne name st.
Proof.
  unfold get_country_iso_code. rewrite lower_idempotent. reflexivity.
Qed.

(** C4, as stated, fails: white space around the input is kept.  With the
    empty name in a name set (the index builder adds it for a missing
    official name) the input of two blanks misses the exact pass and ends
    unresolved on a fuzzy score of 0, while its trimmed form resolves
    directly. *)
Lemma resolution_does_not_trim :
  Str.strip "  " = ""%string /\
  fst (get_country_iso_code (fixed_score_extractor 0) "  "
         aq_state) = Ok None /\
  fst (get_country_iso_code (fixed_score_extractor 0) (Str.strip "  ")
         aq_state) = Ok (Some "AQ"%string) /\
  fst (get_country_iso_code (fixed_score_extractor 0) "  "
         aq_state)
  <> fst (get_country_iso_code (fixed_score_extractor 0) (Str.strip "  ")
            aq_state).
Proof.
  repeat split; try (vm_compute; reflexivity).
  vm_compute. discriminate.
Qed.

(** ** The currency-table load *)

Lemma preserves_ret {A : Type} P (a : A) : preserves P (ret a).
Proof. intros st H. exact H. Qed.

Lemma preserves_raise {A : Type} P (e : exn) : preserves P (@raise A e).
Proof. intros st H. exact H. Qed.

Lemma preserves_get {A : Type} P (f : AppStorePricing -> A) : preserves P (get f).
Proof. intros st H. exact H. Qed.

Lemma preserves_bind {A B : Type} P (m : M A) (k : A -> M B) :
  preserves P m -> (forall a, preserves P (k a)) -> preserves P (bind m k).
Proof.
  intros Hm Hk st H. unfold bind. specialize (Hm st H).
  destruct (m st) as [[a|e] st']; simpl in *; [apply Hk, Hm | exact Hm].
Qed.

Lemma preserves_modify P (f : AppStorePricing -> AppStorePricing) :
  (forall st, P st -> P (f st)) -> preserves P (modify f).
Proof. intros Hf st H. apply Hf, H. Qed.

Lemma preserves_for_each {A : Type} P (l : list A) (body : A -> M unit) :
  (forall x, In x l -> preserves P (body x)) -> preserves P (for_each l body).
Proof.
  induction l as [|x l IH]; intros Hbody; simpl.
  - apply preserves_ret.
  - apply preserves_bind.
    + apply Hbody. left. reflexivity.
    + intros _. apply IH. intros y Hy. apply Hbody. right. exact Hy.
Qed.

Lemma log_preserves_mapping Q iso_code name match_ :
  preserves (on_mapping Q) (log iso_code name match_).
Proof.
  apply preserves_modify. intros st H. unfold on_mapping in *.
  destruct (dup_check st !! iso_code); exact H.
Qed.

Lemma print_preserves_mapping Q line : preserves (on_mapping Q) (print line).
Proof. apply preserves_modify. intros st H. exact H. Qed.

Lemma call_preserves_mapping Q c : preserves (on_mapping Q) (call c).
Proof. apply preserves_modify. intros st H. exact H. Qed.

Lemma resolver_preserves_mapping extractOne Q name :
  preserves (on_mapping Q) (get_country_iso_code extractOne name).
Proof.
  unfold get_country_iso_code.
  apply preserves_bind; [apply preserves_get|]. intros index.
  destruct (first_owner (Str.lower name) index).
  - apply preserves_bind; [apply log_preserves_mapping | intros; apply preserves_ret].
  - apply preserves_bind; [apply call_preserves_mapping|]. intros _.
    destruct (extractOne _ _) as [[best score]|]; [|apply preserves_raise].
    destruct (if 80 <? score then first_owner best index else None);
      (apply preserves_bind; [apply log_preserves_mapping | intros; apply preserves_ret]).
Qed.

(** One country of an aggregate row never replaces an entry. *)
Lemma process_country_aggregate_keeps extractOne (item : row) (c : string) k e :
  is_aggregate (row_region_code item) = true ->
  preserves (holds k e) (process_country extractOne item c).
Proof.
  intros Hagg. unfold process_country.
  apply preserves_bind; [apply resolver_preserves_mapping|]. intros iso_code.
  apply preserves_bind.
  { destruct (negb (truthy iso_code)); [apply print_preserves_mapping | apply preserves_ret]. }
  intros _. intros st H. unfold bind, get. rewrite Hagg, andb_true_r.
  destruct (bool_decide (is_Some (country_currency_mapping st !! iso_code))) eqn:E.
  - exact H.
  - apply bool_decide_eq_false_1 in E.
    unfold holds, on_mapping in *. simpl.
    rewrite lookup_insert_ne; [exact H|].
    intros ->. apply E. rewrite H. eexists. reflexivity.
Qed.

(** An aggregate row never replaces the entry of a key other than the
    aggregate region codes themselves. *)
Lemma process_item_aggregate_keeps extractOne (item : row) (code : string) e :
  is_aggregate (row_region_code item) = true ->
  is_aggregate code = false ->
  preserves (holds (Some code) e) (process_item extractOne item).
Proof.
  intros Hagg Hcode. unfold process_item.
  destruct (is_placeholder (row_region_code item)); [apply preserves_ret|].
  destruct (Str.contains_comma (row_countries item)).
  - apply preserves_for_each. intros c _. apply process_country_aggregate_keeps, Hagg.
  - apply preserves_modify. intros st H. unfold holds, on_mapping in *. simpl.
    rewrite lookup_insert_ne; [exact H|].
    intros [= Heq]. rewrite Heq in Hagg. congruence.
Qed.

Lemma for_each_app {A : Type} (l1 l2 : list A) (body : A -> M unit) st :
  for_each (l1 ++ l2) body st
  = match for_each l1 body st with
    | (Ok _, st') => for_each l2 body st'
    | (Raise e, st') => (Raise e, st')
    end.
Proof.
  revert st. induction l1 as [|x l1 IH]; intros st; simpl; [reflexivity|].
  unfold bind. destruct (body x st) as [[[]|e] st']; [apply IH | reflexivity].
Qed.

(** C9. Once the load has left an entry under a country code, the
    aggregate rows (EU, LL, WW) that follow, however many, leave that
    entry as it is; the country code is not itself one of the aggregate
    region codes. *)
Theorem aggregate_rows_never_overwrite
    (extractOne : string -> list string -> option (string * Z))
    (st : AppStorePricing) (data later : list row) (code : string) (e : entry) :
  country_currency_mapping
    (snd (fetch_appstore_country_currency_mapping extractOne data st)) !! Some code = Some e ->
  Forall (fun item => is_aggregate (row_region_code item) = true) later ->
  is_aggregate code = false ->
  country_currency_mapping
    (snd (fetch_appstore_country_currency_mapping extractOne (data ++ later) st)) !! Some code
  = Some e.
Proof.
  intros H Hlater Hcode.
  unfold fetch_appstore_country_currency_mapping, bind in *.
  destruct (print _ st) as [[[]|x] st1]; [|exact H].
  destruct (modify _ st1) as [[[]|x] st2]; [|exact H].
  rewrite for_each_app.
  destruct (for_each data (process_item extractOne) st2) as [[[]|x] st3]; [|exact H].
  simpl in H.
  apply (preserves_for_each (holds (Some code) e) later (process_item extractOne)); [|exact H].
  intros item Hin. apply process_item_aggregate_keeps; [|exact Hcode].
  rewrite Forall_forall in Hlater. apply Hlater, list_elem_of_In, Hin.
Qed.

Lemma aggregate_rows_never_overwrite_witness :
  country_currency_mapping
    (snd (fetch_appstore_country_currency_mapping (fixed_score_extractor 0)
            ([vn_row] ++ [ww_row_vn]) (state_of small_index small_prices))) !! Some "VN"%string
  = Some (mkEntry "Vietnam" "VND" (Some "VN"%string) "Vietnam").
Proof.
  apply (aggregate_rows_never_overwrite (fixed_score_extractor 0)
           (state_of small_index small_prices) [vn_row] [ww_row_vn] "VN").
  - vm_compute. reflexivity.
  - repeat constructor.
  - vm_compute. reflexivity.
Defined.

(** After the warning for an unresolved country the inner loop goes on to
    the insertion: the row is stored under the key [None], unless that key
    is already taken and the row is an aggregate one. *)
Lemma process_country_unresolved_inserts extractOne (item : row) (c : string) st st' :
  get_country_iso_code extractOne c st = (Ok None, st') ->
  country_currency_mapping st' !! None = None \/ is_aggregate (row_region_code item) = false ->
  let st'' := snd (process_country extractOne item c st) in
  country_currency_mapping st'' !! None
  = Some (mkEntry (row_report_region item) (row_report_currency item) None c) /\
  stdout st'' = stdout st' ++ [(c ++ " has no iso code!")%string].
Proof.
  intros Hres Hfree. unfold process_country, bind. rewrite Hres. simpl.
  assert (Hguard : bool_decide (is_Some (country_currency_mapping st' !! None))
                   && is_aggregate (row_region_code item) = false).
  { destruct Hfree as [Hnone | Hagg].
    - rewrite Hnone. reflexivity.
    - rewrite Hagg. apply andb_false_r. }
  rewrite Hguard. simpl. split; [apply lookup_insert_eq | reflexivity].
Qed.

(** The reference-price load, in contrast, drops an unresolved row: the
    table is left as it was and only the warning is printed. *)
Lemma load_reference_prices_drops_unresolved extractOne (name : string) (price : Decimal) st st' :
  get_country_iso_code extractOne name st = (Ok None, st') ->
  load_reference_prices extractOne [(name, price)] st
  = (Ok tt, set_stdout (stdout st' ++ [("No ISO code found for " ++ name)%string]) st').
Proof.
  intros Hres. unfold load_reference_prices. simpl. unfold bind. rewrite Hres. reflexivity.
Qed.

(** C3, on the code. The aggregate row "Atlantis, France" is loaded into an
    object whose index does not know Atlantis: the warning is printed, and
    the row is stored all the same, under the key [None]. *)
Theorem unresolved_country_is_stored_under_none :
  country_currency_mapping
    (snd (fetch_appstore_country_currency_mapping (fixed_score_extractor 0) [ww_row]
            (state_of small_index ∅))) !! None
  = Some (mkEntry "Rest of World" "USD" None "Atlantis") /\
  stdout (snd (fetch_appstore_country_currency_mapping (fixed_score_extractor 0) [ww_row]
                 (state_of small_index ∅)))
  = ["Fetching appstore countries and regions information ...";
     "Atlantis has no iso code!"]%string /\
  country_reference_rounded_prices
    (snd (load_reference_prices (fixed_score_extractor 0) [("Atlantis"%string, dfrac 99 2)]
            (state_of small_index ∅))) = ∅.
Proof.
  repeat split; vm_compute; reflexivity.
Qed.


(** ** Idempotence of the rounding *)

Lemma candidates_by_grid (reference_price price : Decimal) :
  candidates reference_price price = grid_candidates (classify reference_price) price.
Proof.
  unfold candidates, classify, decade_of.
  repeat match goal with
         | |- context [if ?b then _ else _] => destruct b
         end; reflexivity.
Qed.

(** *** Integer arithmetic behind the decimal operations *)

Lemma round_half_even_low (m q r : Z) :
  0 <= r -> 2 * r < m -> Dec.round_half_even (m * q + r) m = q.
Proof.
  intros Hr Hm. unfold Dec.round_half_even.
  assert (Hq : (m * q + r) / m = q) by (symmetry; apply (Z.div_unique _ _ q r); lia).
  assert (Hmod : (m * q + r) mod m = r) by (symmetry; apply (Z.mod_unique _ _ q r); lia).
  rewrite Hq, Hmod.
  destruct (Z.compare_spec (2 * r) m); [lia | reflexivity | lia].
Qed.

Lemma round_half_even_high (m q r : Z) :
  r < m -> m < 2 * r -> Dec.round_half_even (m * q + r) m = q + 1.
Proof.
  intros Hr Hm. unfold Dec.round_half_even.
  assert (Hq : (m * q + r) / m = q) by (symmetry; apply (Z.div_unique _ _ q r); lia).
  assert (Hmod : (m * q + r) mod m = r) by (symmetry; apply (Z.mod_unique _ _ q r); lia).
  rewrite Hq, Hmod.
  destruct (Z.compare_spec (2 * r) m); [lia | lia | reflexivity].
Qed.

Lemma round_half_even_nonneg (c m : Z) :
  0 <= c -> 0 < m -> 0 <= Dec.round_half_even c m.
Proof.
  intros Hc Hm. unfold Dec.round_half_even.
  pose proof (Z.div_pos c m Hc Hm) as Hq.
  destruct (2 * (c mod m) ?= m); [destruct (Z.even (c / m))| |]; lia.
Qed.

(** The remainder of the source's [%] by ten, by the sign of the
    dividend. *)
Lemma rem10_nonneg (q r : Z) :
  0 <= q -> 0 <= r < 10 -> Z.rem (10 * q + r) 10 = r.
Proof.
  intros Hq Hr. symmetry. apply (Z.rem_unique _ _ q r); lia.
Qed.

Lemma rem10_neg (q r : Z) :
  q < 0 -> 0 < r < 10 -> Z.rem (10 * q + r) 10 = r - 10.
Proof.
  intros Hq Hr.
  replace (10 * q + r) with (- (10 * (- q - 1) + (10 - r))) by lia.
  rewrite Z.rem_opp_l by lia.
  rewrite (rem10_nonneg (- q - 1) (10 - r)) by lia. lia.
Qed.

Lemma rem10_multiple (q : Z) : Z.rem (10 * q) 10 = 0.
Proof. rewrite Z.mul_comm. apply Z.rem_mul. lia. Qed.

(** [n - n % 10] is a multiple of ten, of the sign of [n]. *)
Lemma decade_multiple (n : Z) :
  exists q, n - Z.rem n 10 = 10 * q /\ (0 <= n -> 0 <= q).
Proof.
  exists (Z.quot n 10). split.
  - pose proof (Z.quot_rem' n 10). lia.
  - intros Hn. apply Z.quot_pos; lia.
Qed.

(** *** The decimal operations on explicit coefficients *)

Lemma to_integral_value_expo (a : Decimal) : 0 <= expo (Dec.to_integral_value a).
Proof.
  unfold Dec.to_integral_value. destruct (0 <=? expo a) eqn:E; simpl; [|lia].
  apply Z.leb_le, E.
Qed.

Lemma to_integral_value_frac (N k : Z) :
  0 < k ->
  Dec.to_integral_value (mkDecimal N (- k)) = mkDecimal (Dec.round_half_even N (10 ^ k)) 0.
Proof.
  intros Hk. unfold Dec.to_integral_value. simpl expo. simpl coef.
  destruct (0 <=? - k) eqn:E; [apply Z.leb_le in E; lia|].
  rewrite Z.opp_involutive. reflexivity.
Qed.

Lemma ival_int (N : Z) : ival (mkDecimal N 0) = N.
Proof. unfold ival. simpl. lia. Qed.

Lemma add_int (a : Decimal) (k : Z) :
  0 <= expo a -> Dec.add a (Dec.of_Z k) = mkDecimal (ival a + k) 0.
Proof.
  intros He. unfold Dec.add, Dec.align, Dec.of_Z, ival. simpl expo. simpl coef.
  rewrite Z.min_r by lia. rewrite Z.sub_0_r. simpl (10 ^ (0 - 0)). rewrite Z.mul_1_r.
  reflexivity.
Qed.

Lemma sub_int (a : Decimal) (k : Z) :
  0 <= expo a -> Dec.sub a (Dec.of_Z k) = mkDecimal (ival a - k) 0.
Proof.
  intros He. unfold Dec.sub, Dec.opp, Dec.add, Dec.align, Dec.of_Z, ival.
  simpl expo. simpl coef.
  rewrite Z.min_r by lia. rewrite Z.sub_0_r. simpl (10 ^ (0 - 0)). rewrite Z.mul_1_r.
  reflexivity.
Qed.

Lemma mul_int (a : Decimal) (k : Z) :
  0 <= expo (Dec.mul a (Dec.of_Z k)) <-> 0 <= expo a.
Proof. unfold Dec.mul, Dec.of_Z. simpl. lia. Qed.

Lemma ival_mul (a : Decimal) (k : Z) : ival (Dec.mul a (Dec.of_Z k)) = k * ival a.
Proof. unfold ival, Dec.mul, Dec.of_Z. simpl. rewrite Z.add_0_r. lia. Qed.

Lemma rem_int (a : Decimal) :
  0 <= expo a -> Dec.rem a d10 = mkDecimal (Z.rem (ival a) 10) 0.
Proof.
  intros He. unfold Dec.rem, Dec.align, d10, Dec.of_Z, ival. simpl expo. simpl coef.
  rewrite Z.min_r by lia. rewrite Z.sub_0_r. reflexivity.
Qed.

Lemma sub_ints (a : Decimal) (N : Z) :
  0 <= expo a -> Dec.sub a (mkDecimal N 0) = mkDecimal (ival a - N) 0.
Proof. intros He. apply (sub_int a N He). Qed.

Lemma add_frac (D c k : Z) :
  0 < k -> Dec.add (mkDecimal D 0) (dfrac c k) = mkDecimal (D * 10 ^ k + c) (- k).
Proof.
  intros Hk. unfold Dec.add, Dec.align, dfrac. simpl expo. simpl coef.
  rewrite Z.min_r by lia.
  replace (0 - - k) with k by lia. rewrite Z.sub_diag. simpl (10 ^ 0). rewrite Z.mul_1_r.
  reflexivity.
Qed.

Lemma sub_frac (D c k : Z) :
  0 < k -> Dec.sub (mkDecimal D 0) (dfrac c k) = mkDecimal (D * 10 ^ k - c) (- k).
Proof.
  intros Hk. unfold Dec.sub, Dec.opp, Dec.add, Dec.align, dfrac. simpl expo. simpl coef.
  rewrite Z.min_r by lia.
  replace (0 - - k) with k by lia. rewrite Z.sub_diag. simpl (10 ^ 0). rewrite Z.mul_1_r.
  f_equal; lia.
Qed.

Lemma decade_of_int (price : Decimal) :
  decade_of price
  = mkDecimal (ival (Dec.to_integral_value price)
               - Z.rem (ival (Dec.to_integral_value price)) 10) 0.
Proof.
  unfold decade_of. pose proof (to_integral_value_expo price) as He.
  rewrite (rem_int _ He). apply sub_ints, He.
Qed.

(** Division by ten of a coefficient that does not end in zero. *)
Lemma div_pow10_1 (N : Z) :
  N mod 10 <> 0 -> Dec.div_pow10 (mkDecimal N 0) 1 = mkDecimal N (- 1).
Proof.
  intros H. simpl. destruct (N mod 10 =? 0) eqn:E; [apply Z.eqb_eq in E; contradiction|].
  reflexivity.
Qed.

Lemma div_pow10_2 (N : Z) :
  N mod 10 <> 0 -> Dec.div_pow10 (mkDecimal N 0) 2 = mkDecimal N (- 2).
Proof.
  intros H. change (Dec.div_pow10 (mkDecimal N 0) 2)
    with (let q := Dec.div_pow10 (mkDecimal N 0) 1 in
          if coef q mod 10 =? 0 then mkDecimal (coef q / 10) (expo q)
          else mkDecimal (coef q) (expo q - 1)).
  rewrite (div_pow10_1 N H). cbv zeta. simpl coef. simpl expo.
  destruct (N mod 10 =? 0) eqn:E; [apply Z.eqb_eq in E; contradiction|].
  reflexivity.
Qed.

(** *** The distance to the price, between decimals of one exponent *)

Lemma distance_same_expo (N M e : Z) :
  Dec.abs (Dec.sub (mkDecimal N e) (mkDecimal M e)) = mkDecimal (Z.abs (N - M)) e.
Proof.
  unfold Dec.abs, Dec.sub, Dec.opp, Dec.add, Dec.align. simpl expo. simpl coef.
  rewrite Z.min_id, Z.sub_diag. simpl (10 ^ 0). rewrite !Z.mul_1_r.
  simpl. f_equal.
Qed.

Lemma ltb_same_expo (A B e : Z) : Dec.ltb (mkDecimal A e) (mkDecimal B e) = (A <? B).
Proof.
  unfold Dec.ltb, Dec.align. simpl expo. simpl coef.
  rewrite Z.min_id, Z.sub_diag. simpl (10 ^ 0). rewrite !Z.mul_1_r. reflexivity.
Qed.

Lemma nearest_single (price c : Decimal) : nearest price [c] = Some c.
Proof. reflexivity. Qed.

Lemma nearest_pair_first (N N1 N2 e : Z) :
  N1 = N -> nearest (mkDecimal N e) [mkDecimal N1 e; mkDecimal N2 e] = Some (mkDecimal N e).
Proof.
  intros ->. unfold nearest, py_min, min_from.
  rewrite !distance_same_expo, ltb_same_expo.
  destruct (Z.abs (N2 - N) <? Z.abs (N - N)) eqn:E; [|reflexivity].
  apply Z.ltb_lt in E. lia.
Qed.

Lemma nearest_pair_second (N N1 N2 e : Z) :
  N2 = N -> N1 <> N ->
  nearest (mkDecimal N e) [mkDecimal N1 e; mkDecimal N2 e] = Some (mkDecimal N e).
Proof.
  intros -> Hne. unfold nearest, py_min, min_from.
  rewrite !distance_same_expo, ltb_same_expo.
  destruct (Z.abs (N - N) <? Z.abs (N1 - N)) eqn:E; [reflexivity|].
  apply Z.ltb_ge in E. lia.
Qed.

(** *** The candidates of a grid in explicit form *)

Lemma grid_candidates_explicit (g : grid) (price : Decimal) :
  let m1 := ival (Dec.to_integral_value (Dec.div_pow10 price 1)) in
  let m2 := ival (Dec.to_integral_value (Dec.div_pow10 price 2)) in
  let n := ival (Dec.to_integral_value price) in
  let d := n - Z.rem n 10 in
  grid_candidates g price
  = match g with
    | DecadePlusEight => [mkDecimal (10 * m1 + 8) 0; mkDecimal (10 * m1 - 2) 0]
    | HundredPlus99 => [mkDecimal (100 * m2 + 99) 0; mkDecimal (100 * m2 - 1) 0]
    | BareDecade => [Dec.mul (Dec.to_integral_value (Dec.div_pow10 price 1)) d10]
    | Suffix499 => [mkDecimal (d * 100 + 499) (- 2)]
    | Suffix49 => [mkDecimal (d * 10 + 49) (- 1)]
    | Suffix998 => [mkDecimal (d * 100 + 998) (- 2); mkDecimal (d * 100 - 2) (- 2)]
    | Suffix999 => [mkDecimal (d * 100 + 999) (- 2); mkDecimal (d * 100 - 1) (- 2)]
    | Suffix99 => [mkDecimal (d * 10 + 99) (- 1); mkDecimal (d * 10 - 1) (- 1)]
    | Suffix899 => [mkDecimal (d * 100 + 899) (- 2); mkDecimal (d * 100 - 101) (- 2)]
    | Generic99 => [mkDecimal (n * 100 + 99) (- 2)]
    end.
Proof.
  intros m1 m2 n d.
  pose proof (to_integral_value_expo (Dec.div_pow10 price 1)) as H1.
  pose proof (to_integral_value_expo (Dec.div_pow10 price 2)) as H2.
  pose proof (to_integral_value_expo price) as H0.
  destruct g; unfold grid_candidates; rewrite ?decade_of_int; fold n; fold d.
  - rewrite add_int, sub_int by (apply mul_int, H1). unfold d10. rewrite ival_mul. reflexivity.
  - rewrite add_int, sub_int by (apply mul_int, H2). unfold d100. rewrite ival_mul. reflexivity.
  - reflexivity.
  - rewrite (add_frac d 499 2) by lia. reflexivity.
  - rewrite (add_frac d 49 1) by lia. reflexivity.
  - rewrite (add_frac d 998 2), (sub_frac d 2 2) by lia. reflexivity.
  - rewrite (add_frac d 999 2), (sub_frac d 1 2) by lia. reflexivity.
  - rewrite (add_frac d 99 1), (sub_frac d 1 1) by lia. reflexivity.
  - rewrite (add_frac d 899 2), (sub_frac d 101 2) by lia. reflexivity.
  - replace (Dec.to_integral_value price)
      with (mkDecimal (coef (Dec.to_integral_value price)) (expo (Dec.to_integral_value price)))
      by (destruct (Dec.to_integral_value price); reflexivity).
    unfold Dec.add, Dec.align, dfrac, n, ival. simpl expo. simpl coef.
    rewrite Z.min_r by lia. rewrite Z.sub_diag. simpl (10 ^ 0). rewrite Z.mul_1_r.
    replace (expo (Dec.to_integral_value price) - - (2)) with
      (expo (Dec.to_integral_value price) + 2) by lia.
    rewrite Z.pow_add_r by lia. change (10 ^ 2) with 100.
    f_equal. apply (f_equal2 mkDecimal); [ring | reflexivity].
Qed.

(** *** A candidate is rounded to itself *)

Lemma mod10_digit (m r : Z) : 0 < r < 10 -> (10 * m + r) mod 10 <> 0.
Proof.
  intros Hr. rewrite <- (Z.mod_unique (10 * m + r) 10 m r); lia.
Qed.

Lemma m1_of_int (N : Z) :
  N mod 10 <> 0 ->
  ival (Dec.to_integral_value (Dec.div_pow10 (mkDecimal N 0) 1)) = Dec.round_half_even N 10.
Proof.
  intros H. rewrite (div_pow10_1 N H).
  change (mkDecimal N (-1)) with (mkDecimal N (- (1))).
  rewrite (to_integral_value_frac N 1) by lia. apply ival_int.
Qed.

Lemma m2_of_int (N : Z) :
  N mod 10 <> 0 ->
  ival (Dec.to_integral_value (Dec.div_pow10 (mkDecimal N 0) 2)) = Dec.round_half_even N 100.
Proof.
  intros H. rewrite (div_pow10_2 N H).
  change (mkDecimal N (-2)) with (mkDecimal N (- (2))).
  rewrite (to_integral_value_frac N 2) by lia. apply ival_int.
Qed.

Lemma n_of_frac (N k : Z) :
  0 < k -> ival (Dec.to_integral_value (mkDecimal N (- k))) = Dec.round_half_even N (10 ^ k).
Proof.
  intros Hk. rewrite (to_integral_value_frac N k Hk). apply ival_int.
Qed.

Lemma n_of_frac1 (N : Z) :
  ival (Dec.to_integral_value (mkDecimal N (-1))) = Dec.round_half_even N 10.
Proof. apply (n_of_frac N 1). lia. Qed.

Lemma n_of_frac2 (N : Z) :
  ival (Dec.to_integral_value (mkDecimal N (-2))) = Dec.round_half_even N 100.
Proof. apply (n_of_frac N 2). lia. Qed.

Lemma ival_to_integral_value_nonneg (price : Decimal) :
  0 <= coef price -> 0 <= ival (Dec.to_integral_value price).
Proof.
  intros Hc. unfold Dec.to_integral_value.
  destruct (0 <=? expo price) eqn:E.
  - unfold ival. apply Z.mul_nonneg_nonneg; [exact Hc|]. apply Z.pow_nonneg. lia.
  - rewrite ival_int. apply round_half_even_nonneg; [exact Hc|].
    apply Z.pow_pos_nonneg; [lia|]. apply Z.leb_gt in E. lia.
Qed.

(** On the decade-plus-eight grid. *)
Lemma fixed_decade_plus_eight (N m : Z) :
  N = 10 * m + 8 ->
  nearest (mkDecimal N 0) (grid_candidates DecadePlusEight (mkDecimal N 0))
  = Some (mkDecimal N 0).
Proof.
  intros HN.
  pose proof (grid_candidates_explicit DecadePlusEight (mkDecimal N 0)) as H.
  cbv zeta in H. rewrite H. clear H.
  rewrite m1_of_int by (rewrite HN; apply mod10_digit; lia).
  assert (Hr : Dec.round_half_even N 10 = m + 1)
    by (rewrite HN; apply round_half_even_high; lia).
  rewrite Hr. apply nearest_pair_second; lia.
Qed.

(** On the hundred-plus-99 grid. *)
Lemma fixed_hundred_plus_99 (N m : Z) :
  N = 100 * m + 99 ->
  nearest (mkDecimal N 0) (grid_candidates HundredPlus99 (mkDecimal N 0))
  = Some (mkDecimal N 0).
Proof.
  intros HN.
  pose proof (grid_candidates_explicit HundredPlus99 (mkDecimal N 0)) as H.
  cbv zeta in H. rewrite H. clear H.
  rewrite m2_of_int
    by (rewrite HN; replace (100 * m + 99) with (10 * (10 * m + 9) + 9) by lia;
        apply mod10_digit; lia).
  assert (Hr : Dec.round_half_even N 100 = m + 1)
    by (rewrite HN; apply round_half_even_high; lia).
  rewrite Hr. apply nearest_pair_second; lia.
Qed.

(** On the bare-decade grid. *)
Lemma fixed_bare_decade (t : Decimal) :
  0 <= expo t ->
  nearest (Dec.mul t d10) (grid_candidates BareDecade (Dec.mul t d10))
  = Some (Dec.mul t d10).
Proof.
  intros He. unfold grid_candidates. rewrite nearest_single. f_equal.
  assert (Hdiv : Dec.div_pow10 (Dec.mul t d10) 1 = mkDecimal (coef t) (expo t + 0)).
  { change (Dec.div_pow10 (Dec.mul t d10) 1)
      with (if coef t * 10 mod 10 =? 0
            then mkDecimal (coef t * 10 / 10) (expo t + 0)
            else mkDecimal (coef t * 10) (expo t + 0 - 1)).
    rewrite Z.mod_mul by lia. rewrite Z.div_mul by lia. reflexivity. }
  rewrite Hdiv. unfold Dec.to_integral_value. simpl expo.
  destruct (0 <=? expo t + 0) eqn:E; [|apply Z.leb_gt in E; lia].
  unfold Dec.mul, d10, Dec.of_Z. simpl expo. simpl coef.
  apply (f_equal2 mkDecimal); lia.
Qed.

Ltac second_pass g N :=
  let H := fresh "H" in
  pose proof (grid_candidates_explicit g N) as H;
  cbv zeta in H; rewrite H; clear H;
  rewrite ?n_of_frac1, ?n_of_frac2.

Ltac rewrite_rounding form :=
  match goal with
  | |- Dec.round_half_even ?x _ = _ =>
      replace x with form by lia;
      first [ rewrite round_half_even_high by lia; lia
            | rewrite round_half_even_low by lia; lia ]
  end.

Ltac rounds_to N m HN form v :=
  let Hr := fresh "Hr" in
  assert (Hr : Dec.round_half_even N m = v);
  [ rewrite HN; rewrite_rounding form | rewrite Hr ].

(** On the grids of the suffixes 9.98, 9.99 and 9.9: the decade [10 * q]
    with the suffix, or the decade above with the suffix less ten. *)
Lemma fixed_suffix998 (N q : Z) :
  N = 10 * q * 100 + 998 \/ N = 10 * q * 100 - 2 ->
  nearest (mkDecimal N (-2)) (grid_candidates Suffix998 (mkDecimal N (-2)))
  = Some (mkDecimal N (-2)).
Proof.
  intros HN. second_pass Suffix998 (mkDecimal N (-2)). destruct HN as [HN|HN].
  - rounds_to N 100 HN (100 * (10 * q + 9) + 98) (10 * (q + 1)).
    rewrite rem10_multiple. apply nearest_pair_second; lia.
  - rounds_to N 100 HN (100 * (10 * q - 1) + 98) (10 * q).
    rewrite rem10_multiple. apply nearest_pair_second; lia.
Qed.

Lemma fixed_suffix999 (N q : Z) :
  N = 10 * q * 100 + 999 \/ N = 10 * q * 100 - 1 ->
  nearest (mkDecimal N (-2)) (grid_candidates Suffix999 (mkDecimal N (-2)))
  = Some (mkDecimal N (-2)).
Proof.
  intros HN. second_pass Suffix999 (mkDecimal N (-2)). destruct HN as [HN|HN].
  - rounds_to N 100 HN (100 * (10 * q + 9) + 99) (10 * (q + 1)).
    rewrite rem10_multiple. apply nearest_pair_second; lia.
  - rounds_to N 100 HN (100 * (10 * q - 1) + 99) (10 * q).
    rewrite rem10_multiple. apply nearest_pair_second; lia.
Qed.

Lemma fixed_suffix99 (N q : Z) :
  N = 10 * q * 10 + 99 \/ N = 10 * q * 10 - 1 ->
  nearest (mkDecimal N (-1)) (grid_candidates Suffix99 (mkDecimal N (-1)))
  = Some (mkDecimal N (-1)).
Proof.
  intros HN. second_pass Suffix99 (mkDecimal N (-1)). destruct HN as [HN|HN].
  - rounds_to N 10 HN (10 * (10 * q + 9) + 9) (10 * (q + 1)).
    rewrite rem10_multiple. apply nearest_pair_second; lia.
  - rounds_to N 10 HN (10 * (10 * q - 1) + 9) (10 * q).
    rewrite rem10_multiple. apply nearest_pair_second; lia.
Qed.

(** On the grid of the suffix 8.99 the rounded value ends in 9 and the
    decade taken from it depends on its sign. *)
Lemma fixed_suffix899 (N q : Z) :
  N = 10 * q * 100 + 899 \/ N = 10 * q * 100 - 101 ->
  nearest (mkDecimal N (-2)) (grid_candidates Suffix899 (mkDecimal N (-2)))
  = Some (mkDecimal N (-2)).
Proof.
  intros HN. second_pass Suffix899 (mkDecimal N (-2)). destruct HN as [HN|HN].
  - rounds_to N 100 HN (100 * (10 * q + 8) + 99) (10 * q + 9).
    destruct (Z_lt_le_dec q 0) as [Hq|Hq].
    + rewrite rem10_neg by lia. apply nearest_pair_second; lia.
    + rewrite rem10_nonneg by lia. apply nearest_pair_first; lia.
  - rounds_to N 100 HN (100 * (10 * (q - 1) + 8) + 99) (10 * (q - 1) + 9).
    destruct (Z_lt_le_dec (q - 1) 0) as [Hq|Hq].
    + rewrite rem10_neg by lia. apply nearest_pair_second; lia.
    + rewrite rem10_nonneg by lia. apply nearest_pair_first; lia.
Qed.

(** On the grids of the suffixes 4.99 and 4.9, from the decade of a price
    that is not negative. *)
Lemma fixed_suffix499 (N q : Z) :
  0 <= q -> N = 10 * q * 100 + 499 ->
  nearest (mkDecimal N (-2)) (grid_candidates Suffix499 (mkDecimal N (-2)))
  = Some (mkDecimal N (-2)).
Proof.
  intros Hq HN. second_pass Suffix499 (mkDecimal N (-2)).
  rounds_to N 100 HN (100 * (10 * q + 4) + 99) (10 * q + 5).
  rewrite rem10_nonneg by lia. rewrite nearest_single. do 2 f_equal. lia.
Qed.

Lemma fixed_suffix49 (N q : Z) :
  0 <= q -> N = 10 * q * 10 + 49 ->
  nearest (mkDecimal N (-1)) (grid_candidates Suffix49 (mkDecimal N (-1)))
  = Some (mkDecimal N (-1)).
Proof.
  intros Hq HN. second_pass Suffix49 (mkDecimal N (-1)).
  rounds_to N 10 HN (10 * (10 * q + 4) + 9) (10 * q + 5).
  rewrite rem10_nonneg by lia. rewrite nearest_single. do 2 f_equal. lia.
Qed.

Lemma candidate_is_fixed (g : grid) (price c : Decimal) :
  g <> Generic99 ->
  (single_suffix_grid g = true -> 0 <= coef price) ->
  In c (grid_candidates g price) ->
  nearest c (grid_candidates g c) = Some c.
Proof.
  intros Hg Hsign Hin.
  pose proof (grid_candidates_explicit g price) as H. cbv zeta in H. rewrite H in Hin. clear H.
  destruct (decade_multiple (ival (Dec.to_integral_value price))) as [q [Hd Hq]].
  rewrite Hd in Hin.
  destruct g; cbv beta iota in Hin; cbn [In] in Hin; try contradiction.
  - destruct Hin as [<-|[<-|[]]].
    + apply (fixed_decade_plus_eight _ _ eq_refl).
    + apply (fixed_decade_plus_eight _
               (ival (Dec.to_integral_value (Dec.div_pow10 price 1)) - 1)). lia.
  - destruct Hin as [<-|[<-|[]]].
    + apply (fixed_hundred_plus_99 _ _ eq_refl).
    + apply (fixed_hundred_plus_99 _
               (ival (Dec.to_integral_value (Dec.div_pow10 price 2)) - 1)). lia.
  - destruct Hin as [<-|[]]. apply fixed_bare_decade, to_integral_value_expo.
  - destruct Hin as [<-|[]]. apply (fixed_suffix499 _ q); [|reflexivity].
    apply Hq, ival_to_integral_value_nonneg, Hsign. reflexivity.
  - destruct Hin as [<-|[]]. apply (fixed_suffix49 _ q); [|reflexivity].
    apply Hq, ival_to_integral_value_nonneg, Hsign. reflexivity.
  - destruct Hin as [<-|[<-|[]]]; apply (fixed_suffix998 _ q); [left | right]; reflexivity.
  - destruct Hin as [<-|[<-|[]]]; apply (fixed_suffix999 _ q); [left | right]; reflexivity.
  - destruct Hin as [<-|[<-|[]]]; apply (fixed_suffix99 _ q); [left | right]; reflexivity.
  - destruct Hin as [<-|[<-|[]]]; apply (fixed_suffix899 _ q); [left | right]; reflexivity.
Qed.

(** On the generic .99 grid the candidate built from a rounded price lies
    one unit above it. *)
Lemma generic_grid_moves_up (price : Decimal) :
  let n := ival (Dec.to_integral_value price) in
  grid_candidates Generic99 price = [mkDecimal (n * 100 + 99) (-2)] /\
  grid_candidates Generic99 (mkDecimal (n * 100 + 99) (-2))
  = [mkDecimal ((n + 1) * 100 + 99) (-2)].
Proof.
  intros n. split; [apply (grid_candidates_explicit Generic99 price)|].
  second_pass Generic99 (mkDecimal (n * 100 + 99) (-2)).
  replace (n * 100 + 99) with (100 * n + 99) by lia.
  rewrite round_half_even_high by lia. reflexivity.
Qed.

Lemma round_off_on_grid st iso2_code reference_price price r :
  country_reference_rounded_prices st !! iso2_code = Some reference_price ->
  nearest price (grid_candidates (classify reference_price) price) = Some r ->
  round_off_price_to_appstore_format iso2_code price st = (Ok r, st).
Proof.
  intros H Hr.
  destruct (round_off_with_reference st iso2_code price reference_price H) as [r' [Hr' Hrun]].
  rewrite candidates_by_grid, Hr in Hr'. injection Hr' as <-. exact Hrun.
Qed.

(** X25. Where rounding is idempotent.  For a code whose reference price
    selects a grid other than the generic .99 one, and a price in the range
    of exact arithmetic that is not negative when the grid is that of the
    suffix 4.99 or 4.9, rounding a rounded price returns it unchanged, and
    so does rounding any generated candidate. *)
Theorem rounding_idempotent_off_generic_grid
    (st : AppStorePricing) (iso2_code : string) (reference_price price : Decimal) :
  country_reference_rounded_prices st !! iso2_code = Some reference_price ->
  within_context price ->
  classify reference_price <> Generic99 ->
  (single_suffix_grid (classify reference_price) = true -> 0 <= coef price) ->
  (exists r,
     round_off_price_to_appstore_format iso2_code price st = (Ok r, st) /\
     round_off_price_to_appstore_format iso2_code r st = (Ok r, st)) /\
  (forall c, In c (candidates reference_price price) ->
     round_off_price_to_appstore_format iso2_code c st = (Ok c, st)).
Proof.
  intros Href _ Hgrid Hsign.
  assert (Hfixed : forall c, In c (candidates reference_price price) ->
            round_off_price_to_appstore_format iso2_code c st = (Ok c, st)).
  { intros c Hc. apply (round_off_on_grid st iso2_code reference_price c c Href).
    rewrite candidates_by_grid in Hc.
    apply (candidate_is_fixed _ price c Hgrid Hsign Hc). }
  split; [|exact Hfixed].
  destruct (round_off_with_reference st iso2_code price reference_price Href)
    as [r [Hr Hrun]].
  exists r. split; [exact Hrun|].
  apply Hfixed. exact (py_min_In _ _ _ Hr).
Qed.

Lemma rounding_idempotent_off_generic_grid_witness :
  (exists r,
     round_off_price_to_appstore_format "VN" (Dec.of_Z 101) (state_of small_index small_prices)
     = (Ok r, state_of small_index small_prices) /\
     round_off_price_to_appstore_format "VN" r (state_of small_index small_prices)
     = (Ok r, state_of small_index small_prices)) /\
  (forall c, In c (candidates (Dec.of_Z 98) (Dec.of_Z 101)) ->
     round_off_price_to_appstore_format "VN" c (state_of small_index small_prices)
     = (Ok c, state_of small_index small_prices)).
Proof.
  apply (rounding_idempotent_off_generic_grid (state_of small_index small_prices) "VN"
           (Dec.of_Z 98) (Dec.of_Z 101)).
  - vm_compute. reflexivity.
  - in_context.
  - vm_compute. discriminate.
  - vm_compute. discriminate.
Defined.

(** C1. Rounding is not idempotent on the generic .99 grid: with reference
    price 0.99 the price 12.34 is rounded to 12.99, the one generated
    candidate, and 12.99 is rounded to 13.99, a different price.  The
    integral part is taken with [to_integral_value], which rounds 12.99 up
    to 13 before 0.99 is added. *)
Lemma rounding_not_idempotent_on_generic_grid :
  country_reference_rounded_prices (state_of small_index small_prices) !! "FR"%string
  = Some (dfrac 99 2) /\
  candidates (dfrac 99 2) (dfrac 1234 2) = [dfrac 1299 2] /\
  fst (round_off_price_to_appstore_format "FR" (dfrac 1234 2)
         (state_of small_index small_prices)) = Ok (dfrac 1299 2) /\
  fst (round_off_price_to_appstore_format "FR" (dfrac 1299 2)
         (state_of small_index small_prices)) = Ok (dfrac 1399 2) /\
  Dec.eqb (dfrac 1399 2) (dfrac 1299 2) = false.
Proof.
  repeat split; vm_compute; reflexivity.
Qed.

(** The sign condition on the grids of the suffixes 4.99 and 4.9 is needed:
    with reference price 4.99 the price -13 is rounded to -5.01, and -5.01
    to 4.99. *)
Lemma single_suffix_grid_negative_price :
  classify (dfrac 499 2) = Suffix499 /\
  nearest (Dec.of_Z (-13)) (candidates (dfrac 499 2) (Dec.of_Z (-13))) = Some (dfrac (-501) 2) /\
  nearest (dfrac (-501) 2) (candidates (dfrac 499 2) (dfrac (-501) 2)) = Some (dfrac 499 2).
Proof.
  repeat split; vm_compute; reflexivity.
Qed.


(** * Further properties *)

(** ** The rounded price lies on the grid *)

Lemma candidates_on_grid (g : grid) (price c : Decimal) :
  In c (grid_candidates g price) -> on_grid g c.
Proof.
  intros Hin.
  pose proof (grid_candidates_explicit g price) as H. cbv zeta in H. rewrite H in Hin. clear H.
  destruct (decade_multiple (ival (Dec.to_integral_value price))) as [q [Hd _]].
  rewrite Hd in Hin.
  pose proof (to_integral_value_expo (Dec.div_pow10 price 1)) as He.
  destruct g; cbv beta iota in Hin; cbn [In] in Hin; unfold on_grid;
    repeat match goal with
           | H : _ \/ _ |- _ => destruct H as [H|H]
           | H : False |- _ => contradiction
           | H : _ = c |- _ => rewrite <- H; clear H
           end; unfold Dec.mul, d10, Dec.of_Z; cbn [expo coef];
    (split; [first [reflexivity | lia] | Z.div_mod_to_equations; lia]).
Qed.

(** X1. For a price in the range of exact arithmetic, the rounded price
    lies on the grid its reference price selects: on the decade-plus-eight
    grid an integer that is a multiple of ten plus 8, on the
    hundred-plus-99 grid a multiple of a hundred plus 99, on the
    bare-decade grid a multiple of ten, on a suffix grid a number of one or
    two decimals that is a multiple of ten plus the suffix (a whole number
    plus 0.99 on the generic grid).  Such a price ends in the digits of the
    grid when it is not negative; the multiple may be negative, as in -2 =
    -10 + 8. *)
Theorem rounded_price_on_grid
    (st : AppStorePricing) (iso2_code : string) (reference_price price : Decimal) :
  country_reference_rounded_prices st !! iso2_code = Some reference_price ->
  within_context price ->
  exists r, round_off_price_to_appstore_format iso2_code price st = (Ok r, st) /\
            on_grid (classify reference_price) r.
Proof.
  intros Href _.
  destruct (round_off_with_reference st iso2_code price reference_price Href)
    as [r [Hr Hrun]].
  exists r. split; [exact Hrun|].
  apply (candidates_on_grid _ price). rewrite <- candidates_by_grid.
  exact (py_min_In _ _ _ Hr).
Qed.

Lemma rounded_price_on_grid_witness :
  exists r, round_off_price_to_appstore_format "VN" (dfrac 10449 2)
              (state_of small_index small_prices)
            = (Ok r, state_of small_index small_prices) /\
            on_grid (classify (Dec.of_Z 98)) r.
Proof.
  apply (rounded_price_on_grid (state_of small_index small_prices) "VN" (Dec.of_Z 98)
           (dfrac 10449 2)).
  - vm_compute. reflexivity.
  - in_context.
Defined.

(** ** The selected candidate is the first of the nearest *)

(** Comparison at any exponent below those of the two decimals. *)
Lemma ltb_scaled (a b : Decimal) (k : Z) :
  k <= expo a -> k <= expo b ->
  Dec.ltb a b = (coef a * 10 ^ (expo a - k) <? coef b * 10 ^ (expo b - k)).
Proof.
  intros Ha Hb. unfold Dec.ltb, Dec.align.
  set (m := Z.min (expo a) (expo b)).
  assert (Hm : k <= m) by (unfold m; lia).
  assert (Hma : m <= expo a) by (unfold m; lia).
  assert (Hmb : m <= expo b) by (unfold m; lia).
  replace (expo a - k) with ((expo a - m) + (m - k)) by lia.
  replace (expo b - k) with ((expo b - m) + (m - k)) by lia.
  rewrite !Z.pow_add_r by lia.
  assert (Hp : 0 < 10 ^ (m - k)) by (apply Z.pow_pos_nonneg; lia).
  destruct (Z.ltb_spec (coef a * 10 ^ (expo a - m)) (coef b * 10 ^ (expo b - m)));
    destruct (Z.ltb_spec (coef a * (10 ^ (expo a - m) * 10 ^ (m - k)))
                (coef b * (10 ^ (expo b - m) * 10 ^ (m - k)))); try reflexivity; nia.
Qed.

Lemma ltb_irrefl (a : Decimal) : Dec.ltb a a = false.
Proof. rewrite (ltb_scaled a a (expo a)) by lia. apply Z.ltb_irrefl. Qed.

Lemma ltb_lt_le_trans (a b c : Decimal) :
  Dec.ltb a b = true -> Dec.ltb c b = false -> Dec.ltb a c = true.
Proof.
  set (k := Z.min (expo a) (Z.min (expo b) (expo c))).
  rewrite (ltb_scaled a b k), (ltb_scaled c b k), (ltb_scaled a c k) by (unfold k; lia).
  rewrite !Z.ltb_lt, Z.ltb_ge. lia.
Qed.

Lemma ltb_le_lt_trans (a b c : Decimal) :
  Dec.ltb b a = false -> Dec.ltb b c = true -> Dec.ltb a c = true.
Proof.
  set (k := Z.min (expo a) (Z.min (expo b) (expo c))).
  rewrite (ltb_scaled b a k), (ltb_scaled b c k), (ltb_scaled a c k) by (unfold k; lia).
  rewrite !Z.ltb_lt, Z.ltb_ge. lia.
Qed.

Lemma ltb_asym (a b : Decimal) : Dec.ltb a b = true -> Dec.ltb b a = false.
Proof.
  set (k := Z.min (expo a) (expo b)).
  rewrite (ltb_scaled a b k), (ltb_scaled b a k) by (unfold k; lia).
  rewrite Z.ltb_lt, Z.ltb_ge. lia.
Qed.

Lemma min_from_first_minimum {A : Type} (key : A -> Decimal) (l : list A) (best : A) :
  (forall x, In x (best :: l) -> Dec.ltb (key x) (key (min_from key best l)) = false) /\
  exists l1 l2, best :: l = l1 ++ min_from key best l :: l2 /\
                forall x, In x l1 -> Dec.ltb (key (min_from key best l)) (key x) = true.
Proof.
  revert best. induction l as [|x l IH]; intros best.
  - simpl. split.
    + intros y [<-|[]]. apply ltb_irrefl.
    + exists [], []. split; [reflexivity | intros y []].
  - simpl min_from. destruct (Dec.ltb (key x) (key best)) eqn:E.
    + destruct (IH x) as [Hmin [l1 [l2 [Hsplit Hbefore]]]].
      set (r := min_from key x l) in *.
      assert (Hrb : Dec.ltb (key r) (key best) = true).
      { apply (ltb_le_lt_trans _ (key x)); [|exact E]. apply Hmin. left. reflexivity. }
      split.
      * intros y [<-|Hy]; [apply ltb_asym, Hrb | apply Hmin, Hy].
      * exists (best :: l1), l2. split; [simpl; rewrite Hsplit; reflexivity|].
        intros y [<-|Hy]; [exact Hrb | apply Hbefore, Hy].
    + destruct (IH best) as [Hmin [l1 [l2 [Hsplit Hbefore]]]].
      set (r := min_from key best l) in *.
      split.
      * intros y [<-|[<-|Hy]].
        -- apply Hmin. left. reflexivity.
        -- destruct (Dec.ltb (key x) (key r)) eqn:Exr; [|reflexivity].
           rewrite (ltb_lt_le_trans _ _ _ Exr (Hmin best (or_introl eq_refl))) in E.
           discriminate.
        -- apply Hmin. right. exact Hy.
      * destruct l1 as [|b l1].
        -- simpl in Hsplit. injection Hsplit as Hb Hl.
           exists [], (x :: l2). split; [simpl; rewrite <- Hb, Hl; reflexivity | intros y []].
        -- simpl in Hsplit. injection Hsplit as Hb Hl. subst b.
           exists (best :: x :: l1), l2. split; [simpl; rewrite Hl; reflexivity|].
           intros y [<-|[<-|Hy]].
           ++ apply Hbefore. left. reflexivity.
           ++ apply (ltb_lt_le_trans _ (key best)); [|exact E].
              apply Hbefore. left. reflexivity.
           ++ apply Hbefore. right. exact Hy.
Qed.

(** X2. For a price in the range of exact arithmetic, the rounded price is
    the first candidate at minimal distance from the input: no candidate is
    strictly nearer, and every candidate listed before it is strictly
    farther. *)
Theorem rounded_price_first_nearest
    (st : AppStorePricing) (iso2_code : string) (reference_price price : Decimal) :
  country_reference_rounded_prices st !! iso2_code = Some reference_price ->
  within_context price ->
  exists r,
    round_off_price_to_appstore_format iso2_code price st = (Ok r, st) /\
    (forall c, In c (candidates reference_price price) ->
       Dec.ltb (distance price c) (distance price r) = false) /\
    exists before after,
      candidates reference_price price = before ++ r :: after /\
      forall c, In c before -> Dec.ltb (distance price r) (distance price c) = true.
Proof.
  intros Href _.
  destruct (round_off_with_reference st iso2_code price reference_price Href)
    as [r [Hr Hrun]].
  exists r. split; [exact Hrun|].
  unfold nearest, py_min in Hr.
  destruct (candidates reference_price price) as [|x l]; [discriminate|].
  injection Hr as <-.
  exact (min_from_first_minimum (distance price) l x).
Qed.

Lemma rounded_price_first_nearest_witness :
  exists r,
    round_off_price_to_appstore_format "VN" (Dec.of_Z 103) (state_of small_index small_prices)
    = (Ok r, state_of small_index small_prices) /\
    (forall c, In c (candidates (Dec.of_Z 98) (Dec.of_Z 103)) ->
       Dec.ltb (distance (Dec.of_Z 103) c) (distance (Dec.of_Z 103) r) = false) /\
    exists before after,
      candidates (Dec.of_Z 98) (Dec.of_Z 103) = before ++ r :: after /\
      forall c, In c before ->
        Dec.ltb (distance (Dec.of_Z 103) r) (distance (Dec.of_Z 103) c) = true.
Proof.
  apply (rounded_price_first_nearest (state_of small_index small_prices) "VN"
           (Dec.of_Z 98) (Dec.of_Z 103)).
  - vm_compute. reflexivity.
  - in_context.
Defined.

(** ** The generic .99 grid rounds upwards *)

Lemma round_half_even_near (c m : Z) :
  0 < m -> - m <= 2 * (c - Dec.round_half_even c m * m) <= m.
Proof.
  intros Hm. unfold Dec.round_half_even.
  pose proof (Z.div_mod c m ltac:(lia)) as Hdm.
  pose proof (Z.mod_pos_bound c m Hm) as Hb.
  destruct (Z.compare_spec (2 * (c mod m)) m); [destruct (Z.even (c / m))| |]; nia.
Qed.

(** The price and the integer it is rounded to, both scaled to the lower of
    the price's exponent and -2. *)
Lemma scaled_price_near_integral (price : Decimal) :
  let k := Z.min (expo price) (-2) in
  let s := 10 ^ (-2 - k) in
  let p := coef price * 10 ^ (expo price - k) in
  let n := ival (Dec.to_integral_value price) in
  0 < s /\ - (50 * s) <= p - 100 * (n * s) <= 50 * s.
Proof.
  intros k s p n.
  assert (Hs : 0 < s) by (apply Z.pow_pos_nonneg; unfold k; lia).
  split; [exact Hs|].
  unfold n, Dec.to_integral_value. destruct (0 <=? expo price) eqn:E.
  - apply Z.leb_le in E. unfold ival, p, s, k. rewrite Z.min_r by lia.
    replace (expo price - -2) with (expo price + 2) by lia.
    rewrite Z.pow_add_r by lia. change (10 ^ (-2 - -2)) with 1. change (10 ^ 2) with 100.
    lia.
  - apply Z.leb_gt in E. rewrite ival_int.
    pose proof (round_half_even_near (coef price) (10 ^ (- expo price))
                  ltac:(apply Z.pow_pos_nonneg; lia)) as Hn.
    set (r := Dec.round_half_even (coef price) (10 ^ (- expo price))) in *.
    destruct (Z_le_gt_dec (-2) (expo price)) as [Hk|Hk].
    + unfold p, s, k. rewrite Z.min_r by lia. change (10 ^ (-2 - -2)) with 1.
      assert (Hpow : 10 ^ (expo price - -2) * 10 ^ (- expo price) = 100).
      { rewrite <- Z.pow_add_r by lia. replace (expo price - -2 + - expo price) with 2 by lia.
        reflexivity. }
      assert (Hpos : 0 < 10 ^ (expo price - -2)) by (apply Z.pow_pos_nonneg; lia).
      set (a := 10 ^ (expo price - -2)) in *. set (m := 10 ^ (- expo price)) in *.
      assert (H1 : 2 * (coef price - r * m) * a <= m * a)
        by (apply Z.mul_le_mono_nonneg_r; lia).
      assert (H2 : - m * a <= 2 * (coef price - r * m) * a)
        by (apply Z.mul_le_mono_nonneg_r; lia).
      assert (Hr : r * m * a = 100 * r)
        by (rewrite <- Z.mul_assoc, (Z.mul_comm m a), Hpow; lia).
      assert (Hm : m * a = 100) by lia.
      lia.
    + unfold p, s, k. rewrite Z.min_l by lia. rewrite Z.sub_diag. change (10 ^ 0) with 1.
      assert (Hpow : 10 ^ (- expo price) = 100 * 10 ^ (-2 - expo price)).
      { replace (- expo price) with (2 + (-2 - expo price)) by lia.
        rewrite Z.pow_add_r by lia. reflexivity. }
      rewrite Hpow in Hn. nia.
Qed.

Lemma generic_candidate_above (price : Decimal) :
  let r := mkDecimal (ival (Dec.to_integral_value price) * 100 + 99) (-2) in
  Dec.ltb price r = true /\
  Dec.ltb r (Dec.add price (dfrac 49 2)) = false /\
  Dec.ltb (Dec.add price (dfrac 149 2)) r = false.
Proof.
  intros r.
  destruct (scaled_price_near_integral price) as [Hs Hnear]. cbv zeta in Hs, Hnear.
  set (k := Z.min (expo price) (-2)) in *.
  set (s := 10 ^ (-2 - k)) in *.
  set (p := coef price * 10 ^ (expo price - k)) in *.
  set (n := ival (Dec.to_integral_value price)) in *.
  assert (Hadd : forall c, Dec.add price (dfrac c 2) = mkDecimal (p + c * s) k).
  { intros c. unfold Dec.add, Dec.align, dfrac. simpl expo. simpl coef. reflexivity. }
  rewrite !Hadd. unfold r.
  rewrite (ltb_scaled price _ k), (ltb_scaled (mkDecimal (n * 100 + 99) (-2)) _ k),
    (ltb_scaled (mkDecimal (p + 149 * s) k) _ k) by (simpl expo; unfold k; lia).
  simpl expo. simpl coef. fold s. fold p.
  rewrite Z.sub_diag. change (10 ^ 0) with 1.
  rewrite Z.ltb_lt, !Z.ltb_ge. nia.
Qed.

(** X3. On the generic .99 grid a price in the range of exact arithmetic
    is always rounded upwards: the rounded price exceeds the input by at
    least 0.49 and at most 1.49, so such a price is never rounded down and
    never left as it is. *)
Theorem generic_grid_rounds_up
    (st : AppStorePricing) (iso2_code : string) (reference_price price : Decimal) :
  country_reference_rounded_prices st !! iso2_code = Some reference_price ->
  within_context price ->
  classify reference_price = Generic99 ->
  exists r,
    round_off_price_to_appstore_format iso2_code price st = (Ok r, st) /\
    Dec.ltb price r = true /\
    Dec.ltb r (Dec.add price (dfrac 49 2)) = false /\
    Dec.ltb (Dec.add price (dfrac 149 2)) r = false.
Proof.
  intros Href _ Hgrid.
  exists (mkDecimal (ival (Dec.to_integral_value price) * 100 + 99) (-2)).
  split; [|apply generic_candidate_above].
  apply (round_off_on_grid st iso2_code reference_price _ _ Href).
  rewrite Hgrid. rewrite (proj1 (generic_grid_moves_up price)). reflexivity.
Qed.

Lemma generic_grid_rounds_up_witness :
  exists r,
    round_off_price_to_appstore_format "FR" (dfrac 1251 2) (state_of small_index small_prices)
    = (Ok r, state_of small_index small_prices) /\
    Dec.ltb (dfrac 1251 2) r = true /\
    Dec.ltb r (Dec.add (dfrac 1251 2) (dfrac 49 2)) = false /\
    Dec.ltb (Dec.add (dfrac 1251 2) (dfrac 149 2)) r = false.
Proof.
  apply (generic_grid_rounds_up (state_of small_index small_prices) "FR" (dfrac 99 2)
           (dfrac 1251 2)).
  - vm_compute. reflexivity.
  - in_context.
  - vm_compute. reflexivity.
Defined.


(** ** The resolver: what it reads and what it writes *)

Lemma log_fields iso_code name match_ st :
  let st' := snd (log iso_code name match_ st) in
  country_names_map st' = country_names_map st /\
  country_currency_mapping st' = country_currency_mapping st /\
  country_reference_rounded_prices st' = country_reference_rounded_prices st /\
  stdout st' = stdout st /\ ext_calls st' = ext_calls st.
Proof.
  unfold log, modify. simpl. destruct (dup_check st !! iso_code); repeat split.
Qed.

Lemma log_audit iso_code name match_ st k :
  audit (snd (log iso_code name match_ st)) k
  = if bool_decide (k = iso_code) then audit st k ++ [(name, match_)] else audit st k.
Proof.
  unfold audit, log, modify. simpl.
  destruct (dup_check st !! iso_code) as [l|] eqn:E; simpl;
    destruct (bool_decide (k = iso_code)) eqn:Ek.
  - apply bool_decide_eq_true_1 in Ek. subst k. rewrite lookup_insert_eq, E. reflexivity.
  - apply bool_decide_eq_false_1 in Ek. rewrite lookup_insert_ne by congruence. reflexivity.
  - apply bool_decide_eq_true_1 in Ek. subst k. rewrite lookup_insert_eq, E. reflexivity.
  - apply bool_decide_eq_false_1 in Ek. rewrite lookup_insert_ne by congruence. reflexivity.
Qed.

Lemma resolver_result extractOne name st :
  fst (get_country_iso_code extractOne name st)
  = resolution extractOne (country_names_map st) name.
Proof.
  unfold get_country_iso_code, resolution, bind, get.
  destruct (first_owner (Str.lower name) (country_names_map st)); [reflexivity|].
  simpl. destruct (extractOne _ _) as [[best score]|]; [|reflexivity].
  destruct (if 80 <? score then first_owner best (country_names_map st) else None);
    reflexivity.
Qed.

(** X4. The resolver reads nothing but the name index: in two states with
    the same index, whatever their audit logs and tables, the same input
    gets the same answer, or the same exception. *)
Theorem resolver_reads_index_only
    (extractOne : string -> list string -> option (string * Z))
    (st1 st2 : AppStorePricing) (name : string) :
  country_names_map st1 = country_names_map st2 ->
  fst (get_country_iso_code extractOne name st1)
  = fst (get_country_iso_code extractOne name st2).
Proof.
  intros H. rewrite !resolver_result, H. reflexivity.
Qed.

Lemma resolver_reads_index_only_witness :
  fst (get_country_iso_code (fixed_score_extractor 90) "Frankreich"
         (state_of small_index small_prices))
  = fst (get_country_iso_code (fixed_score_extractor 90) "Frankreich"
           (logged None "x" "no match" us_state)).
Proof.
  apply (resolver_reads_index_only (fixed_score_extractor 90)
           (state_of small_index small_prices) (logged None "x" "no match" us_state)
           "Frankreich").
  reflexivity.
Defined.

Lemma first_owner_split (name : string) (index : list (string * list string)) iso_code :
  first_owner name index = Some iso_code ->
  exists before names after,
    index = before ++ (iso_code, names) :: after /\ name ∈ names /\
    forall e, In e before -> name ∉ snd e.
Proof.
  induction index as [|[c ns] index IH]; simpl; [discriminate|].
  destruct (bool_decide (name ∈ ns)) eqn:E.
  - intros [= <-]. apply bool_decide_eq_true_1 in E.
    exists [], ns, index. split; [reflexivity|]. split; [exact E | intros e []].
  - intros H. apply bool_decide_eq_false_1 in E.
    destruct (IH H) as [before [names [after [Hsplit [Hn Hbefore]]]]].
    exists ((c, ns) :: before), names, after. split; [rewrite Hsplit; reflexivity|].
    split; [exact Hn|]. intros e [<-|He]; [exact E | apply Hbefore, He].
Qed.

(** X5. A code the resolver returns is the first entry of the index, in
    iteration order, whose name set holds the matched name; the matched
    name is the lower-cased input, or else the extractor's best candidate
    with a score above 80. *)
Theorem resolved_code_is_first_owner
    (extractOne : string -> list string -> option (string * Z))
    (st : AppStorePricing) (name iso_code : string) :
  fst (get_country_iso_code extractOne name st) = Ok (Some iso_code) ->
  exists matched before names after,
    country_names_map st = before ++ (iso_code, names) :: after /\
    matched ∈ names /\
    (forall e, In e before -> matched ∉ snd e) /\
    (matched = Str.lower name \/
     (first_owner (Str.lower name) (country_names_map st) = None /\
      exists score,
        extractOne (Str.lower name) (all_names (country_names_map st)) = Some (matched, score) /\
        80 < score)).
Proof.
  rewrite resolver_result. unfold resolution.
  destruct (first_owner (Str.lower name) (country_names_map st)) as [c|] eqn:E.
  - intros [= ->].
    destruct (first_owner_split _ _ _ E) as [before [names [after [Hs [Hn Hb]]]]].
    exists (Str.lower name), before, names, after. repeat split; try assumption.
    left. reflexivity.
  - destruct (extractOne _ _) as [[best score]|] eqn:Ex; [|discriminate].
    destruct (80 <? score) eqn:Es; [|discriminate].
    intros [= Hc].
    destruct (first_owner_split _ _ _ Hc) as [before [names [after [Hs [Hn Hb]]]]].
    exists best, before, names, after. repeat split; try assumption.
    right. split; [reflexivity|]. exists score. split; [reflexivity|].
    apply Z.ltb_lt, Es.
Qed.

Lemma resolved_code_is_first_owner_witness :
  exists matched before names after,
    country_names_map (state_of small_index small_prices)
    = before ++ ("VN"%string, names) :: after /\
    matched ∈ names /\
    (forall e, In e before -> matched ∉ snd e) /\
    (matched = Str.lower "VIETNAM" \/
     (first_owner (Str.lower "VIETNAM")
        (country_names_map (state_of small_index small_prices)) = None /\
      exists score,
        fixed_score_extractor 0 (Str.lower "VIETNAM")
          (all_names (country_names_map (state_of small_index small_prices)))
        = Some (matched, score) /\
        80 < score)).
Proof.
  apply (resolved_code_is_first_owner (fixed_score_extractor 0)
           (state_of small_index small_prices) "VIETNAM" "VN").
  vm_compute. reflexivity.
Defined.

Lemma resolver_state extractOne name st :
  let st' := snd (get_country_iso_code extractOne name st) in
  match first_owner (Str.lower name) (country_names_map st) with
  | Some iso_code =>
      st' = logged (Some iso_code) (Str.lower name) (Str.lower name ++ "-direct")%string st
  | None =>
      let called :=
        snd (call (CallExtractOne (Str.lower name) (all_names (country_names_map st))) st) in
      match extractOne (Str.lower name) (all_names (country_names_map st)) with
      | None => st' = called
      | Some (best_match, score) =>
          match (if 80 <? score then first_owner best_match (country_names_map st) else None) with
          | Some iso_code =>
              st' = logged (Some iso_code) (Str.lower name) (best_match ++ "-thefuzz")%string called
          | None => st' = logged None (Str.lower name) "no match" called
          end
      end
  end.
Proof.
  unfold get_country_iso_code, bind, get. simpl.
  destruct (first_owner (Str.lower name) (country_names_map st)); [reflexivity|].
  simpl. destruct (extractOne _ _) as [[best score]|]; [|reflexivity].
  destruct (if 80 <? score then first_owner best (country_names_map st) else None);
    reflexivity.
Qed.

(** X6. A call of the resolver that returns appends exactly one record to
    the audit log, under the key it returns and with the lower-cased input
    as its first component; the records logged before, under this key and
    under every other, stay as they were. *)
Theorem resolver_appends_one_audit_record
    (extractOne : string -> list string -> option (string * Z))
    (st : AppStorePricing) (name : string) (k : option string) :
  fst (get_country_iso_code extractOne name st) = Ok k ->
  exists match_,
    audit (snd (get_country_iso_code extractOne name st)) k
    = audit st k ++ [(Str.lower name, match_)] /\
    (forall k', k' <> k ->
       audit (snd (get_country_iso_code extractOne name st)) k' = audit st k') /\
    (k = None -> match_ = "no match"%string).
Proof.
  rewrite resolver_result. pose proof (resolver_state extractOne name st) as Hst.
  cbv zeta in Hst. unfold resolution.
  destruct (first_owner (Str.lower name) (country_names_map st)) as [c|] eqn:E.
  - intros [= <-]. rewrite Hst. unfold logged. eexists. split; [|split].
    + rewrite log_audit, bool_decide_eq_true_2 by reflexivity. reflexivity.
    + intros k' Hk. rewrite log_audit, bool_decide_eq_false_2 by exact Hk. reflexivity.
    + discriminate.
  - destruct (extractOne _ _) as [[best score]|]; [|discriminate].
    destruct (if 80 <? score then first_owner best (country_names_map st) else None)
      as [c|]; intros [= <-]; rewrite Hst; unfold logged; eexists; (split; [|split]).
    + rewrite log_audit, bool_decide_eq_true_2 by reflexivity. reflexivity.
    + intros k' Hk. rewrite log_audit, bool_decide_eq_false_2 by exact Hk. reflexivity.
    + discriminate.
    + rewrite log_audit, bool_decide_eq_true_2 by reflexivity. reflexivity.
    + intros k' Hk. rewrite log_audit, bool_decide_eq_false_2 by exact Hk. reflexivity.
    + reflexivity.
Qed.

Lemma resolver_appends_one_audit_record_witness :
  exists match_,
    audit (snd (get_country_iso_code (fixed_score_extractor 0) "Atlantis"
                  (state_of small_index small_prices))) None
    = audit (state_of small_index small_prices) None ++ [(Str.lower "Atlantis", match_)] /\
    (forall k' : option string, k' <> None ->
       audit (snd (get_country_iso_code (fixed_score_extractor 0) "Atlantis"
                     (state_of small_index small_prices))) k'
       = audit (state_of small_index small_prices) k') /\
    (@None string = None -> match_ = "no match"%string).
Proof.
  apply (resolver_appends_one_audit_record (fixed_score_extractor 0)
           (state_of small_index small_prices) "Atlantis" None).
  vm_compute. reflexivity.
Defined.

Lemma call_fields c st :
  let st' := snd (call c st) in
  dup_check st' = dup_check st /\
  country_names_map st' = country_names_map st /\
  country_currency_mapping st' = country_currency_mapping st /\
  country_reference_rounded_prices st' = country_reference_rounded_prices st /\
  stdout st' = stdout st /\ ext_calls st' = c :: ext_calls st.
Proof. repeat split. Qed.

(** X7. The resolver writes to the audit log only: the name index, the
    currency mapping, the reference prices and the printed lines are left
    as they were, and at most one external call, to the extractor, is
    recorded. *)
Theorem resolver_writes_log_only
    (extractOne : string -> list string -> option (string * Z))
    (st : AppStorePricing) (name : string) :
  country_names_map (snd (get_country_iso_code extractOne name st)) = country_names_map st /\
  country_currency_mapping (snd (get_country_iso_code extractOne name st))
  = country_currency_mapping st /\
  country_reference_rounded_prices (snd (get_country_iso_code extractOne name st))
  = country_reference_rounded_prices st /\
  stdout (snd (get_country_iso_code extractOne name st)) = stdout st /\
  (ext_calls (snd (get_country_iso_code extractOne name st)) = ext_calls st \/
   ext_calls (snd (get_country_iso_code extractOne name st))
   = CallExtractOne (Str.lower name) (all_names (country_names_map st)) :: ext_calls st).
Proof.
  set (st' := snd (get_country_iso_code extractOne name st)). pose proof (resolver_state extractOne name st) as Hst.
  cbv zeta in Hst. fold st' in Hst.
  pose proof (call_fields (CallExtractOne (Str.lower name) (all_names (country_names_map st)))
                st) as Hc. cbv zeta in Hc.
  destruct Hc as [_ [Hc1 [Hc2 [Hc3 [Hc4 Hc5]]]]].
  destruct (first_owner (Str.lower name) (country_names_map st)) as [c|].
  - rewrite Hst. unfold logged.
    destruct (log_fields (Some c) (Str.lower name) (Str.lower name ++ "-direct")%string st)
      as [H1 [H2 [H3 [H4 H5]]]].
    repeat split; try assumption. left. exact H5.
  - destruct (extractOne _ _) as [[best score]|].
    + destruct (if 80 <? score then first_owner best (country_names_map st) else None) as [c|];
        rewrite Hst; unfold logged;
        match goal with
        | |- context [log ?k ?n ?m ?s] =>
            destruct (log_fields k n m s) as [H1 [H2 [H3 [H4 H5]]]]
        end;
        rewrite H1, H2, H3, H4, H5, Hc1, Hc2, Hc3, Hc4, Hc5; repeat split; right; reflexivity.
    + rewrite Hst, Hc1, Hc2, Hc3, Hc4, Hc5. repeat split. right. reflexivity.
Qed.

(** X8. The resolver raises exactly when the exact pass finds nothing and
    the extractor has no answer (as for an empty index); the exception is
    the [TypeError] of the failed unpacking, and nothing is logged. *)
Theorem resolver_raises_only_without_answer
    (extractOne : string -> list string -> option (string * Z))
    (st : AppStorePricing) (name : string) :
  ((exists e, fst (get_country_iso_code extractOne name st) = Raise e) <->
   first_owner (Str.lower name) (country_names_map st) = None /\
   extractOne (Str.lower name) (all_names (country_names_map st)) = None) /\
  (forall e, fst (get_country_iso_code extractOne name st) = Raise e ->
     e = TypeError "cannot unpack non-iterable NoneType object" /\
     dup_check (snd (get_country_iso_code extractOne name st)) = dup_check st).
Proof.
  pose proof (resolver_state extractOne name st) as Hst. cbv zeta in Hst.
  rewrite resolver_result. unfold resolution.
  destruct (first_owner (Str.lower name) (country_names_map st)) as [c|].
  - split; [split|].
    + intros [e He]. discriminate.
    + intros [H _]. discriminate.
    + intros e He. discriminate.
  - destruct (extractOne _ _) as [[best score]|].
    + split; [split|].
      * intros [e He]. discriminate.
      * intros [_ H]. discriminate.
      * intros e He. discriminate.
    + split; [split|].
      * intros _. split; reflexivity.
      * intros _. eexists. reflexivity.
      * intros e [= <-]. split; [reflexivity|]. rewrite Hst. reflexivity.
Qed.

(** ** The currency-table load: what the mapping holds afterwards *)

Lemma process_country_mapping_invariant (extractOne : string -> list string -> option (string * Z))
    (item : row) (c : string)
    (Q : gmap (option string) entry -> Prop) :
  (forall m k, Q m ->
     Q (<[k := mkEntry (row_report_region item) (row_report_currency item) k c]> m)) ->
  preserves (on_mapping Q) (process_country extractOne item c).
Proof.
  intros Hins. unfold process_country.
  apply preserves_bind; [apply resolver_preserves_mapping|]. intros iso_code.
  apply preserves_bind.
  { destruct (negb (truthy iso_code)); [apply print_preserves_mapping | apply preserves_ret]. }
  intros _ st H. unfold bind, get.
  destruct (bool_decide (is_Some (country_currency_mapping st !! iso_code))
            && is_aggregate (row_region_code item)); [exact H|].
  unfold on_mapping in *. simpl. apply Hins, H.
Qed.

Lemma process_item_mapping_invariant (extractOne : string -> list string -> option (string * Z))
    (item : row)
    (Q : gmap (option string) entry -> Prop) :
  (is_placeholder (row_region_code item) = false ->
   forall m k c, Q m ->
     Q (<[k := mkEntry (row_report_region item) (row_report_currency item) k c]> m)) ->
  preserves (on_mapping Q) (process_item extractOne item).
Proof.
  intros Hins. unfold process_item.
  destruct (is_placeholder (row_region_code item)); [apply preserves_ret|].
  specialize (Hins eq_refl).
  destruct (Str.contains_comma (row_countries item)).
  - apply preserves_for_each. intros c _. apply process_country_mapping_invariant.
    intros m k Hm. apply Hins, Hm.
  - apply preserves_modify. intros st H. unfold on_mapping in *. simpl. apply Hins, H.
Qed.

(** Whatever holds of the empty mapping and is kept by the insertion of an
    entry made from a row of the table holds of the loaded mapping. *)
Lemma fetch_mapping_invariant (extractOne : string -> list string -> option (string * Z))
    (data : list row) (st : AppStorePricing)
    (Q : gmap (option string) entry -> Prop) :
  Q ∅ ->
  (forall item m k c,
     In item data -> is_placeholder (row_region_code item) = false -> Q m ->
     Q (<[k := mkEntry (row_report_region item) (row_report_currency item) k c]> m)) ->
  Q (country_currency_mapping (snd (fetch_appstore_country_currency_mapping extractOne data st))).
Proof.
  intros Hempty Hins.
  unfold fetch_appstore_country_currency_mapping, bind.
  destruct (print _ st) as [[[]|x] st1] eqn:E1; [|discriminate].
  destruct (modify (set_country_currency_mapping ∅) st1) as [[[]|x] st2] eqn:E2;
    [|discriminate].
  assert (H2 : on_mapping Q st2).
  { unfold modify in E2. injection E2 as <-. exact Hempty. }
  pose proof (preserves_for_each (on_mapping Q) data (process_item extractOne)) as Hfor.
  assert (Hbody : forall x, In x data -> preserves (on_mapping Q) (process_item extractOne x)).
  { intros item Hin. apply process_item_mapping_invariant. intros Hp m k c Hm.
    apply (Hins item m k c Hin Hp Hm). }
  specialize (Hfor Hbody st2 H2).
  destruct (for_each data (process_item extractOne) st2) as [[[]|x] st3]; exact Hfor.
Qed.

(** X9. In the mapping left by the load, whether it ended or raised, the
    "Region Code" field of every entry is the key the entry is stored
    under, and its report region and report currency are those of one row
    of the table that is not a placeholder row (ZZ, Z1). *)
Theorem loaded_entries_come_from_rows
    (extractOne : string -> list string -> option (string * Z))
    (data : list row) (st : AppStorePricing) (k : option string) (e : entry) :
  country_currency_mapping
    (snd (fetch_appstore_country_currency_mapping extractOne data st)) !! k = Some e ->
  region_code e = k /\
  exists item,
    In item data /\ is_placeholder (row_region_code item) = false /\
    report_region e = row_report_region item /\
    report_currency e = row_report_currency item.
Proof.
  revert k e.
  apply (fetch_mapping_invariant extractOne data st
           (fun m => forall k e, m !! k = Some e ->
              region_code e = k /\
              exists item,
                In item data /\ is_placeholder (row_region_code item) = false /\
                report_region e = row_report_region item /\
                report_currency e = row_report_currency item)).
  - intros k e H. rewrite lookup_empty in H. discriminate.
  - intros item m k c Hin Hp Hm k' e'.
    destruct (decide (k' = k)) as [->|Hne].
    + rewrite lookup_insert_eq. intros [= <-]. simpl. split; [reflexivity|].
      exists item. repeat split; assumption.
    + rewrite lookup_insert_ne by congruence. apply Hm.
Qed.

Lemma loaded_entries_come_from_rows_witness :
  region_code (mkEntry "Rest of World" "USD" (Some "FR"%string) "France") = Some "FR"%string /\
  exists item,
    In item [vn_row; ww_row_vn] /\ is_placeholder (row_region_code item) = false /\
    report_region (mkEntry "Rest of World" "USD" (Some "FR"%string) "France")
    = row_report_region item /\
    report_currency (mkEntry "Rest of World" "USD" (Some "FR"%string) "France")
    = row_report_currency item.
Proof.
  apply (loaded_entries_come_from_rows (fixed_score_extractor 0) [vn_row; ww_row_vn]
           (state_of small_index small_prices) (Some "FR"%string)).
  vm_compute. reflexivity.
Defined.

(** A reading of the state that the audit log and the record of external
    calls do not enter is left alone by the resolver. *)
Lemma resolver_keeps {A : Type} (f : AppStorePricing -> A) (a : A)
    (extractOne : string -> list string -> option (string * Z)) (name : string) :
  (forall v st, f (set_dup_check v st) = f st) ->
  (forall v st, f (set_ext_calls v st) = f st) ->
  preserves (fun st => f st = a) (get_country_iso_code extractOne name).
Proof.
  intros Hlog Hcall.
  assert (Hl : forall k n m, preserves (fun st => f st = a) (log k n m)).
  { intros k n m. apply preserves_modify. intros st H.
    destruct (dup_check st !! k); rewrite Hlog; exact H. }
  unfold get_country_iso_code.
  apply preserves_bind; [apply preserves_get|]. intros index.
  destruct (first_owner (Str.lower name) index).
  - apply preserves_bind; [apply Hl | intros; apply preserves_ret].
  - apply preserves_bind.
    { apply preserves_modify. intros st H. rewrite Hcall. exact H. }
    intros _. destruct (extractOne _ _) as [[best score]|]; [|apply preserves_raise].
    destruct (if 80 <? score then first_owner best index else None);
      (apply preserves_bind; [apply Hl | intros; apply preserves_ret]).
Qed.

Lemma process_country_keeps {A : Type} (f : AppStorePricing -> A) (a : A)
    (extractOne : string -> list string -> option (string * Z)) (item : row) (c : string) :
  (forall v st, f (set_dup_check v st) = f st) ->
  (forall v st, f (set_ext_calls v st) = f st) ->
  (forall v st, f (set_stdout v st) = f st) ->
  (forall v st, f (set_country_currency_mapping v st) = f st) ->
  preserves (fun st => f st = a) (process_country extractOne item c).
Proof.
  intros Hlog Hcall Hout Hmap. unfold process_country.
  apply preserves_bind; [apply resolver_keeps; assumption|]. intros iso_code.
  apply preserves_bind.
  { destruct (negb (truthy iso_code)); [|apply preserves_ret].
    apply preserves_modify. intros st H. rewrite Hout. exact H. }
  intros _. apply preserves_bind; [apply preserves_get|]. intros mapping.
  destruct (bool_decide (is_Some (mapping !! iso_code)) && is_aggregate (row_region_code item));
    [apply preserves_ret|].
  apply preserves_modify. intros st H. rewrite Hmap. exact H.
Qed.

Lemma process_item_keeps {A : Type} (f : AppStorePricing -> A) (a : A)
    (extractOne : string -> list string -> option (string * Z)) (item : row) :
  (forall v st, f (set_dup_check v st) = f st) ->
  (forall v st, f (set_ext_calls v st) = f st) ->
  (forall v st, f (set_stdout v st) = f st) ->
  (forall v st, f (set_country_currency_mapping v st) = f st) ->
  preserves (fun st => f st = a) (process_item extractOne item).
Proof.
  intros Hlog Hcall Hout Hmap. unfold process_item.
  destruct (is_placeholder (row_region_code item)); [apply preserves_ret|].
  destruct (Str.contains_comma (row_countries item)).
  - apply preserves_for_each. intros c _. apply process_country_keeps; assumption.
  - apply preserves_modify. intros st H. rewrite Hmap. exact H.
Qed.

(** X10. The currency-table load leaves the name index and the reference
    prices as they were, whether it ends or raises. *)
Theorem fetch_keeps_index_and_prices
    (extractOne : string -> list string -> option (string * Z))
    (data : list row) (st : AppStorePricing) :
  country_names_map (snd (fetch_appstore_country_currency_mapping extractOne data st))
  = country_names_map st /\
  country_reference_rounded_prices
    (snd (fetch_appstore_country_currency_mapping extractOne data st))
  = country_reference_rounded_prices st.
Proof.
  assert (H : forall {A : Type} (f : AppStorePricing -> A),
             (forall v st, f (set_dup_check v st) = f st) ->
             (forall v st, f (set_ext_calls v st) = f st) ->
             (forall v st, f (set_stdout v st) = f st) ->
             (forall v st, f (set_country_currency_mapping v st) = f st) ->
             f (snd (fetch_appstore_country_currency_mapping extractOne data st)) = f st).
  { intros A f Hlog Hcall Hout Hmap.
    apply (preserves_bind (fun st' => f st' = f st)); [| |reflexivity].
    - apply preserves_modify. intros s Hs. rewrite Hout. exact Hs.
    - intros _. apply preserves_bind.
      + apply preserves_modify. intros s Hs. rewrite Hmap. exact Hs.
      + intros _. apply preserves_for_each. intros item _.
        apply process_item_keeps; assumption. }
  split; apply H; reflexivity.
Qed.

Lemma for_each_filter {A : Type} (keep : A -> bool) (l : list A) (body : A -> M unit) st :
  (forall x, keep x = false -> body x = ret tt) ->
  for_each (filter (fun x => keep x = true) l) body st = for_each l body st.
Proof.
  intros Hskip. revert st. induction l as [|x l IH]; intros st; [reflexivity|].
  rewrite filter_cons. destruct (decide (keep x = true)) as [Hk|Hk].
  - simpl. unfold bind. destruct (body x st) as [[[]|e] st']; [apply IH | reflexivity].
  - simpl. rewrite (Hskip x) by (destruct (keep x); congruence).
    unfold bind, ret. apply IH.
Qed.

(** X11. The placeholder rows (region codes ZZ and Z1) have no effect at
    all: loading the table without them gives the same result and the same
    state as loading the whole table. *)
Theorem placeholder_rows_are_ignored
    (extractOne : string -> list string -> option (string * Z))
    (data : list row) (st : AppStorePricing) :
  fetch_appstore_country_currency_mapping extractOne
    (filter (fun item => negb (is_placeholder (row_region_code item)) = true) data) st
  = fetch_appstore_country_currency_mapping extractOne data st.
Proof.
  unfold fetch_appstore_country_currency_mapping, bind.
  destruct (print _ st) as [[[]|x] st1]; [|reflexivity].
  destruct (modify _ st1) as [[[]|x] st2]; [|reflexivity].
  apply (for_each_filter (fun item => negb (is_placeholder (row_region_code item)))).
  intros item H. unfold process_item.
  destruct (is_placeholder (row_region_code item)); [reflexivity | discriminate].
Qed.

(** The entry under [k] carries the region and the currency of [item]. *)
Lemma process_country_specific
    (extractOne : string -> list string -> option (string * Z))
    (item : row) (c : string) (st : AppStorePricing) :
  is_aggregate (row_region_code item) = false ->
  fst (process_country extractOne item c st) = Ok tt ->
  exists k,
    resolution extractOne (country_names_map st) c = Ok k /\
    country_currency_mapping (snd (process_country extractOne item c st)) !! k
    = Some (mkEntry (row_report_region item) (row_report_currency item) k c).
Proof.
  intros Hagg. pose proof (resolver_result extractOne c st) as Hres.
  unfold process_country, bind.
  destruct (get_country_iso_code extractOne c st) as [[k|e] st1]; simpl in Hres;
    [|discriminate].
  intros _. exists k. split; [symmetry; exact Hres|].
  destruct (negb (truthy k)); unfold print, ret, get, modify; cbn beta iota;
    rewrite Hagg, andb_false_r; simpl; apply lookup_insert_eq.
Qed.

Lemma row_countries_get_currency
    (extractOne : string -> list string -> option (string * Z))
    (item : row) (l : list string) (st : AppStorePricing) :
  is_aggregate (row_region_code item) = false ->
  fst (for_each l (process_country extractOne item) st) = Ok tt ->
  forall c, In c l ->
    exists k e,
      resolution extractOne (country_names_map st) c = Ok k /\
      country_currency_mapping (snd (for_each l (process_country extractOne item) st)) !! k
      = Some e /\
      report_region e = row_report_region item /\
      report_currency e = row_report_currency item.
Proof.
  intros Hagg. revert st. induction l as [|x l IH]; intros st Hok c Hin; [destruct Hin|].
  simpl in Hok |- *. unfold bind in Hok |- *.
  pose proof (process_country_specific extractOne item x st Hagg) as Hx.
  pose proof (process_country_keeps country_names_map (country_names_map st) extractOne item x
                ltac:(reflexivity) ltac:(reflexivity) ltac:(reflexivity) ltac:(reflexivity)
                st eq_refl) as Hidx.
  destruct (process_country extractOne item x st) as [[[]|e] st1]; [|discriminate].
  simpl in Hx, Hidx. destruct Hin as [<-|Hin].
  - destruct (Hx eq_refl) as [k [Hres Hk]]. exists k.
    pose proof (preserves_for_each
                  (on_mapping (fun m => exists e, m !! k = Some e /\
                     report_region e = row_report_region item /\
                     report_currency e = row_report_currency item))
                  l (process_country extractOne item)) as Hkeep.
    assert (Hbody : forall y, In y l ->
              preserves (on_mapping (fun m => exists e, m !! k = Some e /\
                           report_region e = row_report_region item /\
                           report_currency e = row_report_currency item))
                (process_country extractOne item y)).
    { intros y _. apply process_country_mapping_invariant. intros m k' [e [He [Hr Hc]]].
      destruct (decide (k = k')) as [<-|Hne].
      - rewrite lookup_insert_eq. eexists. split; [reflexivity|]. split; reflexivity.
      - rewrite lookup_insert_ne by congruence. exists e. repeat split; assumption. }
    destruct (Hkeep Hbody st1) as [e [He [Hr Hc]]].
    { eexists. split; [exact Hk|]. split; reflexivity. }
    exists e. repeat split; assumption.
  - rewrite <- Hidx. apply (IH st1 Hok c Hin).
Qed.

(** X12. When the load of a row of a specific region (not EU, LL, WW, ZZ
    or Z1) that lists several countries ends without an exception, every
    listed name has been resolved, and the key it resolved to holds the
    report region and the report currency of that row, whatever entry the
    key held before. *)
Theorem specific_row_sets_currency
    (extractOne : string -> list string -> option (string * Z))
    (item : row) (st : AppStorePricing) :
  is_placeholder (row_region_code item) = false ->
  is_aggregate (row_region_code item) = false ->
  Str.contains_comma (row_countries item) = true ->
  fst (process_item extractOne item st) = Ok tt ->
  forall c, In c (map Str.strip (Str.split_comma (row_countries item))) ->
    exists k e,
      resolution extractOne (country_names_map st) c = Ok k /\
      country_currency_mapping (snd (process_item extractOne item st)) !! k = Some e /\
      report_region e = row_report_region item /\
      report_currency e = row_report_currency item.
Proof.
  intros Hp Hagg Hcomma. unfold process_item. rewrite Hp, Hcomma.
  apply row_countries_get_currency, Hagg.
Qed.

Lemma specific_row_sets_currency_witness :
  exists k e,
    resolution (fixed_score_extractor 0) (country_names_map us_state) "France" = Ok k /\
    country_currency_mapping
      (snd (process_item (fixed_score_extractor 0)
              (mkRow "Asia Pacific" "VND" "AP" "Vietnam , France") us_state)) !! k = Some e /\
    report_region e = "Asia Pacific"%string /\
    report_currency e = "VND"%string.
Proof.
  apply (specific_row_sets_currency (fixed_score_extractor 0)
           (mkRow "Asia Pacific" "VND" "AP" "Vietnam , France") us_state);
    [vm_compute; reflexivity .. | vm_compute; right; left; reflexivity].
Defined.

(** ** The converter and the localizer *)

Lemma converter_keeps {A : Type} (f : AppStorePricing -> A) (a : A)
    (Amount : Type) (cc_convert : Amount -> string -> string -> option Amount)
    (remote_convert : Amount -> string -> string -> result Amount)
    (price : Amount) (from_currency to_currency : string) :
  (forall v st, f (set_ext_calls v st) = f st) ->
  preserves (fun st => f st = a)
    (convert_between_currencies_by_market_xrate Amount cc_convert remote_convert
       price from_currency to_currency).
Proof.
  intros Hcall. unfold convert_between_currencies_by_market_xrate.
  assert (Hc : forall c, preserves (fun st => f st = a) (call c)).
  { intros c. apply preserves_modify. intros st H. rewrite Hcall. exact H. }
  apply preserves_bind; [apply Hc|]. intros _.
  destruct (cc_convert price from_currency to_currency); [apply preserves_ret|].
  apply preserves_bind; [apply Hc|]. intros _.
  destruct (remote_convert price from_currency to_currency);
    [apply preserves_ret | apply preserves_raise].
Qed.

(** X14. The localizer changes none of the object's tables and prints
    nothing, whether it returns or raises; and for a code that has an
    entry in the currency mapping a call that returns always returns that
    entry's report currency. *)
Theorem localizer_returns_report_currency
    (Amount : Type) (cc_convert : Amount -> string -> string -> option Amount)
    (remote_convert : Amount -> string -> string -> result Amount)
    (st : AppStorePricing) (code : string) (price : Amount) (currency : string) :
  (dup_check (snd (local_currency_to_appstore_preferred_currency Amount cc_convert
                     remote_convert code price currency st)) = dup_check st /\
   country_names_map (snd (local_currency_to_appstore_preferred_currency Amount cc_convert
                             remote_convert code price currency st)) = country_names_map st /\
   country_currency_mapping (snd (local_currency_to_appstore_preferred_currency Amount
                                    cc_convert remote_convert code price currency st))
   = country_currency_mapping st /\
   country_reference_rounded_prices
     (snd (local_currency_to_appstore_preferred_currency Amount cc_convert remote_convert
             code price currency st)) = country_reference_rounded_prices st /\
   stdout (snd (local_currency_to_appstore_preferred_currency Amount cc_convert
                  remote_convert code price currency st)) = stdout st) /\
  (forall e cur amount,
     country_currency_mapping st !! Some code = Some e ->
     fst (local_currency_to_appstore_preferred_currency Amount cc_convert remote_convert
            code price currency st) = Ok (cur, amount) ->
     cur = report_currency e).
Proof.
  split.
  - assert (H : forall {A : Type} (f : AppStorePricing -> A),
               (forall v s, f (set_ext_calls v s) = f s) ->
               f (snd (local_currency_to_appstore_preferred_currency Amount cc_convert
                         remote_convert code price currency st)) = f st).
    { intros A f Hcall.
      apply (preserves_bind (fun st' => f st' = f st)); [apply preserves_get| |reflexivity].
      intros mapping. cbv beta zeta.
      match goal with |- context [String.eqb ?a ?b] => destruct (String.eqb a b) end;
        [apply preserves_ret|].
      apply preserves_bind; [apply converter_keeps, Hcall | intros; apply preserves_ret]. }
    repeat split; apply H; reflexivity.
  - intros e cur amount He. unfold local_currency_to_appstore_preferred_currency, bind, get.
    rewrite He. destruct (String.eqb currency (report_currency e)).
    + intros [= <- _]. reflexivity.
    + destruct (convert_between_currencies_by_market_xrate _ _ _ _ _ _ _) as [[v|x] st'];
        [|discriminate].
      intros [= <- _]. reflexivity.
Qed.


(** ** The reference-price load *)

Lemma load_reference_prices_cons
    (extractOne : string -> list string -> option (string * Z))
    (r : string * Decimal) (rows : list (string * Decimal)) (st : AppStorePricing) :
  exists st1,
    country_names_map st1 = country_names_map st /\
    match resolution extractOne (country_names_map st) (fst r) with
    | Ok k =>
        load_reference_prices extractOne (r :: rows) st
        = load_reference_prices extractOne rows st1 /\
        country_reference_rounded_prices st1
        = match k with
          | Some code => if truthy k then <[code := snd r]> (country_reference_rounded_prices st)
                         else country_reference_rounded_prices st
          | None => country_reference_rounded_prices st
          end /\
        stdout st1
        = (if truthy k then stdout st
           else stdout st ++ [("No ISO code found for " ++ fst r)%string])
    | Raise e =>
        load_reference_prices extractOne (r :: rows) st = (Raise e, st1) /\
        country_reference_rounded_prices st1 = country_reference_rounded_prices st /\
        stdout st1 = stdout st
    end.
Proof.
  pose proof (resolver_result extractOne (fst r) st) as Hres.
  pose proof (resolver_keeps country_names_map (country_names_map st) extractOne (fst r)
                ltac:(reflexivity) ltac:(reflexivity) st eq_refl) as Hidx.
  pose proof (resolver_keeps country_reference_rounded_prices
                (country_reference_rounded_prices st) extractOne (fst r)
                ltac:(reflexivity) ltac:(reflexivity) st eq_refl) as Htab.
  pose proof (resolver_keeps stdout (stdout st) extractOne (fst r)
                ltac:(reflexivity) ltac:(reflexivity) st eq_refl) as Hout.
  unfold load_reference_prices. simpl for_each. unfold bind.
  destruct (get_country_iso_code extractOne (fst r) st) as [[k|e] st1];
    simpl in Hres, Hidx, Htab, Hout; rewrite <- Hres.
  - destruct k as [code|].
    + destruct (truthy (Some code)) eqn:Et.
      * eexists. split; [|split; [reflexivity|split]]; simpl; try rewrite Htab;
          try rewrite Hout; try reflexivity. exact Hidx.
      * eexists. split; [|split; [reflexivity|split]]; simpl; try rewrite Htab;
          try rewrite Hout; try reflexivity. exact Hidx.
    + eexists. split; [|split; [reflexivity|split]]; simpl; try rewrite Htab;
        try rewrite Hout; try reflexivity. exact Hidx.
  - exists st1. split; [exact Hidx|]. split; [reflexivity|]. split; assumption.
Qed.

Lemma load_reference_prices_table
    (extractOne : string -> list string -> option (string * Z))
    (rows : list (string * Decimal)) (st : AppStorePricing) :
  country_reference_rounded_prices (snd (load_reference_prices extractOne rows st))
  = load_table extractOne (country_names_map st) rows (country_reference_rounded_prices st).
Proof.
  revert st. induction rows as [|r rows IH]; intros st; [reflexivity|].
  destruct (load_reference_prices_cons extractOne r rows st) as [st1 [Hidx H]].
  simpl load_table.
  destruct (resolution extractOne (country_names_map st) (fst r)) as [k|e].
  - destruct H as [Hrun [Htab _]]. rewrite Hrun, IH, Hidx, Htab.
    destruct k as [code|]; reflexivity.
  - destruct H as [Hrun [Htab _]]. rewrite Hrun. exact Htab.
Qed.

Lemma load_reference_prices_ok
    (extractOne : string -> list string -> option (string * Z))
    (rows : list (string * Decimal)) (st : AppStorePricing) :
  fst (load_reference_prices extractOne rows st) = Ok tt ->
  forall r, In r rows -> exists k, resolution extractOne (country_names_map st) (fst r) = Ok k.
Proof.
  revert st. induction rows as [|r rows IH]; intros st Hok x Hin; [destruct Hin|].
  destruct (load_reference_prices_cons extractOne r rows st) as [st1 [Hidx H]].
  destruct (resolution extractOne (country_names_map st) (fst r)) as [k|e] eqn:E.
  - destruct H as [Hrun _]. rewrite Hrun in Hok. destruct Hin as [<-|Hin].
    + exists k. exact E.
    + rewrite <- Hidx. apply (IH st1 Hok x Hin).
  - destruct H as [Hrun _]. rewrite Hrun in Hok. discriminate.
Qed.

Lemma load_table_provenance
    (extractOne : string -> list string -> option (string * Z))
    (index : list (string * list string)) (rows : list (string * Decimal))
    (table : gmap string Decimal) (code : string) (p : Decimal) :
  load_table extractOne index rows table !! code = Some p ->
  table !! code = Some p \/
  exists name, In (name, p) rows /\
               resolution extractOne index name = Ok (Some code) /\ code <> ""%string.
Proof.
  revert table. induction rows as [|[name q] rows IH]; intros table H; [left; exact H|].
  simpl in H.
  assert (Hlater : forall t, load_table extractOne index rows t !! code = Some p ->
            t !! code = Some p \/
            exists name', In (name', p) ((name, q) :: rows) /\
              resolution extractOne index name' = Ok (Some code) /\ code <> ""%string).
  { intros t Ht. destruct (IH t Ht) as [Hl|[n [Hin Hn]]]; [left; exact Hl|].
    right. exists n. split; [right; exact Hin | exact Hn]. }
  destruct (resolution extractOne index name) as [[c|]|e] eqn:E.
  - destruct (String.eqb c "") eqn:Et; simpl in H; [apply Hlater, H|].
    destruct (Hlater _ H) as [Hl|Hr]; [|right; exact Hr].
    destruct (decide (c = code)) as [->|Hne].
    + rewrite lookup_insert_eq in Hl. injection Hl as ->.
      right. exists name. split; [left; reflexivity|]. split; [exact E|].
      intros ->. discriminate.
    + rewrite lookup_insert_ne in Hl by exact Hne. left. exact Hl.
  - apply Hlater, H.
  - left. exact H.
Qed.

(** X15. Whether the reference-price load ends or raises, every price in
    the table afterwards was there before under the same code, or is the
    price of a row of the file whose name the resolver resolved to that
    code; and no price is ever stored under the empty code. *)
Theorem loaded_prices_come_from_rows
    (extractOne : string -> list string -> option (string * Z))
    (rows : list (string * Decimal)) (st : AppStorePricing) (code : string) (p : Decimal) :
  country_reference_rounded_prices (snd (load_reference_prices extractOne rows st)) !! code
  = Some p ->
  country_reference_rounded_prices st !! code = Some p \/
  exists name, In (name, p) rows /\
               resolution extractOne (country_names_map st) name = Ok (Some code) /\
               code <> ""%string.
Proof.
  rewrite load_reference_prices_table. apply load_table_provenance.
Qed.

Lemma loaded_prices_come_from_rows_witness :
  country_reference_rounded_prices (state_of small_index ∅) !! "VN"%string
  = Some (Dec.of_Z 98) \/
  exists name, In (name, Dec.of_Z 98) [("Atlantis"%string, dfrac 99 2);
                                        ("Viet Nam"%string, Dec.of_Z 98)] /\
               resolution (fixed_score_extractor 0)
                 (country_names_map (state_of small_index ∅)) name = Ok (Some "VN"%string) /\
               "VN"%string <> ""%string.
Proof.
  apply (loaded_prices_come_from_rows (fixed_score_extractor 0)
           [("Atlantis"%string, dfrac 99 2); ("Viet Nam"%string, Dec.of_Z 98)]
           (state_of small_index ∅) "VN" (Dec.of_Z 98)).
  vm_compute. reflexivity.
Defined.

Lemma load_table_app
    (extractOne : string -> list string -> option (string * Z))
    (index : list (string * list string)) (pre rest : list (string * Decimal))
    (table : gmap string Decimal) :
  (forall r, In r pre -> exists k, resolution extractOne index (fst r) = Ok k) ->
  load_table extractOne index (pre ++ rest) table
  = load_table extractOne index rest (load_table extractOne index pre table).
Proof.
  revert table. induction pre as [|r pre IH]; intros table Hok; [reflexivity|].
  simpl. destruct (Hok r (or_introl eq_refl)) as [k Hk]. rewrite Hk.
  assert (Hok' : forall x, In x pre -> exists k, resolution extractOne index (fst x) = Ok k)
    by (intros x Hx; apply Hok; right; exact Hx).
  destruct k as [code|]; apply IH, Hok'.
Qed.

Lemma load_table_other
    (extractOne : string -> list string -> option (string * Z))
    (index : list (string * list string)) (rows : list (string * Decimal))
    (table : gmap string Decimal) (code : string) :
  (forall r, In r rows -> resolution extractOne index (fst r) <> Ok (Some code)) ->
  load_table extractOne index rows table !! code = table !! code.
Proof.
  revert table. induction rows as [|r rows IH]; intros table Hother; [reflexivity|].
  simpl.
  assert (Hother' : forall x, In x rows -> resolution extractOne index (fst x) <> Ok (Some code))
    by (intros x Hx; apply Hother; right; exact Hx).
  pose proof (Hother r (or_introl eq_refl)) as Hr.
  destruct (resolution extractOne index (fst r)) as [[c|]|e]; [| apply IH, Hother' | reflexivity].
  rewrite IH by exact Hother'.
  destruct (negb (String.eqb c "")); [|reflexivity].
  apply lookup_insert_ne. congruence.
Qed.

(** X16. When the reference-price load ends without an exception, the
    table holds, for a code, the price of the last row whose name resolved
    to it: a later row for the same code replaces the price of an earlier
    one. *)
Theorem last_reference_row_wins
    (extractOne : string -> list string -> option (string * Z))
    (pre post : list (string * Decimal)) (name code : string) (p : Decimal)
    (st : AppStorePricing) :
  fst (load_reference_prices extractOne (pre ++ (name, p) :: post) st) = Ok tt ->
  resolution extractOne (country_names_map st) name = Ok (Some code) ->
  code <> ""%string ->
  (forall r, In r post ->
     resolution extractOne (country_names_map st) (fst r) <> Ok (Some code)) ->
  country_reference_rounded_prices
    (snd (load_reference_prices extractOne (pre ++ (name, p) :: post) st)) !! code = Some p.
Proof.
  intros Hok Hres Hcode Hpost.
  pose proof (load_reference_prices_ok extractOne _ st Hok) as Hall.
  rewrite load_reference_prices_table.
  rewrite load_table_app by (intros r Hr; apply Hall, in_or_app; left; exact Hr).
  simpl load_table. rewrite Hres.
  rewrite load_table_other by exact Hpost.
  destruct (String.eqb_spec code ""); [contradiction|].
  apply lookup_insert_eq.
Qed.

Lemma last_reference_row_wins_witness :
  country_reference_rounded_prices
    (snd (load_reference_prices (fixed_score_extractor 0)
            ([("Vietnam"%string, Dec.of_Z 98)]
             ++ ("VIET NAM"%string, Dec.of_Z 108) :: [("France"%string, dfrac 99 2)])
            (state_of small_index ∅))) !! "VN"%string = Some (Dec.of_Z 108).
Proof.
  apply (last_reference_row_wins (fixed_score_extractor 0)
           [("Vietnam"%string, Dec.of_Z 98)] [("France"%string, dfrac 99 2)]
           "VIET NAM" "VN" (Dec.of_Z 108) (state_of small_index ∅)).
  - vm_compute. reflexivity.
  - vm_compute. reflexivity.
  - discriminate.
  - intros r [<-|[]]. vm_compute. discriminate.
Defined.

(** X17. Rows whose names the resolver leaves unresolved are passed over:
    when no row of the file resolves, the load ends without an exception,
    the table is what it was, and one warning per row is printed, in the
    order of the rows. *)
Theorem unresolved_reference_rows_are_skipped
    (extractOne : string -> list string -> option (string * Z))
    (rows : list (string * Decimal)) (st : AppStorePricing) :
  (forall r, In r rows -> resolution extractOne (country_names_map st) (fst r) = Ok None) ->
  fst (load_reference_prices extractOne rows st) = Ok tt /\
  country_reference_rounded_prices (snd (load_reference_prices extractOne rows st))
  = country_reference_rounded_prices st /\
  stdout (snd (load_reference_prices extractOne rows st))
  = stdout st ++ map (fun r => ("No ISO code found for " ++ fst r)%string) rows.
Proof.
  revert st. induction rows as [|r rows IH]; intros st Hnone.
  - simpl. rewrite app_nil_r. repeat split.
  - destruct (load_reference_prices_cons extractOne r rows st) as [st1 [Hidx H]].
    rewrite (Hnone r (or_introl eq_refl)) in H. destruct H as [Hrun [Htab Hout]].
    rewrite Hrun.
    destruct (IH st1) as [H1 [H2 H3]].
    { intros x Hx. rewrite Hidx. apply Hnone. right. exact Hx. }
    rewrite H1, H2, H3, Htab, Hout. simpl. rewrite <- app_assoc. repeat split.
Qed.

Lemma unresolved_reference_rows_are_skipped_witness :
  fst (load_reference_prices (fixed_score_extractor 0)
         [("Atlantis"%string, dfrac 99 2); ("Utopia"%string, Dec.of_Z 98)]
         (state_of small_index small_prices)) = Ok tt /\
  country_reference_rounded_prices
    (snd (load_reference_prices (fixed_score_extractor 0)
            [("Atlantis"%string, dfrac 99 2); ("Utopia"%string, Dec.of_Z 98)]
            (state_of small_index small_prices)))
  = country_reference_rounded_prices (state_of small_index small_prices) /\
  stdout (snd (load_reference_prices (fixed_score_extractor 0)
                 [("Atlantis"%string, dfrac 99 2); ("Utopia"%string, Dec.of_Z 98)]
                 (state_of small_index small_prices)))
  = stdout (state_of small_index small_prices)
    ++ map (fun r => ("No ISO code found for " ++ fst r)%string)
         [("Atlantis"%string, dfrac 99 2); ("Utopia"%string, Dec.of_Z 98)].
Proof.
  apply (unresolved_reference_rows_are_skipped (fixed_score_extractor 0)
           [("Atlantis"%string, dfrac 99 2); ("Utopia"%string, Dec.of_Z 98)]
           (state_of small_index small_prices)).
  intros r [<-|[<-|[]]]; vm_compute; reflexivity.
Defined.


(** ** The name index builder *)

Lemma elem_of_set_add (n x : string) (s : list string) :
  n ∈ set_add x s <-> n = x \/ n ∈ s.
Proof.
  unfold set_add. destruct (bool_decide (x ∈ s)) eqn:E.
  - apply bool_decide_eq_true_1 in E. split; [right; assumption|].
    intros [->|H]; assumption.
  - rewrite elem_of_app, list_elem_of_singleton. tauto.
Qed.

Lemma elem_of_set_update (n : string) (xs s : list string) :
  n ∈ set_update xs s <-> n ∈ xs \/ n ∈ s.
Proof.
  unfold set_update. revert s. induction xs as [|x xs IH]; intros s; simpl.
  - split; [right; assumption|]. intros [H|H]; [inversion H | exact H].
  - rewrite IH, elem_of_set_add, elem_of_cons. tauto.
Qed.

Lemma elem_of_names_of (country : country_record) (n : string) :
  n ∈ names_of country <->
  n = Str.lower (name_common country) \/
  n = Str.lower (default ""%string (name_official country)) \/
  (exists a, a ∈ altSpellings country /\ (2 < String.length a)%nat /\ n = Str.lower a) \/
  (exists t, t ∈ translations country /\
     (n = Str.lower (default ""%string (tr_common t)) \/
      n = Str.lower (default ""%string (tr_official t)))).
Proof.
  unfold names_of. cbv zeta.
  rewrite !elem_of_set_update, !elem_of_set_add, !list_elem_of_fmap.
  split.
  - intros [[t [-> Ht]]|[[t [-> Ht]]|[[a [-> Ha]]|[->|[->|H]]]]].
    + do 3 right. exists t. split; [exact Ht | right; reflexivity].
    + do 3 right. exists t. split; [exact Ht | left; reflexivity].
    + apply list_elem_of_filter in Ha. destruct Ha as [Hlen Ha].
      do 2 right. left. exists a. split; [exact Ha|]. split; [|reflexivity].
      apply Nat.ltb_lt, Hlen.
    + right. left. reflexivity.
    + left. reflexivity.
    + inversion H.
  - intros [->|[->|[[a [Ha [Hlen ->]]]|[t [Ht [-> | ->]]]]]].
    + do 4 right. left. reflexivity.
    + do 3 right. left. reflexivity.
    + do 2 right. left. exists a. split; [reflexivity|].
      apply list_elem_of_filter. split; [apply Nat.ltb_lt, Hlen | exact Ha].
    + right. left. exists t. split; [reflexivity | exact Ht].
    + left. exists t. split; [reflexivity | exact Ht].
Qed.

Lemma dict_get_set_eq {V : Type} (k : string) (v : V) (d : list (string * V)) :
  dict_get k (dict_set k v d) = Some v.
Proof.
  induction d as [|[k' v'] d IH]; simpl.
  - rewrite String.eqb_refl. reflexivity.
  - destruct (String.eqb k' k) eqn:E; simpl; [rewrite String.eqb_refl | rewrite E]; auto.
Qed.

Lemma dict_get_set_ne {V : Type} (k k' : string) (v : V) (d : list (string * V)) :
  k' <> k -> dict_get k' (dict_set k v d) = dict_get k' d.
Proof.
  intros Hne. induction d as [|[k0 v0] d IH]; simpl.
  - destruct (String.eqb_spec k k'); [congruence | reflexivity].
  - destruct (String.eqb_spec k0 k) as [->|Hk]; simpl.
    + destruct (String.eqb_spec k k'); [congruence|].
      destruct (String.eqb_spec k k'); [congruence | reflexivity].
    + destruct (String.eqb_spec k0 k'); [reflexivity | exact IH].
Qed.

Lemma dict_set_entries {V : Type} (k : string) (v : V) (d : list (string * V)) (e : string * V) :
  In e (dict_set k v d) -> e = (k, v) \/ In e d.
Proof.
  induction d as [|[k0 v0] d IH]; simpl.
  - intros [<-|[]]. left. reflexivity.
  - destruct (String.eqb k0 k); simpl.
    + intros [<-|H]; [left; reflexivity | right; right; exact H].
    + intros [<-|H]; [right; left; reflexivity|].
      destruct (IH H) as [->|H']; [left; reflexivity | right; right; exact H'].
Qed.

Lemma dict_set_keys {V : Type} (k : string) (v : V) (d : list (string * V)) (k' : string) :
  In k' (map fst (dict_set k v d)) <-> k' = k \/ In k' (map fst d).
Proof.
  induction d as [|[k0 v0] d IH]; simpl.
  - split; [intros [<-|[]]; left; reflexivity | intros [->|[]]; left; reflexivity].
  - destruct (String.eqb_spec k0 k) as [->|Hk]; simpl.
    + split; [intros [<-|H]; [left; reflexivity | right; right; exact H]|].
      intros [->|[<-|H]]; [left; reflexivity | left; reflexivity | right; exact H].
    + rewrite IH. split.
      * intros [<-|[->|H]]; [right; left; reflexivity | left; reflexivity | right; right; exact H].
      * intros [->|[<-|H]]; [right; left; reflexivity | left; reflexivity | right; right; exact H].
Qed.

Lemma dict_set_NoDup {V : Type} (k : string) (v : V) (d : list (string * V)) :
  List.NoDup (map fst d) -> List.NoDup (map fst (dict_set k v d)).
Proof.
  induction d as [|[k0 v0] d IH]; simpl; intros H.
  - constructor; [intros [] | constructor].
  - inversion H as [|? ? Hnotin Hnd]; subst.
    destruct (String.eqb_spec k0 k) as [->|Hk]; simpl.
    + constructor; assumption.
    + constructor; [|apply IH, Hnd].
      rewrite dict_set_keys. intros [->|Hin]; [congruence | contradiction].
Qed.

Lemma fetch_country_names_map_run (country_info : list country_record) (st : AppStorePricing) :
  fetch_country_names_map country_info st
  = (Ok tt, set_country_names_map (built_index country_info (country_names_map st)) st).
Proof.
  unfold fetch_country_names_map, built_index.
  revert st. induction country_info as [|c l IH]; intros st.
  - destruct st; reflexivity.
  - simpl. unfold bind, modify. rewrite IH. reflexivity.
Qed.

Lemma names_of_lower (country : country_record) (n : string) :
  n ∈ names_of country -> Str.lower n = n.
Proof.
  rewrite elem_of_names_of.
  intros [->|[->|[[a [_ [_ ->]]]|[t [_ [-> | ->]]]]]]; apply lower_idempotent.
Qed.

Lemma built_index_lower (country_info : list country_record)
    (index : list (string * list string)) :
  (forall e n, In e index -> n ∈ snd e -> Str.lower n = n) ->
  forall e n, In e (built_index country_info index) -> n ∈ snd e -> Str.lower n = n.
Proof.
  unfold built_index. revert index.
  induction country_info as [|c l IH]; intros index H; [exact H|].
  simpl. apply IH. intros e n He Hn.
  destruct (dict_set_entries _ _ _ _ He) as [->|He']; [|apply (H e n He' Hn)].
  apply (names_of_lower c), Hn.
Qed.

(** X18. Every name the builder has stored is found again by the exact
    pass: on an index built from the dataset alone, resolving a stored
    name returns a code whose name set holds it, with the "-direct"
    strategy and without a call to the fuzzy extractor. *)
Theorem stored_names_resolve_directly
    (extractOne : string -> list string -> option (string * Z))
    (country_info : list country_record) (st : AppStorePricing)
    (code : string) (names : list string) (n : string) :
  country_names_map st = [] ->
  In (code, names)
    (country_names_map (snd (fetch_country_names_map country_info st))) ->
  n ∈ names ->
  exists code' names',
    In (code', names')
      (country_names_map (snd (fetch_country_names_map country_info st))) /\
    n ∈ names' /\
    get_country_iso_code extractOne n (snd (fetch_country_names_map country_info st))
    = (Ok (Some code'),
       logged (Some code') n (n ++ "-direct")%string
         (snd (fetch_country_names_map country_info st))).
Proof.
  intros Hempty Hin Hn.
  set (st' := snd (fetch_country_names_map country_info st)) in *.
  assert (Hlow : Str.lower n = n).
  { unfold st' in Hin. rewrite fetch_country_names_map_run in Hin. simpl in Hin.
    rewrite Hempty in Hin.
    apply (built_index_lower country_info [] ltac:(intros ? ? []) (code, names) n Hin Hn). }
  assert (Hsome : is_Some (first_owner (Str.lower n) (country_names_map st'))).
  { rewrite Hlow. apply (first_owner_is_Some n _ code names); [|exact Hn].
    apply list_elem_of_In, Hin. }
  destruct Hsome as [c Hc].
  destruct (first_owner_Some _ _ _ Hc) as [ns [Hcin Hcn]].
  exists c, ns. rewrite Hlow in Hcn. split; [apply list_elem_of_In, Hcin|].
  split; [exact Hcn|].
  rewrite (resolve_direct extractOne st' n c Hc), Hlow. reflexivity.
Qed.

Lemma stored_names_resolve_directly_witness :
  exists code' names',
    In (code', names')
      (country_names_map (snd (fetch_country_names_map [france_record; vietnam_record]
                                 new_object))) /\
    "frankreich"%string ∈ names' /\
    get_country_iso_code (fixed_score_extractor 0) "frankreich"
      (snd (fetch_country_names_map [france_record; vietnam_record] new_object))
    = (Ok (Some code'),
       logged (Some code') "frankreich" ("frankreich" ++ "-direct")%string
         (snd (fetch_country_names_map [france_record; vietnam_record] new_object))).
Proof.
  apply (stored_names_resolve_directly (fixed_score_extractor 0)
           [france_record; vietnam_record] new_object "FR"
           ["france"; "french republic"; "frankreich"; "francia"; "republik frankreich"; ""]%string
           "frankreich").
  - reflexivity.
  - vm_compute. left. reflexivity.
  - vm_compute. do 2 right. left.
Defined.

Lemma built_index_get_last (pre post : list country_record) (country : country_record)
    (index : list (string * list string)) :
  (forall c, In c post -> cca2 c <> cca2 country) ->
  dict_get (cca2 country) (built_index (pre ++ country :: post) index)
  = Some (names_of country).
Proof.
  intros Hpost. unfold built_index. rewrite fold_left_app. simpl.
  set (d := dict_set (cca2 country) (names_of country) _).
  assert (Hd : dict_get (cca2 country) d = Some (names_of country))
    by apply dict_get_set_eq.
  clearbody d. revert d Hd. induction post as [|c post IH]; intros d Hd; [exact Hd|].
  simpl. apply IH.
  - intros c' Hc'. apply Hpost. right. exact Hc'.
  - rewrite dict_get_set_ne; [exact Hd|]. intros Heq. apply (Hpost c (or_introl eq_refl)).
    symmetry. exact Heq.
Qed.

(** The builder on any text: the same steps, with the lower-casing and the
    length as given. *)
Lemma fetch_country_names_map_ascii (country_info : list country_record) :
  fetch_country_names_map country_info
  = fetch_country_names_map_with Str.lower String.length country_info.
Proof. reflexivity. Qed.

Lemma elem_of_names_of_with (lower : string -> string) (len : string -> nat)
    (country : country_record) (n : string) :
  n ∈ names_of_with lower len country <->
  n = lower (name_common country) \/
  n = lower (default ""%string (name_official country)) \/
  (exists a, a ∈ altSpellings country /\ (2 < len a)%nat /\ n = lower a) \/
  (exists t, t ∈ translations country /\
     (n = lower (default ""%string (tr_common t)) \/
      n = lower (default ""%string (tr_official t)))).
Proof.
  unfold names_of_with. cbv zeta.
  rewrite !elem_of_set_update, !elem_of_set_add, !list_elem_of_fmap.
  split.
  - intros [[t [-> Ht]]|[[t [-> Ht]]|[[a [-> Ha]]|[->|[->|H]]]]].
    + do 3 right. exists t. split; [exact Ht | right; reflexivity].
    + do 3 right. exists t. split; [exact Ht | left; reflexivity].
    + apply list_elem_of_filter in Ha. destruct Ha as [Hlen Ha].
      do 2 right. left. exists a. split; [exact Ha|]. split; [|reflexivity].
      apply Nat.ltb_lt, Hlen.
    + right. left. reflexivity.
    + left. reflexivity.
    + inversion H.
  - intros [->|[->|[[a [Ha [Hlen ->]]]|[t [Ht [-> | ->]]]]]].
    + do 4 right. left. reflexivity.
    + do 3 right. left. reflexivity.
    + do 2 right. left. exists a. split; [reflexivity|].
      apply list_elem_of_filter. split; [apply Nat.ltb_lt, Hlen | exact Ha].
    + right. left. exists t. split; [reflexivity | exact Ht].
    + left. exists t. split; [reflexivity | exact Ht].
Qed.

Lemma fetch_country_names_map_with_run (lower : string -> string) (len : string -> nat)
    (country_info : list country_record) (st : AppStorePricing) :
  fetch_country_names_map_with lower len country_info st
  = (Ok tt,
     set_country_names_map
       (fold_left (fun idx country =>
                     dict_set (cca2 country) (names_of_with lower len country) idx)
          country_info (country_names_map st)) st).
Proof.
  unfold fetch_country_names_map_with.
  revert st. induction country_info as [|c l IH]; intros st.
  - destruct st; reflexivity.
  - simpl. unfold bind, modify. rewrite IH. reflexivity.
Qed.

Lemma index_fold_get_last (f : country_record -> list string)
    (pre post : list country_record) (country : country_record)
    (index : list (string * list string)) :
  (forall c, In c post -> cca2 c <> cca2 country) ->
  dict_get (cca2 country)
    (fold_left (fun idx c => dict_set (cca2 c) (f c) idx) (pre ++ country :: post) index)
  = Some (f country).
Proof.
  intros Hpost. rewrite fold_left_app. simpl.
  set (d := dict_set (cca2 country) (f country) _).
  assert (Hd : dict_get (cca2 country) d = Some (f country))
    by apply dict_get_set_eq.
  clearbody d. revert d Hd. induction post as [|c post IH]; intros d Hd; [exact Hd|].
  simpl. apply IH.
  - intros c' Hc'. apply Hpost. right. exact Hc'.
  - rewrite dict_get_set_ne; [exact Hd|]. intros Heq. apply (Hpost c (or_introl eq_refl)).
    symmetry. exact Heq.
Qed.

(** X19. After the build, the name set kept for a code is the one compiled
    from the last record of the dataset with that code, and it holds
    exactly: the lower-cased common name, the lower-cased official name
    (the empty string when it is missing), the lower-cased alternative
    spellings whose length is above two, and the lower-cased common and
    official names of each translation (again the empty string for a
    missing one).  The lower-casing and the length are any functions, so
    the statement covers [str.lower] and [len] on any text;
    [fetch_country_names_map] is the case of [Str.lower] and
    [String.length]. *)
Theorem names_kept_for_a_country
    (lower : string -> string) (len : string -> nat)
    (pre post : list country_record) (country : country_record) (st : AppStorePricing) :
  (forall c, In c post -> cca2 c <> cca2 country) ->
  exists names,
    dict_get (cca2 country)
      (country_names_map
         (snd (fetch_country_names_map_with lower len (pre ++ country :: post) st)))
    = Some names /\
    forall n,
      n ∈ names <->
      n = lower (name_common country) \/
      n = lower (default ""%string (name_official country)) \/
      (exists a, a ∈ altSpellings country /\ (2 < len a)%nat /\ n = lower a) \/
      (exists t, t ∈ translations country /\
         (n = lower (default ""%string (tr_common t)) \/
          n = lower (default ""%string (tr_official t)))).
Proof.
  intros Hpost. exists (names_of_with lower len country). split.
  - rewrite fetch_country_names_map_with_run. simpl.
    apply (index_fold_get_last (names_of_with lower len)), Hpost.
  - intros n. apply elem_of_names_of_with.
Qed.

Lemma names_kept_for_a_country_witness :
  exists names,
    dict_get (cca2 vietnam_record)
      (country_names_map (snd (fetch_country_names_map
                                 ([france_record] ++ vietnam_record :: []) new_object)))
    = Some names /\
    forall n,
      n ∈ names <->
      n = Str.lower (name_common vietnam_record) \/
      n = Str.lower (default ""%string (name_official vietnam_record)) \/
      (exists a, a ∈ altSpellings vietnam_record /\ (2 < String.length a)%nat /\
                 n = Str.lower a) \/
      (exists t, t ∈ translations vietnam_record /\
         (n = Str.lower (default ""%string (tr_common t)) \/
          n = Str.lower (default ""%string (tr_official t)))).
Proof.
  apply (names_kept_for_a_country Str.lower String.length
           [france_record] [] vietnam_record new_object).
  intros c [].
Defined.

Lemma built_index_keys (country_info : list country_record)
    (index : list (string * list string)) (k : string) :
  In k (map fst (built_index country_info index)) <->
  In k (map fst index) \/ exists c, In c country_info /\ cca2 c = k.
Proof.
  unfold built_index. revert index.
  induction country_info as [|c l IH]; intros index; simpl.
  - split; [left; assumption|]. intros [H|[c [[] _]]]. exact H.
  - rewrite IH, dict_set_keys. split.
    + intros [[->|H]|[c' [Hc' Hk]]].
      * right. exists c. split; [left|]; reflexivity.
      * left. exact H.
      * right. exists c'. split; [right; exact Hc' | exact Hk].
    + intros [H|[c' [[<-|Hc'] Hk]]].
      * left. right. exact H.
      * left. left. symmetry. exact Hk.
      * right. exists c'. split; assumption.
Qed.

Lemma built_index_NoDup (country_info : list country_record)
    (index : list (string * list string)) :
  List.NoDup (map fst index) -> List.NoDup (map fst (built_index country_info index)).
Proof.
  unfold built_index. revert index.
  induction country_info as [|c l IH]; intros index H; [exact H|].
  simpl. apply IH, dict_set_NoDup, H.
Qed.

(** X20. The builder keeps one entry per code: if the codes of the index
    were distinct before, they are distinct afterwards, and they are the
    codes there were before together with the [cca2] codes of the
    dataset. *)
Theorem index_has_one_entry_per_code
    (country_info : list country_record) (st : AppStorePricing) :
  List.NoDup (map fst (country_names_map st)) ->
  List.NoDup (map fst (country_names_map (snd (fetch_country_names_map country_info st)))) /\
  forall k,
    In k (map fst (country_names_map (snd (fetch_country_names_map country_info st)))) <->
    In k (map fst (country_names_map st)) \/ exists c, In c country_info /\ cca2 c = k.
Proof.
  intros H. rewrite fetch_country_names_map_run. simpl. split.
  - apply built_index_NoDup, H.
  - intros k. apply built_index_keys.
Qed.

Lemma index_has_one_entry_per_code_witness :
  List.NoDup (map fst (country_names_map
                         (snd (fetch_country_names_map
                                 [france_record; vietnam_record; france_record] new_object)))) /\
  forall k,
    In k (map fst (country_names_map
                     (snd (fetch_country_names_map
                             [france_record; vietnam_record; france_record] new_object)))) <->
    In k (map fst (country_names_map new_object)) \/
    exists c, In c [france_record; vietnam_record; france_record] /\ cca2 c = k.
Proof.
  apply (index_has_one_entry_per_code [france_record; vietnam_record; france_record]
           new_object).
  simpl. constructor.
Defined.

Lemma resolution_key
    (extractOne : string -> list string -> option (string * Z))
    (index : list (string * list string)) (name code : string) :
  resolution extractOne index name = Ok (Some code) -> In code (map fst index).
Proof.
  assert (Hown : forall n, first_owner n index = Some code -> In code (map fst index)).
  { intros n Hn. destruct (first_owner_Some _ _ _ Hn) as [ns [Hin _]].
    apply list_elem_of_In in Hin. apply (in_map fst) in Hin. exact Hin. }
  unfold resolution.
  destruct (first_owner (Str.lower name) index) as [c|] eqn:E.
  - intros [= ->]. apply (Hown _ E).
  - destruct (extractOne _ _) as [[best score]|]; [|discriminate].
    destruct (80 <? score); [|discriminate]. intros [= H]. apply (Hown _ H).
Qed.

Lemma fetch_keeps {A : Type} (f : AppStorePricing -> A) (a : A)
    (extractOne : string -> list string -> option (string * Z)) (data : list row) :
  (forall v st, f (set_dup_check v st) = f st) ->
  (forall v st, f (set_ext_calls v st) = f st) ->
  (forall v st, f (set_stdout v st) = f st) ->
  (forall v st, f (set_country_currency_mapping v st) = f st) ->
  preserves (fun st => f st = a) (fetch_appstore_country_currency_mapping extractOne data).
Proof.
  intros Hlog Hcall Hout Hmap. unfold fetch_appstore_country_currency_mapping.
  apply preserves_bind.
  - apply preserves_modify. intros s Hs. rewrite Hout. exact Hs.
  - intros _. apply preserves_bind.
    + apply preserves_modify. intros s Hs. rewrite Hmap. exact Hs.
    + intros _. apply preserves_for_each. intros item _.
      apply process_item_keeps; assumption.
Qed.

Lemma init_run
    (extractOne : string -> list string -> option (string * Z))
    (country_info : list country_record) (data : list row)
    (reference_rows : list (string * Decimal)) (st : AppStorePricing) :
  init extractOne country_info data reference_rows st
  = match fetch_appstore_country_currency_mapping extractOne data
            (set_country_currency_mapping ∅
               (set_country_names_map (built_index country_info [])
                  (set_dup_check ∅ st))) with
    | (Ok _, st2) =>
        load_reference_prices extractOne reference_rows
          (set_country_reference_rounded_prices ∅ st2)
    | (Raise e, st2) => (Raise e, st2)
    end.
Proof.
  unfold init. unfold bind at 1 2. unfold modify at 1 2. cbv beta iota.
  unfold bind at 1. rewrite fetch_country_names_map_run.
  unfold bind at 1. unfold modify at 1. cbv beta iota.
  unfold bind at 1.
  destruct (fetch_appstore_country_currency_mapping extractOne data _) as [[[]|e] st2];
    reflexivity.
Qed.

(** X21. In an object set up by the constructor, every code that has a
    reference price is the [cca2] code of a record of the country dataset
    and the price is that of a row of the reference file; so rounding can
    only succeed for codes of the dataset. *)
Theorem reference_codes_are_dataset_codes
    (extractOne : string -> list string -> option (string * Z))
    (country_info : list country_record) (data : list row)
    (reference_rows : list (string * Decimal)) (code : string) (p : Decimal) :
  country_reference_rounded_prices
    (snd (init extractOne country_info data reference_rows new_object)) !! code = Some p ->
  (exists c, In c country_info /\ cca2 c = code) /\
  (exists name, In (name, p) reference_rows).
Proof.
  rewrite init_run.
  set (st1 := set_country_currency_mapping ∅
                (set_country_names_map (built_index country_info [])
                   (set_dup_check ∅ new_object))).
  pose proof (fetch_keeps country_names_map (country_names_map st1) extractOne data
                ltac:(reflexivity) ltac:(reflexivity) ltac:(reflexivity) ltac:(reflexivity)
                st1 eq_refl) as Hidx.
  pose proof (fetch_keeps country_reference_rounded_prices
                (country_reference_rounded_prices st1) extractOne data
                ltac:(reflexivity) ltac:(reflexivity) ltac:(reflexivity) ltac:(reflexivity)
                st1 eq_refl) as Htab.
  destruct (fetch_appstore_country_currency_mapping extractOne data st1) as [[[]|e] st2];
    simpl in Hidx, Htab.
  - rewrite load_reference_prices_table. intros H.
    destruct (load_table_provenance _ _ _ _ _ _ H) as [Habs|[name [Hin [Hres _]]]].
    + simpl in Habs. rewrite lookup_empty in Habs. discriminate.
    + split; [|exists name; exact Hin].
      apply resolution_key in Hres. simpl in Hres. rewrite Hidx in Hres.
      apply built_index_keys in Hres. destruct Hres as [[]|Hc]. exact Hc.
  - simpl. rewrite Htab. simpl. rewrite lookup_empty. discriminate.
Qed.

Lemma reference_codes_are_dataset_codes_witness :
  (exists c, In c [france_record; vietnam_record] /\ cca2 c = "VN"%string) /\
  (exists name, In (name, Dec.of_Z 98) [("Viet Nam"%string, Dec.of_Z 98)]).
Proof.
  apply (reference_codes_are_dataset_codes (fixed_score_extractor 0)
           [france_record; vietnam_record] [vn_row] [("Viet Nam"%string, Dec.of_Z 98)]
           "VN" (Dec.of_Z 98)).
  vm_compute. reflexivity.
Defined.


(** ** The integer grids snap to the nearest grid point *)

Lemma ltb_by_scaled (a b : Decimal) (k : Z) :
  k <= expo a -> k <= expo b -> Dec.ltb a b = (scaled a k <? scaled b k).
Proof. apply ltb_scaled. Qed.

Lemma scaled_shift (d : Decimal) (k k' : Z) :
  k' <= k -> k <= expo d -> scaled d k' = scaled d k * 10 ^ (k - k').
Proof.
  intros H1 H2. unfold scaled.
  replace (expo d - k') with ((expo d - k) + (k - k')) by lia.
  rewrite Z.pow_add_r by lia. ring.
Qed.

Lemma distance_scaled (price x : Decimal) (k : Z) :
  k <= expo x -> k <= expo price ->
  k <= expo (distance price x) /\
  scaled (distance price x) k = Z.abs (scaled x k - scaled price k).
Proof.
  intros Hx Hp. unfold distance, Dec.abs, Dec.sub, Dec.opp, Dec.add, Dec.align.
  cbn [expo coef]. set (m := Z.min (expo x) (expo price)).
  assert (Hm : k <= m) by (unfold m; lia).
  split; [exact Hm|].
  rewrite (scaled_shift x m k), (scaled_shift price m k) by (unfold m; lia).
  unfold scaled at 1. cbn [expo coef].
  assert (Hpos : 0 < 10 ^ (m - k)) by (apply Z.pow_pos_nonneg; lia).
  unfold scaled.
  replace (coef x * 10 ^ (expo x - m) * 10 ^ (m - k)
           - coef price * 10 ^ (expo price - m) * 10 ^ (m - k))
    with ((coef x * 10 ^ (expo x - m) + - coef price * 10 ^ (expo price - m))
          * 10 ^ (m - k)) by ring.
  rewrite Z.abs_mul, (Z.abs_eq (10 ^ (m - k))) by lia. reflexivity.
Qed.

Lemma div_pow10_scaled (price : Decimal) (j : nat) (k : Z) :
  k <= expo price ->
  k - Z.of_nat j <= expo (Dec.div_pow10 price j) /\
  scaled (Dec.div_pow10 price j) (k - Z.of_nat j) = scaled price k.
Proof.
  intros Hk. induction j as [|j [IH1 IH2]].
  - simpl. rewrite Z.sub_0_r. split; [exact Hk | reflexivity].
  - change (Dec.div_pow10 price (S j))
      with (let q := Dec.div_pow10 price j in
            if coef q mod 10 =? 0 then mkDecimal (coef q / 10) (expo q)
            else mkDecimal (coef q) (expo q - 1)).
    cbv zeta. set (q := Dec.div_pow10 price j) in *.
    rewrite Nat2Z.inj_succ. rewrite <- IH2.
    destruct (coef q mod 10 =? 0) eqn:E; unfold scaled; cbn [expo coef].
    + split; [lia|]. apply Z.eqb_eq in E.
      replace (expo q - (k - Z.succ (Z.of_nat j))) with (1 + (expo q - (k - Z.of_nat j)))
        by lia.
      rewrite Z.pow_add_r by lia. change (10 ^ 1) with 10.
      pose proof (Z.div_mod (coef q) 10 ltac:(lia)) as Hdm. rewrite E in Hdm.
      rewrite Hdm at 2. ring.
    + split; [lia|]. f_equal. f_equal. lia.
Qed.

Lemma to_integral_value_scaled (d : Decimal) (k : Z) :
  k <= expo d -> k <= 0 ->
  scaled (Dec.to_integral_value d) k = ival (Dec.to_integral_value d) * 10 ^ (- k) /\
  - 10 ^ (- k) <= 2 * (scaled d k - ival (Dec.to_integral_value d) * 10 ^ (- k))
    <= 10 ^ (- k).
Proof.
  intros Hk H0.
  assert (Hs : 0 < 10 ^ (- k)) by (apply Z.pow_pos_nonneg; lia).
  pose proof (to_integral_value_expo d) as He.
  split.
  - unfold scaled, ival.
    replace (expo (Dec.to_integral_value d) - k)
      with (expo (Dec.to_integral_value d) + - k) by lia.
    rewrite Z.pow_add_r by lia. ring.
  - unfold Dec.to_integral_value in *. destruct (0 <=? expo d) eqn:E.
    + apply Z.leb_le in E. unfold scaled, ival.
      replace (expo d - k) with (expo d + - k) by lia.
      rewrite Z.pow_add_r by lia. lia.
    + apply Z.leb_gt in E. rewrite ival_int.
      pose proof (round_half_even_near (coef d) (10 ^ (- expo d))
                    ltac:(apply Z.pow_pos_nonneg; lia)) as Hn.
      set (n := Dec.round_half_even (coef d) (10 ^ (- expo d))) in *.
      assert (Hpow : 10 ^ (- k) = 10 ^ (- expo d) * 10 ^ (expo d - k)).
      { rewrite <- Z.pow_add_r by lia. f_equal. lia. }
      assert (Ha : 0 < 10 ^ (expo d - k)) by (apply Z.pow_pos_nonneg; lia).
      unfold scaled. rewrite Hpow.
      set (a := 10 ^ (expo d - k)) in *. set (m := 10 ^ (- expo d)) in *.
      assert (H1 : 2 * (coef d - n * m) * a <= m * a)
        by (apply Z.mul_le_mono_nonneg_r; lia).
      assert (H2 : - m * a <= 2 * (coef d - n * m) * a)
        by (apply Z.mul_le_mono_nonneg_r; lia).
      lia.
Qed.

Lemma scaled_int (N k : Z) : scaled (mkDecimal N 0) k = N * 10 ^ (- k).
Proof. unfold scaled. simpl. reflexivity. Qed.

Lemma nearest_within (price : Decimal) (l : list Decimal) (r : Decimal) (k bound : Z) :
  nearest price l = Some r ->
  k <= expo price -> k <= 0 ->
  (forall c, In c l -> k <= expo c) ->
  (exists c, In c l /\ Z.abs (scaled c k - scaled price k) <= bound * 10 ^ (- k)) ->
  Dec.ltb (Dec.of_Z bound) (distance price r) = false.
Proof.
  intros Hr Hp H0 Hexp [c [Hc Hnear]].
  pose proof (py_min_In _ _ _ Hr) as Hin.
  assert (Hmin : Dec.ltb (distance price c) (distance price r) = false).
  { unfold nearest, py_min in Hr. destruct l as [|x l]; [discriminate|].
    injection Hr as <-. apply (min_from_first_minimum (distance price) l x), Hc. }
  destruct (distance_scaled price c k (Hexp c Hc) Hp) as [Hec Hdc].
  destruct (distance_scaled price r k (Hexp r Hin) Hp) as [Her Hdr].
  rewrite (ltb_by_scaled _ _ k Hec Her), Hdc, Hdr in Hmin. apply Z.ltb_ge in Hmin.
  rewrite (ltb_by_scaled (Dec.of_Z bound) (distance price r) k H0 Her), Hdr.
  apply Z.ltb_ge. unfold Dec.of_Z. rewrite scaled_int. lia.
Qed.

(** The price, scaled, against the multiple of [10 ^ j] it is rounded to. *)
Lemma price_near_multiple (price : Decimal) (j : nat) :
  let k := Z.min (expo price) 0 in
  let s := 10 ^ (- k) in
  let m := ival (Dec.to_integral_value (Dec.div_pow10 price j)) in
  0 < s /\
  - (10 ^ Z.of_nat j * s) <= 2 * (scaled price k - m * (10 ^ Z.of_nat j * s))
    <= 10 ^ Z.of_nat j * s.
Proof.
  intros k s m.
  assert (Hs : 0 < s) by (apply Z.pow_pos_nonneg; unfold k; lia).
  split; [exact Hs|].
  destruct (div_pow10_scaled price j k ltac:(unfold k; lia)) as [He Hq].
  destruct (to_integral_value_scaled (Dec.div_pow10 price j) (k - Z.of_nat j) He
              ltac:(unfold k; lia)) as [_ Hnear].
  rewrite Hq in Hnear. fold m in Hnear.
  replace (- (k - Z.of_nat j)) with (Z.of_nat j + - k) in Hnear by lia.
  rewrite Z.pow_add_r in Hnear by (unfold k; lia). fold s in Hnear. exact Hnear.
Qed.

(** X22. On the integer grids a price in the range of exact arithmetic is
    snapped to a nearest grid point: the rounded price is within 5 of the
    input on the decade-plus-eight and bare-decade grids, and within 50 on
    the hundred-plus-99 grid. *)
Theorem integer_grids_snap_within_half_step
    (st : AppStorePricing) (iso2_code : string) (reference_price price : Decimal) :
  country_reference_rounded_prices st !! iso2_code = Some reference_price ->
  within_context price ->
  exists r,
    round_off_price_to_appstore_format iso2_code price st = (Ok r, st) /\
    (classify reference_price = DecadePlusEight \/ classify reference_price = BareDecade ->
     Dec.ltb (Dec.of_Z 5) (distance price r) = false) /\
    (classify reference_price = HundredPlus99 ->
     Dec.ltb (Dec.of_Z 50) (distance price r) = false).
Proof.
  intros Href _.
  destruct (round_off_with_reference st iso2_code price reference_price Href)
    as [r [Hr Hrun]].
  exists r. split; [exact Hrun|].
  rewrite candidates_by_grid in Hr.
  set (k := Z.min (expo price) 0).
  assert (Hkp : k <= expo price) by (unfold k; lia).
  assert (Hk0 : k <= 0) by (unfold k; lia).
  destruct (price_near_multiple price 1) as [Hs H1]. cbv zeta in Hs, H1.
  destruct (price_near_multiple price 2) as [_ H2]. cbv zeta in H2.
  fold k in Hs, H1, H2. change (10 ^ Z.of_nat 1) with 10 in H1.
  change (10 ^ Z.of_nat 2) with 100 in H2.
  set (s := 10 ^ (- k)) in *. set (p := scaled price k) in *.
  pose proof (grid_candidates_explicit (classify reference_price) price) as Hc.
  cbv zeta in Hc.
  set (m1 := ival (Dec.to_integral_value (Dec.div_pow10 price 1))) in *.
  set (m2 := ival (Dec.to_integral_value (Dec.div_pow10 price 2))) in *.
  split.
  - intros [Hg|Hg]; rewrite Hg in Hr, Hc.
    + rewrite Hc in Hr. apply (nearest_within price _ r k 5 Hr Hkp Hk0).
      * intros c [<-|[<-|[]]]; simpl; exact Hk0.
      * fold s. fold p.
        destruct (Z_le_gt_dec (3 * s) (p - m1 * (10 * s))) as [Hx|Hx].
        -- exists (mkDecimal (10 * m1 + 8) 0). split; [left; reflexivity|].
           rewrite scaled_int. fold s. lia.
        -- exists (mkDecimal (10 * m1 - 2) 0). split; [right; left; reflexivity|].
           rewrite scaled_int. fold s. lia.
    + apply (nearest_within price _ r k 5 Hr Hkp Hk0).
      * intros c Hin. rewrite Hc in Hin. destruct Hin as [<-|[]].
        pose proof (to_integral_value_expo (Dec.div_pow10 price 1)).
        unfold Dec.mul, d10, Dec.of_Z. cbn [expo]. lia.
      * fold s. fold p.
        exists (Dec.mul (Dec.to_integral_value (Dec.div_pow10 price 1)) d10).
        split; [left; reflexivity|].
        pose proof (to_integral_value_expo (Dec.div_pow10 price 1)) as He.
        assert (Hsc : scaled (Dec.mul (Dec.to_integral_value (Dec.div_pow10 price 1)) d10) k
                      = 10 * (m1 * s)).
        { unfold scaled, Dec.mul, d10, Dec.of_Z, m1, ival, s. cbn [expo coef].
          replace (expo (Dec.to_integral_value (Dec.div_pow10 price 1)) + 0 - k)
            with (expo (Dec.to_integral_value (Dec.div_pow10 price 1)) + - k) by lia.
          rewrite Z.pow_add_r by lia. ring. }
        rewrite Hsc. lia.
  - intros Hg. rewrite Hg in Hr, Hc. rewrite Hc in Hr.
    apply (nearest_within price _ r k 50 Hr Hkp Hk0).
    + intros c [<-|[<-|[]]]; simpl; exact Hk0.
    + fold s. fold p.
      destruct (Z_le_gt_dec (49 * s) (p - m2 * (100 * s))) as [Hx|Hx].
      * exists (mkDecimal (100 * m2 + 99) 0). split; [left; reflexivity|].
        rewrite scaled_int. fold s. lia.
      * exists (mkDecimal (100 * m2 - 1) 0). split; [right; left; reflexivity|].
        rewrite scaled_int. fold s. lia.
Qed.

Lemma integer_grids_snap_within_half_step_witness :
  exists r,
    round_off_price_to_appstore_format "VN" (dfrac 10349 2) (state_of small_index small_prices)
    = (Ok r, state_of small_index small_prices) /\
    (classify (Dec.of_Z 98) = DecadePlusEight \/ classify (Dec.of_Z 98) = BareDecade ->
     Dec.ltb (Dec.of_Z 5) (distance (dfrac 10349 2) r) = false) /\
    (classify (Dec.of_Z 98) = HundredPlus99 ->
     Dec.ltb (Dec.of_Z 50) (distance (dfrac 10349 2) r) = false).
Proof.
  apply (integer_grids_snap_within_half_step (state_of small_index small_prices) "VN"
           (Dec.of_Z 98) (dfrac 10349 2)).
  - vm_compute. reflexivity.
  - in_context.
Defined.

(** ** The suffix grids, for a price that is not negative *)

Lemma nearest_within_decimal (price : Decimal) (l : list Decimal) (r bound : Decimal) (k : Z) :
  nearest price l = Some r ->
  k <= expo price -> k <= expo bound ->
  (forall c, In c l -> k <= expo c) ->
  (exists c, In c l /\ Z.abs (scaled c k - scaled price k) <= scaled bound k) ->
  Dec.ltb bound (distance price r) = false.
Proof.
  intros Hr Hp Hb Hexp [c [Hc Hnear]].
  pose proof (py_min_In _ _ _ Hr) as Hin.
  assert (Hmin : Dec.ltb (distance price c) (distance price r) = false).
  { unfold nearest, py_min in Hr. destruct l as [|x l]; [discriminate|].
    injection Hr as <-. apply (min_from_first_minimum (distance price) l x), Hc. }
  destruct (distance_scaled price c k (Hexp c Hc) Hp) as [Hec Hdc].
  destruct (distance_scaled price r k (Hexp r Hin) Hp) as [Her Hdr].
  rewrite (ltb_by_scaled _ _ k Hec Her), Hdc, Hdr in Hmin. apply Z.ltb_ge in Hmin.
  rewrite (ltb_by_scaled bound (distance price r) k Hb Her), Hdr.
  apply Z.ltb_ge. lia.
Qed.

Lemma scaled_frac1 (N k : Z) : scaled (mkDecimal N (-1)) k = N * 10 ^ (-1 - k).
Proof. reflexivity. Qed.

Lemma scaled_frac2 (N k : Z) : scaled (mkDecimal N (-2)) k = N * 10 ^ (-2 - k).
Proof. reflexivity. Qed.

(** The decade taken from a price that is not negative lies at most 9
    below the integer the price is rounded to. *)
Lemma decade_below (n : Z) : 0 <= n -> 0 <= Z.rem n 10 <= 9.
Proof.
  intros Hn. pose proof (Z.rem_bound_pos n 10 Hn ltac:(lia)). lia.
Qed.

(** X23. For a price in the range of exact arithmetic that is not
    negative, the rounded price is within 5 of the input on the grids of
    the suffixes 9.98, 9.99, 9.9 and 8.99, and within 5.49 on the grids of
    the suffixes 4.99 and 4.9. *)
Theorem suffix_grids_snap_within_half_decade
    (st : AppStorePricing) (iso2_code : string) (reference_price price : Decimal) :
  country_reference_rounded_prices st !! iso2_code = Some reference_price ->
  within_context price ->
  0 <= coef price ->
  exists r,
    round_off_price_to_appstore_format iso2_code price st = (Ok r, st) /\
    (classify reference_price = Suffix998 \/ classify reference_price = Suffix999 \/
     classify reference_price = Suffix99 \/ classify reference_price = Suffix899 ->
     Dec.ltb (Dec.of_Z 5) (distance price r) = false) /\
    (classify reference_price = Suffix499 \/ classify reference_price = Suffix49 ->
     Dec.ltb (dfrac 549 2) (distance price r) = false).
Proof.
  intros Href _ Hsign.
  destruct (round_off_with_reference st iso2_code price reference_price Href)
    as [r [Hr Hrun]].
  exists r. split; [exact Hrun|].
  rewrite candidates_by_grid in Hr.
  destruct (scaled_price_near_integral price) as [Hs Hnear]. cbv zeta in Hs, Hnear.
  set (k := Z.min (expo price) (-2)) in *.
  assert (Hkp : k <= expo price) by (unfold k; lia).
  assert (Hk2 : k <= -2) by (unfold k; lia).
  fold (scaled price k) in Hnear.
  set (s := 10 ^ (-2 - k)) in *. set (p := scaled price k) in *.
  pose proof (ival_to_integral_value_nonneg price Hsign) as Hn.
  pose proof (decade_below _ Hn) as Hrem.
  pose proof (grid_candidates_explicit (classify reference_price) price) as Hc.
  cbv zeta in Hc.
  set (n := ival (Dec.to_integral_value price)) in *.
  set (d := n - Z.rem n 10) in *.
  assert (Hd : n - 9 <= d <= n) by (unfold d; lia).
  assert (Hds : (n - 9) * s <= d * s <= n * s) by nia.
  assert (H10 : 10 ^ (-1 - k) = 10 * s).
  { unfold s. replace (-1 - k) with (1 + (-2 - k)) by lia.
    rewrite Z.pow_add_r by lia. reflexivity. }
  assert (H100 : 10 ^ (0 - k) = 100 * s).
  { unfold s. replace (0 - k) with (2 + (-2 - k)) by lia.
    rewrite Z.pow_add_r by lia. reflexivity. }
  assert (H5 : scaled (Dec.of_Z 5) k = 500 * s).
  { unfold scaled, Dec.of_Z. cbn [expo coef]. rewrite H100. ring. }
  assert (H549 : scaled (dfrac 549 2) k = 549 * s) by reflexivity.
  assert (Hcase : forall (bound : Decimal) (l : list Decimal),
            k <= expo bound ->
            grid_candidates (classify reference_price) price = l ->
            (forall c, In c l -> k <= expo c) ->
            (exists c, In c l /\ Z.abs (scaled c k - p) <= scaled bound k) ->
            Dec.ltb bound (distance price r) = false).
  { intros bound l Hb Hl Hexp Hex. rewrite Hl in Hr.
    apply (nearest_within_decimal price l r bound k Hr Hkp Hb Hexp Hex). }
  split.
  - intros Hg. apply (Hcase (Dec.of_Z 5) _ ltac:(simpl; lia) Hc);
      destruct Hg as [Hg|[Hg|[Hg|Hg]]]; rewrite Hg.
    + intros c [<-|[<-|[]]]; simpl; lia.
    + intros c [<-|[<-|[]]]; simpl; lia.
    + intros c [<-|[<-|[]]]; simpl; lia.
    + intros c [<-|[<-|[]]]; simpl; lia.
    + rewrite H5. destruct (Z_le_gt_dec (498 * s) (p - 100 * (d * s))).
      * eexists. split; [left; reflexivity|]. rewrite scaled_frac2. fold s. lia.
      * eexists. split; [right; left; reflexivity|]. rewrite scaled_frac2. fold s. lia.
    + rewrite H5. destruct (Z_le_gt_dec (499 * s) (p - 100 * (d * s))).
      * eexists. split; [left; reflexivity|]. rewrite scaled_frac2. fold s. lia.
      * eexists. split; [right; left; reflexivity|]. rewrite scaled_frac2. fold s. lia.
    + rewrite H5. destruct (Z_le_gt_dec (490 * s) (p - 100 * (d * s))).
      * eexists. split; [left; reflexivity|]. rewrite scaled_frac1, H10. lia.
      * eexists. split; [right; left; reflexivity|]. rewrite scaled_frac1, H10. lia.
    + rewrite H5. destruct (Z_le_gt_dec (399 * s) (p - 100 * (d * s))).
      * eexists. split; [left; reflexivity|]. rewrite scaled_frac2. fold s. lia.
      * eexists. split; [right; left; reflexivity|]. rewrite scaled_frac2. fold s. lia.
  - intros Hg. apply (Hcase (dfrac 549 2) _ ltac:(simpl; lia) Hc);
      destruct Hg as [Hg|Hg]; rewrite Hg.
    + intros c [<-|[]]; simpl; lia.
    + intros c [<-|[]]; simpl; lia.
    + rewrite H549. eexists. split; [left; reflexivity|].
      rewrite scaled_frac2. fold s. lia.
    + rewrite H549. eexists. split; [left; reflexivity|].
      rewrite scaled_frac1, H10. lia.
Qed.

Lemma suffix_grids_snap_within_half_decade_witness :
  exists r,
    round_off_price_to_appstore_format "DE" (dfrac 1460 2) (state_of small_index suffix_prices)
    = (Ok r, state_of small_index suffix_prices) /\
    (classify (dfrac 999 2) = Suffix998 \/ classify (dfrac 999 2) = Suffix999 \/
     classify (dfrac 999 2) = Suffix99 \/ classify (dfrac 999 2) = Suffix899 ->
     Dec.ltb (Dec.of_Z 5) (distance (dfrac 1460 2) r) = false) /\
    (classify (dfrac 999 2) = Suffix499 \/ classify (dfrac 999 2) = Suffix49 ->
     Dec.ltb (dfrac 549 2) (distance (dfrac 1460 2) r) = false).
Proof.
  apply (suffix_grids_snap_within_half_decade (state_of small_index suffix_prices) "DE"
           (dfrac 999 2) (dfrac 1460 2)).
  - vm_compute. reflexivity.
  - in_context.
  - vm_compute. discriminate.
Defined.

(** ** Every listed country gets an entry *)

Lemma row_countries_get_entry
    (extractOne : string -> list string -> option (string * Z))
    (item : row) (l : list string) (st : AppStorePricing) :
  fst (for_each l (process_country extractOne item) st) = Ok tt ->
  forall c, In c l ->
    exists k,
      resolution extractOne (country_names_map st) c = Ok k /\
      is_Some (country_currency_mapping
                 (snd (for_each l (process_country extractOne item) st)) !! k).
Proof.
  revert st. induction l as [|x l IH]; intros st Hok c Hin; [destruct Hin|].
  simpl in Hok |- *. unfold bind in Hok |- *.
  pose proof (process_country_keeps country_names_map (country_names_map st) extractOne item x
                ltac:(reflexivity) ltac:(reflexivity) ltac:(reflexivity) ltac:(reflexivity)
                st eq_refl) as Hidx.
  assert (Hx : fst (process_country extractOne item x st) = Ok tt ->
               exists k, resolution extractOne (country_names_map st) x = Ok k /\
                 is_Some (country_currency_mapping
                            (snd (process_country extractOne item x st)) !! k)).
  { pose proof (resolver_result extractOne x st) as Hres.
    unfold process_country, bind.
    destruct (get_country_iso_code extractOne x st) as [[k|e] st1]; simpl in Hres;
      [|discriminate].
    intros _. exists k. split; [symmetry; exact Hres|].
    destruct (negb (truthy k)); unfold print, ret, get, modify; cbn beta iota;
      match goal with
      | |- context [bool_decide ?P && ?b] => destruct (bool_decide P) eqn:E; destruct b
      end; simpl;
      try (apply bool_decide_eq_true_1 in E; exact E);
      rewrite lookup_insert_eq; eexists; reflexivity. }
  destruct (process_country extractOne item x st) as [[[]|e] st1]; [|discriminate].
  simpl in Hx, Hidx. destruct Hin as [<-|Hin].
  - destruct (Hx eq_refl) as [k [Hres Hk]]. exists k. split; [exact Hres|].
    pose proof (preserves_for_each
                  (on_mapping (fun m => is_Some (m !! k)))
                  l (process_country extractOne item)) as Hkeep.
    apply Hkeep; [|exact Hk].
    intros y _. apply process_country_mapping_invariant. intros m k' Hm.
    destruct (decide (k = k')) as [<-|Hne].
    + rewrite lookup_insert_eq. eexists. reflexivity.
    + rewrite lookup_insert_ne by congruence. exact Hm.
  - rewrite <- Hidx. apply (IH st1 Hok c Hin).
Qed.

(** X24. When a row that lists several countries (of any region but the
    placeholders ZZ and Z1) is processed without an exception, every
    listed name has been resolved and the key it resolved to, the key
    [None] of an unresolved name included, has an entry in the mapping
    afterwards. *)
Theorem listed_countries_have_entries
    (extractOne : string -> list string -> option (string * Z))
    (item : row) (st : AppStorePricing) (c : string) :
  is_placeholder (row_region_code item) = false ->
  Str.contains_comma (row_countries item) = true ->
  fst (process_item extractOne item st) = Ok tt ->
  In c (map Str.strip (Str.split_comma (row_countries item))) ->
  exists k,
    resolution extractOne (country_names_map st) c = Ok k /\
    is_Some (country_currency_mapping (snd (process_item extractOne item st)) !! k).
Proof.
  intros Hp Hcomma. unfold process_item. rewrite Hp, Hcomma.
  intros Hok Hin. apply (row_countries_get_entry extractOne item _ st Hok c Hin).
Qed.

Lemma listed_countries_have_entries_witness :
  exists k,
    resolution (fixed_score_extractor 0) (country_names_map us_state) "Atlantis" = Ok k /\
    is_Some (country_currency_mapping
               (snd (process_item (fixed_score_extractor 0) ww_row us_state)) !! k).
Proof.
  apply (listed_countries_have_entries (fixed_score_extractor 0) ww_row us_state "Atlantis").
  - vm_compute. reflexivity.
  - vm_compute. reflexivity.
  - vm_compute. reflexivity.
  - vm_compute. left. reflexivity.
Defined.


(** ** The rounder in the default context *)

Lemma exact_fits (a : Decimal) : Z.abs (coef a) < 10 ^ 28 -> Ctx.exact a = Some a.
Proof.
  intros H. unfold Ctx.exact, Ctx.fits, Ctx.prec.
  apply Z.ltb_lt in H. rewrite H. reflexivity.
Qed.

Lemma div_pow10_bounds (a : Decimal) (k : nat) :
  Z.abs (coef (Dec.div_pow10 a k)) <= Z.abs (coef a) /\
  expo a - Z.of_nat k <= expo (Dec.div_pow10 a k) <= expo a.
Proof.
  induction k as [|k [IHc IHe]].
  - simpl. lia.
  - cbn [Dec.div_pow10]. cbv zeta.
    destruct (coef (Dec.div_pow10 a k) mod 10 =? 0) eqn:E; cbn [coef expo].
    + apply Z.eqb_eq in E. split; [|lia].
      assert (Z.abs (coef (Dec.div_pow10 a k) / 10) <= Z.abs (coef (Dec.div_pow10 a k))).
      { Z.div_mod_to_equations. lia. }
      lia.
    + split; lia.
Qed.

Lemma round_half_even_bound (c m : Z) :
  0 < m -> Z.abs (Dec.round_half_even c m) <= Z.abs c + 1.
Proof.
  intros Hm. unfold Dec.round_half_even.
  assert (Hq : - Z.abs c <= c / m <= Z.abs c).
  { pose proof (Z.div_mod c m ltac:(lia)) as Hdm.
    pose proof (Z.mod_pos_bound c m Hm) as Hr.
    destruct (Z_le_gt_dec 0 c) as [Hc|Hc].
    - pose proof (Z.div_pos c m Hc Hm).
      assert (c / m <= c) by (apply Z.div_le_upper_bound; nia).
      lia.
    - assert (c <= c / m) by (apply Z.div_le_lower_bound; nia).
      assert (c / m < 0) by (apply Z.div_lt_upper_bound; lia).
      lia. }
  assert (Hneg : c < 0 -> c / m + 1 <= 0).
  { intros Hc. assert (c / m < 0) by (apply Z.div_lt_upper_bound; lia). lia. }
  destruct (2 * (c mod m) ?= m); [destruct (Z.even (c / m))| |]; lia.
Qed.

(** The integral value of a number whose exponent is not positive. *)
Lemma to_integral_value_bounds (a : Decimal) :
  expo a <= 0 ->
  expo (Dec.to_integral_value a) = 0 /\
  Z.abs (coef (Dec.to_integral_value a)) <= Z.abs (coef a) + 1.
Proof.
  intros He. unfold Dec.to_integral_value.
  destruct (0 <=? expo a) eqn:E.
  - apply Z.leb_le in E. split; lia.
  - cbn [expo coef]. split; [reflexivity|].
    apply round_half_even_bound. apply Z.pow_pos_nonneg; lia.
Qed.

Lemma ival_expo0 (a : Decimal) : expo a = 0 -> ival a = coef a.
Proof. intros H. unfold ival. rewrite H. simpl. lia. Qed.

Lemma as_int (a : Decimal) : expo a = 0 -> a = mkDecimal (coef a) 0.
Proof. destruct a as [c e]. simpl. intros ->. reflexivity. Qed.

Lemma pow28 : 10 ^ 28 = 10000000000000000000000000000.
Proof. reflexivity. Qed.

Lemma pow25 : 10 ^ 25 = 10000000000000000000000000.
Proof. reflexivity. Qed.

Lemma pow20 : 10 ^ 20 = 100000000000000000000.
Proof. reflexivity. Qed.

(** The integral part that the integer grids multiply. *)
Lemma quotient_integral_bounds (price : Decimal) (j : nat) (B : Z) :
  expo price <= 0 -> Z.abs (coef price) < B ->
  expo (Dec.to_integral_value (Dec.div_pow10 price j)) = 0 /\
  Z.abs (coef (Dec.to_integral_value (Dec.div_pow10 price j))) <= B.
Proof.
  intros He Hc.
  destruct (div_pow10_bounds price j) as [Hqc Hqe].
  destruct (to_integral_value_bounds (Dec.div_pow10 price j) ltac:(lia)) as [Hte Htc].
  split; [exact Hte | lia].
Qed.

Lemma integer_grid_exact (t : Decimal) (mult a b : Z) :
  expo t = 0 -> Z.abs (coef t) <= 10 ^ 25 ->
  0 <= mult <= 100 -> Z.abs a <= 100 -> Z.abs b <= 100 ->
  Ctx.mul t (Dec.of_Z mult) = Some (Dec.mul t (Dec.of_Z mult)) /\
  Ctx.add (Dec.mul t (Dec.of_Z mult)) (Dec.of_Z a)
  = Some (Dec.add (Dec.mul t (Dec.of_Z mult)) (Dec.of_Z a)) /\
  Ctx.sub (Dec.mul t (Dec.of_Z mult)) (Dec.of_Z b)
  = Some (Dec.sub (Dec.mul t (Dec.of_Z mult)) (Dec.of_Z b)).
Proof.
  intros He Hc Hm Ha Hb. rewrite pow25 in Hc.
  assert (Hme : 0 <= expo (Dec.mul t (Dec.of_Z mult))) by (apply mul_int; lia).
  assert (Hprod : Z.abs (coef t * mult) <= 100 * 10000000000000000000000000).
  { rewrite Z.abs_mul. rewrite (Z.abs_eq mult) by lia.
    transitivity (Z.abs (coef t) * 100).
    - apply Z.mul_le_mono_nonneg_l; lia.
    - lia. }
  repeat split.
  - apply exact_fits. rewrite pow28. unfold Dec.mul, Dec.of_Z. cbn [coef]. lia.
  - unfold Ctx.add. rewrite (add_int _ a Hme), ival_mul, (ival_expo0 t He).
    apply exact_fits. rewrite pow28. cbn [coef].
    rewrite (Z.mul_comm mult). lia.
  - unfold Ctx.sub. rewrite (sub_int _ b Hme), ival_mul, (ival_expo0 t He).
    apply exact_fits. rewrite pow28. cbn [coef].
    rewrite (Z.mul_comm mult). lia.
Qed.

Lemma integral_value_near (price : Decimal) :
  near_context price ->
  expo (Dec.to_integral_value price) = 0 /\
  Z.abs (ival (Dec.to_integral_value price)) <= 10 ^ 25.
Proof.
  intros [He Hc].
  destruct (to_integral_value_bounds price ltac:(lia)) as [Hte Htc].
  split; [exact Hte|]. rewrite (ival_expo0 _ Hte). lia.
Qed.

Lemma rem_exact (a : Decimal) :
  expo a = 0 -> Z.abs (coef a) < 10 ^ 28 -> Ctx.rem a d10 = Some (Dec.rem a d10).
Proof.
  destruct a as [c e]. cbn [expo coef]. intros -> Hc.
  assert (Hq : (Z.abs (Z.quot c 10) <? 10 ^ Ctx.prec) = true).
  { apply Z.ltb_lt. unfold Ctx.prec. Z.to_euclidean_division_equations. lia. }
  assert (Hr : Z.abs (Z.rem c 10) < 10 ^ 28).
  { rewrite pow28. Z.to_euclidean_division_equations. lia. }
  unfold Ctx.rem, Dec.rem, Dec.align, d10, Dec.of_Z. cbn [expo coef].
  change (Z.min 0 0) with 0. change (10 ^ (0 - 0)) with 1. rewrite !Z.mul_1_r.
  change (10 =? 0) with false. cbn [orb].
  rewrite Hq. cbn [negb]. apply exact_fits. exact Hr.
Qed.

Lemma decade_exact (price : Decimal) :
  near_context price ->
  decade_in_context price = Some (decade_of price) /\
  exists D, decade_of price = mkDecimal D 0 /\ Z.abs D <= 10 ^ 25.
Proof.
  intros Hnear. destruct (integral_value_near price Hnear) as [Hte Hn].
  rewrite pow25 in Hn.
  pose proof (to_integral_value_expo price) as He0.
  pose proof (ival_expo0 _ Hte) as Hiv.
  set (n := ival (Dec.to_integral_value price)) in *.
  assert (Hrem : Z.abs (n - Z.rem n 10) <= Z.abs n).
  { Z.to_euclidean_division_equations. lia. }
  split.
  - unfold decade_in_context, decade_of. cbv zeta.
    rewrite rem_exact; [|exact Hte | rewrite <- Hiv, pow28; lia].
    cbn [mbind option_bind].
    unfold Ctx.sub. rewrite (rem_int _ He0). fold n.
    rewrite (sub_ints _ _ He0). fold n.
    apply exact_fits. rewrite pow28. cbn [coef]. lia.
  - exists (n - Z.rem n 10). split; [apply decade_of_int|]. rewrite pow25. lia.
Qed.

Lemma suffix_grid_exact (D c k : Z) :
  Z.abs D <= 10 ^ 25 -> (k = 1 \/ k = 2) -> Z.abs c <= 1000 ->
  Ctx.add (mkDecimal D 0) (dfrac c k) = Some (Dec.add (mkDecimal D 0) (dfrac c k)) /\
  Ctx.sub (mkDecimal D 0) (dfrac c k) = Some (Dec.sub (mkDecimal D 0) (dfrac c k)).
Proof.
  intros HD Hk Hc. rewrite pow25 in HD.
  assert (Hp : 10 ^ k = 10 \/ 10 ^ k = 100) by (destruct Hk as [-> | ->]; [left | right]; reflexivity).
  unfold Ctx.add, Ctx.sub.
  rewrite (add_frac D c k), (sub_frac D c k) by lia.
  split; apply exact_fits; rewrite pow28; cbn [coef]; destruct Hp as [-> | ->]; lia.
Qed.

(** Within the wider range, the candidates computed in the default context
    are those of exact arithmetic. *)
Lemma grid_candidates_exact (g : grid) (price : Decimal) :
  near_context price ->
  grid_candidates_in_context g price = Some (grid_candidates g price).
Proof.
  intros Hnear. pose proof Hnear as [He Hc].
  assert (Hdiv : forall j, Ctx.div_pow10 price j = Some (Dec.div_pow10 price j)).
  { intros j. apply exact_fits. destruct (div_pow10_bounds price j) as [Hb _].
    rewrite pow28. rewrite pow25 in Hc. lia. }
  assert (Hint : forall j,
            expo (Dec.to_integral_value (Dec.div_pow10 price j)) = 0 /\
            Z.abs (coef (Dec.to_integral_value (Dec.div_pow10 price j))) <= 10 ^ 25).
  { intros j. apply quotient_integral_bounds; lia. }
  destruct (decade_exact price Hnear) as [Hdec [D [HD HDb]]].
  destruct g; unfold grid_candidates_in_context, grid_candidates;
    rewrite ?Hdiv, ?Hdec; cbn [mbind option_bind]; unfold d10, d100.
  - destruct (Hint 1%nat) as [Ht Hb].
    destruct (integer_grid_exact _ 10 8 2 Ht Hb) as [-> [H1 H2]]; try lia.
    cbn [mbind option_bind]. rewrite H1, H2. reflexivity.
  - destruct (Hint 2%nat) as [Ht Hb].
    destruct (integer_grid_exact _ 100 99 1 Ht Hb) as [-> [H1 H2]]; try lia.
    cbn [mbind option_bind]. rewrite H1, H2. reflexivity.
  - destruct (Hint 1%nat) as [Ht Hb].
    destruct (integer_grid_exact _ 10 8 2 Ht Hb) as [-> _]; try lia.
    reflexivity.
  - rewrite HD. destruct (suffix_grid_exact D 499 2 HDb) as [-> _]; try lia. reflexivity.
  - rewrite HD. destruct (suffix_grid_exact D 49 1 HDb) as [-> _]; try lia. reflexivity.
  - rewrite HD. destruct (suffix_grid_exact D 998 2 HDb) as [-> _]; try lia.
    destruct (suffix_grid_exact D 2 2 HDb) as [_ ->]; try lia. reflexivity.
  - rewrite HD. destruct (suffix_grid_exact D 999 2 HDb) as [-> _]; try lia.
    destruct (suffix_grid_exact D 1 2 HDb) as [_ ->]; try lia. reflexivity.
  - rewrite HD. destruct (suffix_grid_exact D 99 1 HDb) as [-> _]; try lia.
    destruct (suffix_grid_exact D 1 1 HDb) as [_ ->]; try lia. reflexivity.
  - rewrite HD. destruct (suffix_grid_exact D 899 2 HDb) as [-> _]; try lia.
    destruct (suffix_grid_exact D 101 2 HDb) as [_ ->]; try lia. reflexivity.
  - destruct (integral_value_near price Hnear) as [Ht Hb].
    rewrite (as_int _ Ht). rewrite (ival_expo0 _ Ht) in Hb.
    destruct (suffix_grid_exact _ 99 2 Hb) as [-> _]; try lia. reflexivity.
Qed.

Lemma key_exact (price x : Decimal) :
  Z.abs (coef (Dec.sub x price)) < 10 ^ 28 ->
  key_in_context price x = Some (distance price x).
Proof.
  intros H. unfold key_in_context, Ctx.sub. rewrite (exact_fits _ H).
  cbn [mbind option_bind]. unfold Ctx.abs, distance. apply exact_fits.
  unfold Dec.abs. cbn [coef]. rewrite Z.abs_idemp. exact H.
Qed.

Lemma sub_coef_scaled (price x : Decimal) (k : Z) :
  k <= expo x -> k <= expo price ->
  Z.abs (coef (Dec.sub x price)) <= Z.abs (scaled x k - scaled price k).
Proof.
  intros Hx Hp. destruct (distance_scaled price x k Hx Hp) as [He Hs].
  rewrite <- Hs. unfold scaled, distance, Dec.abs. cbn [coef expo].
  assert (Hpow : 1 <= 10 ^ (expo (Dec.sub x price) - k)).
  { unfold distance, Dec.abs in He. cbn [expo] in He.
    assert (0 < 10 ^ (expo (Dec.sub x price) - k)) by (apply Z.pow_pos_nonneg; lia).
    lia. }
  pose proof (Z.abs_nonneg (coef (Dec.sub x price))).
  nia.
Qed.

Lemma pow10_le (e b : Z) : 0 <= e <= b -> 0 < 10 ^ e <= 10 ^ b.
Proof.
  intros He. split; [apply Z.pow_pos_nonneg; lia|].
  apply Z.pow_le_mono_r; lia.
Qed.

Lemma pow23 : 10 ^ 23 = 100000000000000000000000.
Proof. reflexivity. Qed.

(** Every candidate lies so near the price that its key needs no
    rounding. *)
Lemma candidates_near (g : grid) (price x : Decimal) :
  near_context price ->
  In x (grid_candidates g price) ->
  Z.abs (coef (Dec.sub x price)) < 10 ^ 28.
Proof.
  intros [He Hc] Hin.
  pose proof (grid_candidates_explicit g price) as Hexp. cbv zeta in Hexp.
  rewrite Hexp in Hin. clear Hexp.
  set (m1 := ival (Dec.to_integral_value (Dec.div_pow10 price 1))) in *.
  set (m2 := ival (Dec.to_integral_value (Dec.div_pow10 price 2))) in *.
  set (n := ival (Dec.to_integral_value price)) in *.
  set (d := n - Z.rem n 10) in *.
  assert (Hd : n - 9 <= d <= n + 9).
  { unfold d. Z.to_euclidean_division_equations. lia. }
  (* the integer grids, at the exponent of the price *)
  destruct (price_near_multiple price 1) as [Hs0 H1]. cbv zeta in Hs0, H1.
  destruct (price_near_multiple price 2) as [_ H2]. cbv zeta in H2.
  rewrite Z.min_l in Hs0, H1, H2 by lia.
  change (10 ^ Z.of_nat 1) with 10 in H1. change (10 ^ Z.of_nat 2) with 100 in H2.
  fold m1 in H1. fold m2 in H2.
  destruct (pow10_le (- expo price) 25 ltac:(lia)) as [_ Hs0b].
  rewrite pow25 in Hs0b.
  set (s0 := 10 ^ (- expo price)) in *. set (p0 := scaled price (expo price)) in *.
  (* the suffix grids, two digits after the point at least *)
  destruct (scaled_price_near_integral price) as [Hs Hnear]. cbv zeta in Hs, Hnear.
  fold n in Hnear.
  set (k := Z.min (expo price) (-2)) in *.
  assert (Hkp : k <= expo price) by (unfold k; lia).
  assert (Hk2 : k <= -2) by (unfold k; lia).
  assert (Hk25 : -25 <= k) by (unfold k; lia).
  fold (scaled price k) in Hnear.
  destruct (pow10_le (-2 - k) 23 ltac:(lia)) as [_ Hsb].
  rewrite pow23 in Hsb.
  assert (H10 : 10 ^ (-1 - k) = 10 * 10 ^ (-2 - k)).
  { replace (-1 - k) with (1 + (-2 - k)) by lia.
    rewrite Z.pow_add_r by lia. reflexivity. }
  set (s := 10 ^ (-2 - k)) in *. set (p := scaled price k) in *.
  assert (Hds : (n - 9) * s <= d * s <= (n + 9) * s) by nia.
  rewrite pow28.
  assert (Hint : forall N, Z.abs (N * s0 - p0) <= 150 * s0 ->
            Z.abs (coef (Dec.sub (mkDecimal N 0) price)) < 10000000000000000000000000000).
  { intros N HN.
    pose proof (sub_coef_scaled price (mkDecimal N 0) (expo price)
                  ltac:(cbn [expo]; lia) ltac:(lia)) as Hb.
    rewrite scaled_int in Hb. fold s0 in Hb. fold p0 in Hb. lia. }
  assert (Hfrac : forall x', k <= expo x' -> Z.abs (scaled x' k - p) <= 2000 * s ->
            Z.abs (coef (Dec.sub x' price)) < 10000000000000000000000000000).
  { intros x' Hx' HN.
    pose proof (sub_coef_scaled price x' k Hx' Hkp) as Hb. fold p in Hb. lia. }
  destruct g; cbn [In] in Hin;
    repeat match goal with
           | H : _ \/ _ |- _ => destruct H as [H|H]
           | H : False |- _ => contradiction
           | H : _ = x |- _ => rewrite <- H; clear H
           end.
  - apply Hint. lia.
  - apply Hint. lia.
  - apply Hint. lia.
  - apply Hint. lia.
  - destruct (quotient_integral_bounds price 1 (10 ^ 25) ltac:(lia) Hc) as [Ht _].
    rewrite (as_int _ Ht). unfold Dec.mul, d10, Dec.of_Z. cbn [coef expo].
    change (0 + 0) with 0. apply Hint.
    unfold m1 in H1. rewrite (ival_expo0 _ Ht) in H1. lia.
  - apply Hfrac; [cbn [expo]; lia|]. rewrite scaled_frac2. fold s. lia.
  - apply Hfrac; [cbn [expo]; lia|]. rewrite scaled_frac1, H10. lia.
  - apply Hfrac; [cbn [expo]; lia|]. rewrite scaled_frac2. fold s. lia.
  - apply Hfrac; [cbn [expo]; lia|]. rewrite scaled_frac2. fold s. lia.
  - apply Hfrac; [cbn [expo]; lia|]. rewrite scaled_frac2. fold s. lia.
  - apply Hfrac; [cbn [expo]; lia|]. rewrite scaled_frac2. fold s. lia.
  - apply Hfrac; [cbn [expo]; lia|]. rewrite scaled_frac1, H10. lia.
  - apply Hfrac; [cbn [expo]; lia|]. rewrite scaled_frac1, H10. lia.
  - apply Hfrac; [cbn [expo]; lia|]. rewrite scaled_frac2. fold s. lia.
  - apply Hfrac; [cbn [expo]; lia|]. rewrite scaled_frac2. fold s. lia.
  - apply Hfrac; [cbn [expo]; lia|]. rewrite scaled_frac2. fold s. lia.
Qed.

Lemma nearest_exact (g : grid) (price : Decimal) :
  near_context price ->
  nearest_in_context price (grid_candidates g price) = nearest price (grid_candidates g price).
Proof.
  intros Hnear. unfold nearest_in_context.
  assert (H : forallb (fun x => bool_decide (is_Some (key_in_context price x)))
                (grid_candidates g price) = true).
  { apply forallb_forall. intros x Hx. apply bool_decide_eq_true_2.
    rewrite (key_exact price x (candidates_near g price x Hnear Hx)). eexists. reflexivity. }
  rewrite H. reflexivity.
Qed.

(** The candidates of a price of the range lie in the wider range. *)
Lemma candidates_near_context (g : grid) (price c : Decimal) :
  within_context price ->
  In c (grid_candidates g price) ->
  near_context c.
Proof.
  intros [He Hc] Hin. rewrite pow20 in Hc.
  pose proof (grid_candidates_explicit g price) as Hexp. cbv zeta in Hexp.
  rewrite Hexp in Hin. clear Hexp.
  destruct (quotient_integral_bounds price 1 (10 ^ 20) ltac:(lia) ltac:(rewrite pow20; lia))
    as [Ht1 Hb1].
  destruct (quotient_integral_bounds price 2 (10 ^ 20) ltac:(lia) ltac:(rewrite pow20; lia))
    as [Ht2 Hb2].
  destruct (to_integral_value_bounds price ltac:(lia)) as [Ht0 Hb0].
  rewrite <- (ival_expo0 _ Ht1) in Hb1. rewrite <- (ival_expo0 _ Ht2) in Hb2.
  rewrite <- (ival_expo0 _ Ht0) in Hb0. rewrite pow20 in Hb1, Hb2.
  set (m1 := ival (Dec.to_integral_value (Dec.div_pow10 price 1))) in *.
  set (m2 := ival (Dec.to_integral_value (Dec.div_pow10 price 2))) in *.
  set (n := ival (Dec.to_integral_value price)) in *.
  set (d := n - Z.rem n 10) in *.
  assert (Hd : Z.abs d <= Z.abs n).
  { unfold d. Z.to_euclidean_division_equations. lia. }
  unfold near_context. rewrite pow25.
  destruct g; cbn [In] in Hin;
    repeat match goal with
           | H : _ \/ _ |- _ => destruct H as [H|H]
           | H : False |- _ => contradiction
           | H : _ = c |- _ => rewrite <- H; clear H
           end;
    try (cbn [expo coef]; lia).
  unfold Dec.mul, d10, Dec.of_Z. cbn [expo coef]. rewrite Ht1.
  unfold m1 in Hb1. rewrite (ival_expo0 _ Ht1) in Hb1. lia.
Qed.

Lemma within_near_context (price : Decimal) : within_context price -> near_context price.
Proof.
  intros [He Hc]. rewrite pow20 in Hc. unfold near_context. rewrite pow25. lia.
Qed.

(** X26. In the range of exact arithmetic the default context of the
    [decimal] module rounds nothing and raises nothing in the rounder: the
    candidates and the selection computed with 28 significant digits, and
    with the limit of [%] on its integer quotient, are those of exact
    arithmetic.  The same holds when a candidate generated from such a
    price is rounded again. *)
Theorem rounder_exact_within_context (reference_price price : Decimal) :
  within_context price ->
  candidates_in_context reference_price price = Some (candidates reference_price price) /\
  nearest_in_context price (candidates reference_price price)
  = nearest price (candidates reference_price price) /\
  forall c, In c (candidates reference_price price) ->
    candidates_in_context reference_price c = Some (candidates reference_price c) /\
    nearest_in_context c (candidates reference_price c)
    = nearest c (candidates reference_price c).
Proof.
  intros Hin. pose proof (within_near_context price Hin) as Hnear.
  unfold candidates_in_context. rewrite !candidates_by_grid.
  split; [apply grid_candidates_exact, Hnear|].
  split; [apply nearest_exact, Hnear|].
  intros c Hc. pose proof (candidates_near_context _ price c Hin Hc) as Hcn.
  rewrite candidates_by_grid.
  split; [apply grid_candidates_exact, Hcn | apply nearest_exact, Hcn].
Qed.

Lemma rounder_exact_within_context_witness :
  candidates_in_context (dfrac 999 2) (dfrac 1460 2)
  = Some (candidates (dfrac 999 2) (dfrac 1460 2)) /\
  nearest_in_context (dfrac 1460 2) (candidates (dfrac 999 2) (dfrac 1460 2))
  = nearest (dfrac 1460 2) (candidates (dfrac 999 2) (dfrac 1460 2)) /\
  forall c, In c (candidates (dfrac 999 2) (dfrac 1460 2)) ->
    candidates_in_context (dfrac 999 2) c = Some (candidates (dfrac 999 2) c) /\
    nearest_in_context c (candidates (dfrac 999 2) c)
    = nearest c (candidates (dfrac 999 2) c).
Proof.
  apply (rounder_exact_within_context (dfrac 999 2) (dfrac 1460 2)).
  in_context.
Defined.

(** Outside the range the context does matter: the remainder of 1E+29 by
    10 has an integer quotient of 29 digits, so [%] has no answer there,
    and the suffix grids have no candidates. *)
Lemma remainder_out_of_context :
  Ctx.rem (Dec.to_integral_value (mkDecimal 1 29)) d10 = None /\
  candidates_in_context (dfrac 999 2) (mkDecimal 1 29) = None.
Proof. split; vm_compute; reflexivity. Qed.
